(** * ThorBond engine: memo protocol, node registry and whitelist reconciliation

    Shallow embedding of [src/lib/thorbondEngine.ts], the properties the
    specification states about it (Parts IV and V), and further properties
    of the code (Part VI).

    Conventions of the embedding.
    - A JavaScript string is a sequence of code units; the embedding uses
      [string], one [ascii] per code unit, so it covers the strings whose
      code units are below 256.
    - A JavaScript number is an IEEE 754 binary64 value, embedded as a
      [spec_float] with 53 bits of precision and [emax = 1024].
    - [throw new Error(msg)] is the result [Throw (Error msg)].
    - An [async] method takes the state of the outside world and returns it
      with its result; a call runs to its end before the next one starts.
      [console.log] and [console.error] are not modelled. *)

From Stdlib Require Import ZArith Lia List Bool Ascii String SpecFloat.
From stdpp Require Import base gmap strings list.

Open Scope string_scope.
Open Scope Z_scope.

(** ** Part I. The JavaScript runtime used by the engine *)

Module JS.

(** *** Strings *)

(** [s.startsWith(p)] *)
Definition startsWith (s p : string) : bool := String.prefix p s.

(** [s.split(sep)] for a separator of one code unit: the fields between the
    occurrences of [sep], always at least one field. *)
Fixpoint split (sep : ascii) (s : string) : list string :=
  match s with
  | EmptyString => [EmptyString]
  | String c s' =>
      if Ascii.eqb c sep then EmptyString :: split sep s'
      else match split sep s' with
           | [] => [String c EmptyString]
           | field :: fields => String c field :: fields
           end
  end.

(** Truthiness of an optional string: [undefined] and [""] are falsy. *)
Definition truthy (memo : option string) : option string :=
  match memo with
  | Some EmptyString => None
  | other => other
  end.

(** *** Numbers *)

Definition prec : Z := 53.
Definition emax : Z := 1024.

Definition number : Type := spec_float.

Definition NaN : number := S754_nan.
Definition Infinity : number := S754_infinity false.
Definition pos_zero : number := S754_zero false.
Definition neg_zero : number := S754_zero true.

(** The values a binary64 cell can hold. *)
Definition is_number (x : number) : bool := valid_binary prec emax x.

Definition isNaN (x : number) : bool :=
  match x with S754_nan => true | _ => false end.

(** [x < y], [x <= y], [x > y], [x === y] on numbers. *)
Definition lt (x y : number) : bool := SFltb x y.
Definition le (x y : number) : bool := SFleb x y.
Definition gt (x y : number) : bool := SFltb y x.
Definition strict_eq (x y : number) : bool := SFeqb x y.

(** [x / y] *)
Definition div (x y : number) : number := SFdiv prec emax x y.

(** The number nearest to the rational [p / q] ([0 <= p], [0 < q]), ties to
    even, with sign [neg]. *)
Definition round_ratio (neg : bool) (p q : Z) : number :=
  match p with
  | Zpos _ =>
      let '(mz, ez, lz) := SFdiv_core_binary prec emax p 0 q 0 in
      binary_round_aux prec emax neg mz ez lz
  | _ => S754_zero neg
  end.

(** Trailing decimal zeros of the digits move to the exponent:
    [m * 10^e] is unchanged. *)
Fixpoint norm10 (fuel : nat) (m e : Z) : Z * Z :=
  match fuel with
  | O => (m, e)
  | S fuel' =>
      if (0 <? m) && (m mod 10 =? 0) then norm10 fuel' (m / 10) (e + 1)
      else (m, e)
  end.

(** The number nearest to [m * 10^e] ([0 <= m]), with sign [neg]. *)
Definition of_decimal (neg : bool) (m e : Z) : number :=
  let '(m', e') := norm10 (Z.to_nat (Z.log2 m)) m e in
  if 0 <=? e' then round_ratio neg (m' * 10 ^ e') 1
  else round_ratio neg m' (10 ^ (- e')).

(** The number of the integer [z]. *)
Definition of_Z (z : Z) : number :=
  of_decimal (z <? 0) (Z.abs z) 0.

(** *** Numeric literals in strings *)

Definition digit_of (radix : Z) (c : ascii) : option Z :=
  let n := Z.of_N (N_of_ascii c) in
  let v := if (48 <=? n) && (n <=? 57) then n - 48
           else if (97 <=? n) && (n <=? 122) then n - 87
           else if (65 <=? n) && (n <=? 90) then n - 55
           else radix in
  if v <? radix then Some v else None.

(** The longest prefix of digits of [s] in [radix], most significant first,
    and the rest of [s]. *)
Fixpoint span_digits (radix : Z) (s : string) : list Z * string :=
  match s with
  | EmptyString => ([], EmptyString)
  | String c s' =>
      match digit_of radix c with
      | Some d => let '(ds, rest) := span_digits radix s' in (d :: ds, rest)
      | None => ([], s)
      end
  end.

Definition digits_value (radix : Z) (ds : list Z) : Z :=
  fold_left (fun acc d => acc * radix + d) ds 0.

(** WhiteSpace and LineTerminator code units below 256. *)
Definition is_white (c : ascii) : bool :=
  match N_of_ascii c with
  | 9%N | 10%N | 11%N | 12%N | 13%N | 32%N | 160%N => true
  | _ => false
  end.

Fixpoint trim_start (s : string) : string :=
  match s with
  | String c s' => if is_white c then trim_start s' else s
  | EmptyString => EmptyString
  end.

Definition all_white (s : string) : bool :=
  match trim_start s with EmptyString => true | _ => false end.

(** A sign character in front of [s]: whether it is ["-"], and the rest. *)
Definition take_sign (s : string) : bool * string :=
  match s with
  | String "-" s' => (true, s')
  | String "+" s' => (false, s')
  | _ => (false, s)
  end.

(** ExponentPart followed by white space only, or nothing but white space:
    the decimal exponent. *)
Definition exponent_part (s : string) : option Z :=
  if all_white s then Some 0
  else match s with
       | String c s' =>
           if Ascii.eqb c "e" || Ascii.eqb c "E" then
             let '(neg, s'') := take_sign s' in
             match span_digits 10 s'' with
             | ([], _) => None
             | (ds, rest) =>
                 if all_white rest
                 then Some (if neg then - digits_value 10 ds
                            else digits_value 10 ds)
                 else None
             end
           else None
       | EmptyString => None
       end.

(** A decimal point and the digits after it, if [s] starts with a point. *)
Definition fraction_digits (s : string) : list Z * string :=
  match s with
  | String "." r => span_digits 10 r
  | _ => ([], s)
  end.

(** StrUnsignedDecimalLiteral other than [Infinity], followed by white
    space: its digits and decimal exponent. *)
Definition unsigned_decimal (s : string) : option (Z * Z) :=
  let '(int_ds, rest) := span_digits 10 s in
  let '(frac_ds, rest') := fraction_digits rest in
  match int_ds, frac_ds with
  | [], [] => None
  | _, _ =>
      match exponent_part rest' with
      | Some e =>
          Some (digits_value 10 (int_ds ++ frac_ds),
                e - Z.of_nat (length frac_ds))
      | None => None
      end
  end.

(** NonDecimalIntegerLiteral followed by white space. *)
Definition non_decimal (s : string) : option Z :=
  match s with
  | String "0" (String c s') =>
      let radix :=
        if Ascii.eqb c "x" || Ascii.eqb c "X" then Some 16
        else if Ascii.eqb c "o" || Ascii.eqb c "O" then Some 8
        else if Ascii.eqb c "b" || Ascii.eqb c "B" then Some 2
        else None in
      match radix with
      | Some r =>
          match span_digits r s' with
          | ([], _) => None
          | (ds, rest) =>
              if all_white rest then Some (digits_value r ds) else None
          end
      | None => None
      end
  | _ => None
  end.

Definition starts_Infinity (s : string) : option string :=
  if String.prefix "Infinity" s
  then Some (String.substring 8 (String.length s - 8) s)
  else None.

(** [Number(s)]: StringToNumber. White space around the literal is dropped,
    the empty string is [+0], anything that is not a numeric literal is
    [NaN]; every digit of a decimal literal counts, also past the 20th. *)
Definition Number (s : string) : number :=
  let t := trim_start s in
  match t with
  | EmptyString => pos_zero
  | _ =>
      match non_decimal t with
      | Some z => of_decimal false z 0
      | None =>
          let '(neg, u) := take_sign t in
          match starts_Infinity u with
          | Some rest =>
              if all_white rest then S754_infinity neg else NaN
          | None =>
              match unsigned_decimal u with
              | Some (m, e) => of_decimal neg m e
              | None => NaN
              end
          end
      end
  end.

(** [parseInt(s)] with no radix argument. *)
Definition parseInt (s : string) : number :=
  let '(neg, u) := take_sign (trim_start s) in
  let '(radix, v) :=
    match u with
    | String "0" (String c v') =>
        if Ascii.eqb c "x" || Ascii.eqb c "X" then (16, v') else (10, u)
    | _ => (10, u)
    end in
  match span_digits radix v with
  | ([], _) => NaN
  | (ds, _) => of_decimal neg (digits_value radix ds) 0
  end.

(** *** Numbers to strings *)

Definition number_eqb (x y : number) : bool :=
  match x, y with
  | S754_zero s, S754_zero s' => Bool.eqb s s'
  | S754_infinity s, S754_infinity s' => Bool.eqb s s'
  | S754_nan, S754_nan => true
  | S754_finite s m e, S754_finite s' m' e' =>
      Bool.eqb s s' && Pos.eqb m m' && Z.eqb e e'
  | _, _ => false
  end.

Definition digit_char (d : Z) : ascii := ascii_of_N (48 + Z.to_N d).

Fixpoint to_digits (fuel : nat) (z : Z) (acc : string) : string :=
  match fuel with
  | O => acc
  | S fuel' =>
      let acc' := String (digit_char (z mod 10)) acc in
      if z <? 10 then acc' else to_digits fuel' (z / 10) acc'
  end.

(** The decimal digits of [0 <= z], without leading zeros. *)
Definition decimal_string (z : Z) : string :=
  to_digits (S (Z.to_nat (Z.log2 z))) z "".

Definition num_digits (z : Z) : Z :=
  Z.of_nat (String.length (decimal_string z)).

Fixpoint zeros (n : nat) : string :=
  match n with
  | O => ""
  | S n' => String "0" (zeros n')
  end.

Fixpoint take (n : nat) (s : string) : string :=
  match n, s with
  | S n', String c s' => String c (take n' s')
  | _, _ => ""
  end.

Fixpoint drop (n : nat) (s : string) : string :=
  match n, s with
  | S n', String _ s' => drop n' s'
  | _, _ => s
  end.

(** Whether the decimal [s * 10^(n - k)], [k] the number of digits of [s],
    denotes [x]. *)
Definition denotes (x : number) (s n : Z) : bool :=
  number_eqb (of_decimal false s (n - num_digits s)) x.

(** The digits [s] of length [k] nearest to [p / q * 10^(k - n0)] that
    denote [x], with their exponent [n], if there are any. *)
Definition shortest_at (x : number) (p q n0 k : Z) : option (Z * Z) :=
  let '(num, den) := if 0 <=? k - n0 then (p * 10 ^ (k - n0), q)
                     else (p, q * 10 ^ (n0 - k)) in
  let lo := num / den in
  let '(hi, hn) := if lo + 1 <? 10 ^ k then (lo + 1, n0)
                   else (10 ^ (k - 1), n0 + 1) in
  match denotes x lo n0, denotes x hi hn with
  | true, true =>
      match 2 * num ?= (2 * lo + 1) * den with
      | Lt => Some (lo, n0)
      | Gt => Some (hi, hn)
      | Eq => if Z.even lo then Some (lo, n0) else Some (hi, hn)
      end
  | true, false => Some (lo, n0)
  | false, true => Some (hi, hn)
  | false, false => None
  end.

(** The exact decimal expansion [s * 10^e] of [m * 2^e2]. *)
Definition exact_decimal (m : positive) (e2 : Z) : Z * Z :=
  let '(s, e) :=
    if 0 <=? e2 then (Zpos m * 2 ^ e2, 0) else (Zpos m * 5 ^ (- e2), e2) in
  norm10 (Z.to_nat (Z.log2 s)) s e.

(** The first [k], from [k] upwards, that has digits denoting [x], with
    these digits; [exact] when [fuel] lengths have none. *)
Fixpoint shortest (fuel : nat) (x : number) (p q n0 k : Z)
    (exact : Z * Z) : Z * Z :=
  match fuel with
  | O => exact
  | S fuel' =>
      match shortest_at x p q n0 k with
      | Some sn => sn
      | None => shortest fuel' x p q n0 (k + 1) exact
      end
  end.

(** Number::toString, step 5: integers [s] and [n] such that [s] has as few
    digits [k] as possible and [s * 10^(n - k)] denotes the finite [x > 0]
    with mantissa [m] and exponent [e2]. Here [p / q] is [x], and [n0] the
    place of the decimal point in the exact expansion of [x]:
    [10^(n0 - 1) <= x < 10^n0]. The exact expansion has fewer than 800
    digits, so the search finds digits before its fuel ends. *)
Definition digits_of (m : positive) (e2 : Z) : Z * Z :=
  let x := S754_finite false m e2 in
  let '(p, q) := if 0 <=? e2 then (Zpos m * 2 ^ e2, 1)
                 else (Zpos m, 2 ^ (- e2)) in
  let '(s, e) := exact_decimal m e2 in
  let n0 := num_digits s + e in
  shortest 800 x p q n0 1 (s, n0).

(** Number::toString, steps 6 to 12: the digits [s] laid out with the
    decimal point after the [n]th. *)
Definition layout (s n : Z) : string :=
  let ds := decimal_string s in
  let k := Z.of_nat (String.length ds) in
  if (-6 <? n) && (n <=? 21) then
    if k <=? n then ds ++ zeros (Z.to_nat (n - k))
    else if 0 <? n then take (Z.to_nat n) ds ++ "." ++ drop (Z.to_nat n) ds
    else "0." ++ zeros (Z.to_nat (- n)) ++ ds
  else
    let e := n - 1 in
    let exponent := (if e <? 0 then "-" else "+") ++ decimal_string (Z.abs e) in
    if k =? 1 then ds ++ "e" ++ exponent
    else take 1 ds ++ "." ++ drop 1 ds ++ "e" ++ exponent.

(** [`${x}`] and [String(x)]: Number::toString in radix 10. *)
Definition toString (x : number) : string :=
  match x with
  | S754_nan => "NaN"
  | S754_zero _ => "0"
  | S754_infinity neg => if neg then "-Infinity" else "Infinity"
  | S754_finite neg m e2 =>
      let '(s, n) := digits_of m e2 in
      (if neg then "-" else "") ++ layout s n
  end.

(** *** Dates *)

(** ToIntegerOrInfinity of a finite number: truncation towards zero. *)
Definition truncate (neg : bool) (m : positive) (e2 : Z) : Z :=
  let a := if 0 <=? e2 then Zpos m * 2 ^ e2 else Zpos m / 2 ^ (- e2) in
  if neg then - a else a.

Definition TimeClip (time : number) : number :=
  match time with
  | S754_finite neg m e2 =>
      if gt (SFabs time) (of_Z 8640000000000000) then NaN
      else of_Z (truncate neg m e2)
  | S754_zero _ => pos_zero
  | _ => NaN
  end.

(** A Date object holds its time value, in milliseconds. *)
Record Date : Type := { time_value : number }.

(** [new Date(value)] for a number [value]. *)
Definition new_Date (value : number) : Date :=
  {| time_value := TimeClip value |}.

End JS.

(** ** Part II. The engine *)

Import JS.

(** *** Errors and results *)

(** [new Error(message)] *)
Inductive error : Type := Error (message : string).

Inductive result (A : Type) : Type :=
| Ok (value : A)
| Throw (e : error).
Arguments Ok {A} value.
Arguments Throw {A} e.

(** *** Data *)

(** A value of type [unknown]: the JSON text of a field the engine passes
    on without reading it. *)
Inductive unknown : Type := Unknown (json : string).

Module NetworkFee.
Record t : Type := mk { amount : string; asset : string }.
End NetworkFee.

Module Send.
Record t : Type := mk {
  code : string;
  memo : string;
  networkFees : list NetworkFee.t;
  reason : string }.
End Send.

Module Metadata.
Record t : Type := mk { send : option Send.t }.
End Metadata.

Module MidgardAction.
Record t : Type := mk {
  type_ : string;
  date : string;
  height : string;
  in_ : list unknown;
  out : list unknown;
  pools : list string;
  status : string;
  metadata : option Metadata.t }.
End MidgardAction.

(** The [data] object of a ThorBondAction, with the keys
    [transformMidgardAction] gives it. *)
Module ActionData.
Record t : Type := mk {
  height : string;
  in_ : list unknown;
  out : list unknown;
  pools : list string;
  status : string;
  metadata : option Metadata.t;
  memo : option string }.
End ActionData.

Module ThorBondAction.
Record t : Type := mk {
  type_ : string;
  data : ActionData.t;
  timestamp : number }.
End ThorBondAction.

Module ListingParams.
Record t : Type := mk {
  nodeAddress : string;
  operatorAddress : string;
  minRune : number;
  maxRune : number;
  feePercentage : number }.
End ListingParams.

Module ListingMemo.
Record t : Type := mk {
  nodeAddress : string;
  operatorAddress : string;
  minRune : number;
  maxRune : number;
  feePercentage : number }.
End ListingMemo.

Module WhitelistRequestParams.
Record t : Type := mk {
  nodeAddress : string;
  userAddress : string;
  amount : number }.
End WhitelistRequestParams.

(** [Node] of [../types], with the fields [getNodes] fills in. *)
Module Node.
Record t : Type := mk {
  operator : string;
  address : string;
  bondingCapacity : number;
  minimumBond : number;
  feePercentage : number;
  createdAt : Date }.
End Node.

Inductive Status : Type := pending | approved | rejected | bonded.

(** [WhitelistRequest] of [../types], with the fields
    [getWhitelistRequests] fills in. *)
Module WhitelistRequest.
Record t : Type := mk {
  node : Node.t;
  walletAddress : string;
  intendedBondAmount : number;
  status : Status;
  createdAt : Date }.
End WhitelistRequest.

Module BondInfo.
Record t : Type := mk { isBondProvider : bool; bond : number }.
End BondInfo.

(** The two lists [getWhitelistRequests] returns. *)
Module Requests.
Record t : Type := mk {
  operator : list WhitelistRequest.t;
  user : list WhitelistRequest.t }.
End Requests.

(** *** The services behind axios *)

Module ActionsQuery.
Record t : Type := mk {
  address : string;
  limit : Z;
  offset : Z;
  type_ : string }.
End ActionsQuery.

Module ActionsResponse.
Record data_t : Type := mk_data { actions : option (list MidgardAction.t) }.
Record t : Type := mk { data : data_t }.
End ActionsResponse.

Module BondProvider.
Record t : Type := mk { bond_address : string; bond : string }.
End BondProvider.

Module NodeResponse.
Record bond_providers_t : Type :=
  mk_bond_providers { providers : option (list BondProvider.t) }.
Record data_t : Type :=
  mk_data { bond_providers : option bond_providers_t }.
Record t : Type := mk { data : option data_t }.
End NodeResponse.

(** [axios.get] against the two services: a request takes the world to a
    new state and either resolves with a response or rejects with an
    error. *)
Class Network (World : Type) : Type := {
  get_actions :
    string -> ActionsQuery.t -> World -> result ActionsResponse.t * World;
  get_node : string -> World -> result NodeResponse.t * World }.

(** *** The engine object *)

Record ThorBondEngine : Type := {
  actions : list ThorBondAction.t;
  isInitialized : bool }.

Definition MIDGARD_API_URL : string := "https://midgard.ninerealms.com/v2".
Definition THORBOND_ADDRESS : string :=
  "thor1xazgmh7sv0p393t9ntj6q9p52ahycc8jjlaap9".
Definition THORNODE_API_URL : string :=
  "https://thornode.ninerealms.com/thorchain/node".

(** The instance [getInstance] creates. *)
Definition new_ThorBondEngine : ThorBondEngine :=
  {| actions := []; isInitialized := false |}.

Definition not_initialized : error := Error "ThorBondEngine not initialized".

Definition parseListingMemo (memo : string) : option ListingMemo.t :=
  match split ":" memo with
  | [tag; p1; p2; p3; p4; p5] =>
      if negb (String.eqb tag "TB") then None
      else Some {| ListingMemo.nodeAddress := p1;
                   ListingMemo.operatorAddress := p2;
                   ListingMemo.minRune := Number p3;
                   ListingMemo.maxRune := Number p4;
                   ListingMemo.feePercentage := Number p5 |}
  | _ => None
  end.

Definition transformMidgardAction (action : MidgardAction.t)
    : ThorBondAction.t :=
  {| ThorBondAction.type_ := MidgardAction.type_ action;
     ThorBondAction.data :=
       {| ActionData.height := MidgardAction.height action;
          ActionData.in_ := MidgardAction.in_ action;
          ActionData.out := MidgardAction.out action;
          ActionData.pools := MidgardAction.pools action;
          ActionData.status := MidgardAction.status action;
          ActionData.metadata := MidgardAction.metadata action;
          ActionData.memo :=
            match MidgardAction.metadata action with
            | Some metadata =>
                match Metadata.send metadata with
                | Some send => Some (Send.memo send)
                | None => None
                end
            | None => None
            end |};
     ThorBondAction.timestamp := parseInt (MidgardAction.date action) |}.

Definition memo_of (action : ThorBondAction.t) : option string :=
  ActionData.memo (ThorBondAction.data action).

(** [new Date(action.timestamp / 1000000)] *)
Definition date_of (action : ThorBondAction.t) : Date :=
  new_Date (div (ThorBondAction.timestamp action) (of_Z 1000000)).

(** The callback of [this.actions.forEach] in [getNodes], on the pair of
    [nodes] and [processedAddresses]. *)
Definition getNodes_step (state : list Node.t * gset string)
    (action : ThorBondAction.t) : list Node.t * gset string :=
  let '(nodes, processedAddresses) := state in
  match truthy (memo_of action) with
  | None => state
  | Some memo =>
      match parseListingMemo memo with
      | None => state
      | Some listingMemo =>
          if decide (ListingMemo.nodeAddress listingMemo ∈ processedAddresses)
          then state
          else
            ((nodes ++
               [ {| Node.operator := ListingMemo.operatorAddress listingMemo;
                    Node.address := ListingMemo.nodeAddress listingMemo;
                    Node.bondingCapacity := ListingMemo.maxRune listingMemo;
                    Node.minimumBond := ListingMemo.minRune listingMemo;
                    Node.feePercentage :=
                      ListingMemo.feePercentage listingMemo;
                    Node.createdAt := date_of action |} ])%list,
             {[ ListingMemo.nodeAddress listingMemo ]} ∪ processedAddresses)
      end
  end.

Definition getNodes (this : ThorBondEngine) : result (list Node.t) :=
  if negb (isInitialized this) then Throw not_initialized
  else Ok (fst (fold_left getNodes_step (actions this) ([], ∅))).

Definition getActions (this : ThorBondEngine)
    : result (list ThorBondAction.t) :=
  if negb (isInitialized this) then Throw not_initialized
  else Ok (actions this).

Definition createListing (params : ListingParams.t) : result string :=
  if negb (startsWith (ListingParams.nodeAddress params) "thor1") then
    Throw (Error "Invalid node address format")
  else if negb (startsWith (ListingParams.operatorAddress params) "thor1") then
    Throw (Error "Invalid operator address format")
  else if le (ListingParams.minRune params) pos_zero then
    Throw (Error "Minimum RUNE amount must be greater than 0")
  else if le (ListingParams.maxRune params) (ListingParams.minRune params) then
    Throw (Error "Maximum RUNE amount must be greater than minimum amount")
  else if lt (ListingParams.feePercentage params) pos_zero
          || gt (ListingParams.feePercentage params) (of_Z 100) then
    Throw (Error "Fee percentage must be between 0 and 100")
  else
    Ok ("TB:" ++ ListingParams.nodeAddress params
        ++ ":" ++ ListingParams.operatorAddress params
        ++ ":" ++ toString (ListingParams.minRune params)
        ++ ":" ++ toString (ListingParams.maxRune params)
        ++ ":" ++ toString (ListingParams.feePercentage params)).

Definition createWhitelistRequest (params : WhitelistRequestParams.t)
    : result string :=
  if negb (startsWith (WhitelistRequestParams.nodeAddress params) "thor1") then
    Throw (Error "Invalid node address format")
  else if negb (startsWith (WhitelistRequestParams.userAddress params) "thor1")
  then Throw (Error "Invalid user address format")
  else if le (WhitelistRequestParams.amount params) pos_zero then
    Throw (Error "Amount must be greater than 0")
  else
    Ok ("TB:" ++ WhitelistRequestParams.nodeAddress params
        ++ ":" ++ WhitelistRequestParams.userAddress params
        ++ ":" ++ toString (WhitelistRequestParams.amount params)).

(** Lines 331 to 340 of [getWhitelistRequests]: the fields of a whitelist
    request memo, or nothing where the loop says [continue]. *)
Definition parseWhitelistMemo (memo : string)
    : option WhitelistRequestParams.t :=
  match split ":" memo with
  | [tag; nodeAddress; userAddress; amountStr] =>
      if negb (String.eqb tag "TB") then None
      else if negb (startsWith nodeAddress "thor1")
              || negb (startsWith userAddress "thor1") then None
      else
        let amount := Number amountStr in
        if isNaN amount || le amount pos_zero then None
        else Some {| WhitelistRequestParams.nodeAddress := nodeAddress;
                     WhitelistRequestParams.userAddress := userAddress;
                     WhitelistRequestParams.amount := amount |}
  | _ => None
  end.

(** Lines 354 to 364 of [getWhitelistRequests]: the status variable after
    the two [if] statements. *)
Definition status_of (bondInfo : BondInfo.t) : Status :=
  let status := pending in
  let status := if BondInfo.isBondProvider bondInfo then approved
                else status in
  let status := if BondInfo.isBondProvider bondInfo
                   && gt (BondInfo.bond bondInfo) pos_zero then bonded
                else status in
  status.

Section Async.
Context {World : Type} `{Network World}.

Definition getBondInfoForUser (nodeAddress userAddress : string) (w : World)
    : result BondInfo.t * World :=
  if negb (startsWith nodeAddress "thor1")
     || negb (startsWith userAddress "thor1") then
    (Throw (Error "Invalid THORChain address"), w)
  else
    match get_node (THORNODE_API_URL ++ "/" ++ nodeAddress) w with
    | (Throw _, w') => (Throw (Error "Failed to retrieve bond info"), w')
    | (Ok response, w') =>
        let bondProviders :=
          match NodeResponse.data response with
          | Some data =>
              match NodeResponse.bond_providers data with
              | Some bond_providers =>
                  match NodeResponse.providers bond_providers with
                  | Some providers => providers
                  | None => []
                  end
              | None => []
              end
          | None => []
          end in
        match find (fun bp => String.eqb (BondProvider.bond_address bp)
                                         userAddress) bondProviders with
        | Some provider =>
            (Ok {| BondInfo.isBondProvider := true;
                   BondInfo.bond := Number (BondProvider.bond provider) |},
             w')
        | None =>
            (Ok {| BondInfo.isBondProvider := false;
                   BondInfo.bond := pos_zero |}, w')
        end
    end.

(** [initialize]: the engine after the call, with the result. *)
Definition initialize (this : ThorBondEngine) (w : World)
    : result unit * ThorBondEngine * World :=
  if isInitialized this then (Ok tt, this, w)
  else
    match get_actions (MIDGARD_API_URL ++ "/actions")
            {| ActionsQuery.address := THORBOND_ADDRESS;
               ActionsQuery.limit := 50;
               ActionsQuery.offset := 0;
               ActionsQuery.type_ := "send" |} w with
    | (Throw e, w') => (Throw e, this, w')
    | (Ok response, w') =>
        let actions :=
          match ActionsResponse.actions (ActionsResponse.data response) with
          | Some actions => actions
          | None => []
          end in
        (Ok tt,
         {| actions := map transformMidgardAction actions;
            isInitialized := true |},
         w')
    end.

Definition refreshActions (this : ThorBondEngine) (w : World)
    : result unit * ThorBondEngine * World :=
  initialize {| actions := actions this; isInitialized := false |} w.

(** The body of the [for] loop of [getWhitelistRequests], on the two lists
    built so far. *)
Definition getWhitelistRequests_body (this : ThorBondEngine)
    (connectedAddress : string) (action : ThorBondAction.t)
    (requests : Requests.t) (w : World) : result Requests.t * World :=
  match truthy (memo_of action) with
  | None => (Ok requests, w)
  | Some memo =>
      match parseWhitelistMemo memo with
      | None => (Ok requests, w)
      | Some request =>
          let nodeAddress := WhitelistRequestParams.nodeAddress request in
          let userAddress := WhitelistRequestParams.userAddress request in
          let amount := WhitelistRequestParams.amount request in
          match getNodes this with
          | Throw e => (Throw e, w)
          | Ok nodes =>
              match find (fun node => String.eqb (Node.address node)
                                                 nodeAddress) nodes with
              | None => (Throw (Error "Node not found"), w)
              | Some node =>
                  if String.eqb userAddress connectedAddress
                     || String.eqb (Node.operator node) connectedAddress
                  then
                    match getBondInfoForUser (Node.address node)
                            userAddress w with
                    | (Throw e, w') => (Throw e, w')
                    | (Ok bondInfo, w') =>
                        let item :=
                          {| WhitelistRequest.node := node;
                             WhitelistRequest.walletAddress := userAddress;
                             WhitelistRequest.intendedBondAmount := amount;
                             WhitelistRequest.status := status_of bondInfo;
                             WhitelistRequest.createdAt := date_of action |} in
                        let requestsUser :=
                          if String.eqb userAddress connectedAddress
                          then (Requests.user requests ++ [item])%list
                          else Requests.user requests in
                        let requestsOperator :=
                          if String.eqb (Node.operator node) connectedAddress
                          then (Requests.operator requests ++ [item])%list
                          else Requests.operator requests in
                        (Ok {| Requests.operator := requestsOperator;
                               Requests.user := requestsUser |}, w')
                    end
                  else (Ok requests, w)
              end
          end
      end
  end.

(** [for (const action of actions) body], leaving the loop at the first
    [throw]. *)
Fixpoint for_of (body : ThorBondAction.t -> Requests.t -> World ->
                        result Requests.t * World)
    (actions : list ThorBondAction.t) (requests : Requests.t) (w : World)
    : result Requests.t * World :=
  match actions with
  | [] => (Ok requests, w)
  | action :: rest =>
      match body action requests w with
      | (Ok requests', w') => for_of body rest requests' w'
      | (Throw e, w') => (Throw e, w')
      end
  end.

Definition getWhitelistRequests (this : ThorBondEngine)
    (connectedAddress : string) (w : World) : result Requests.t * World :=
  if negb (isInitialized this) then (Throw not_initialized, w)
  else
    for_of (getWhitelistRequests_body this connectedAddress) (actions this)
      {| Requests.operator := []; Requests.user := [] |} w.

End Async.

(** *** A scripted world

    The responses of the two services, in the order the requests will be
    made; a request beyond the script is rejected. *)

Record Scripted : Type := {
  actions_responses : list (result ActionsResponse.t);
  node_responses : list (result NodeResponse.t) }.

Definition network_error : error := Error "Network Error".

#[export] Instance Scripted_Network : Network Scripted := {
  get_actions _ _ w :=
    match actions_responses w with
    | r :: rest =>
        (r, {| actions_responses := rest;
               node_responses := node_responses w |})
    | [] => (Throw network_error, w)
    end;
  get_node _ w :=
    match node_responses w with
    | r :: rest =>
        (r, {| actions_responses := actions_responses w;
               node_responses := rest |})
    | [] => (Throw network_error, w)
    end }.

(** A send to the protocol address with memo [memo], dated [date], as the
    indexer reports it. *)
Definition midgard_send (memo date : string) : MidgardAction.t :=
  {| MidgardAction.type_ := "send";
     MidgardAction.date := date;
     MidgardAction.height := "1";
     MidgardAction.in_ := [];
     MidgardAction.out := [];
     MidgardAction.pools := [];
     MidgardAction.status := "success";
     MidgardAction.metadata :=
       Some {| Metadata.send :=
                 Some {| Send.code := "0";
                         Send.memo := memo;
                         Send.networkFees := [];
                         Send.reason := "" |} |} |}.

(** The action [transformMidgardAction] makes of it. *)
Definition send_action (memo date : string) : ThorBondAction.t :=
  transformMidgardAction (midgard_send memo date).

(** ** Part III. The words of the specification *)

(** *** Memos, the registry and the oracle *)

(** The listing an action carries, if its memo decodes as one. *)
Definition listing_of (action : ThorBondAction.t) : option ListingMemo.t :=
  match truthy (memo_of action) with
  | Some memo => parseListingMemo memo
  | None => None
  end.

(** The Node a listing carried by [action] stands for. *)
Definition node_of_listing (listingMemo : ListingMemo.t)
    (action : ThorBondAction.t) : Node.t :=
  {| Node.operator := ListingMemo.operatorAddress listingMemo;
     Node.address := ListingMemo.nodeAddress listingMemo;
     Node.bondingCapacity := ListingMemo.maxRune listingMemo;
     Node.minimumBond := ListingMemo.minRune listingMemo;
     Node.feePercentage := ListingMemo.feePercentage listingMemo;
     Node.createdAt := date_of action |}.

(** The numeric ranges the specification gives a listing: [minBond] not
    negative, [maxBond] above [minBond], the fee between 0 and 100. *)
Definition in_ranges (listingMemo : ListingMemo.t) : bool :=
  le pos_zero (ListingMemo.minRune listingMemo)
  && gt (ListingMemo.maxRune listingMemo) (ListingMemo.minRune listingMemo)
  && le pos_zero (ListingMemo.feePercentage listingMemo)
  && le (ListingMemo.feePercentage listingMemo) (of_Z 100).

(** The whitelist request an action carries, if its memo decodes as one. *)
Definition request_of (action : ThorBondAction.t)
    : option WhitelistRequestParams.t :=
  match truthy (memo_of action) with
  | Some memo => parseWhitelistMemo memo
  | None => None
  end.

(** The bond-provider list of a response, an absent list read as empty. *)
Definition providers_of (response : NodeResponse.t) : list BondProvider.t :=
  match NodeResponse.data response with
  | Some {| NodeResponse.bond_providers :=
              Some {| NodeResponse.providers := Some providers |} |} =>
      providers
  | _ => []
  end.

(** What the loop of [getNodes] keeps true of [nodes] and
    [processedAddresses]. *)
Definition registry_inv (state : list Node.t * gset string) : Prop :=
  NoDup (map Node.address (fst state)) /\
  forall x, x ∈ snd state <-> x ∈ map Node.address (fst state).

Definition node_not_found : error := Error "Node not found".
Definition bond_info_failed : error := Error "Failed to retrieve bond info".

(** The registry has a node for the address of this request. *)
Definition resolve (nodes : list Node.t) (request : WhitelistRequestParams.t)
    : option Node.t :=
  find (fun node => String.eqb (Node.address node)
                      (WhitelistRequestParams.nodeAddress request)) nodes.

(** The whitelist requests of a feed that decode and whose node is in the
    registry, in feed order. *)
Definition candidates (nodes : list Node.t) (actions : list ThorBondAction.t)
    : list (ThorBondAction.t * WhitelistRequestParams.t * Node.t) :=
  omap (fun action =>
          match request_of action with
          | Some request =>
              match resolve nodes request with
              | Some node => Some (action, request, node)
              | None => None
              end
          | None => None
          end) actions.

Definition viewer_is_user (viewerAddress : string)
    (c : ThorBondAction.t * WhitelistRequestParams.t * Node.t) : bool :=
  String.eqb (WhitelistRequestParams.userAddress (snd (fst c))) viewerAddress.

Definition viewer_is_operator (viewerAddress : string)
    (c : ThorBondAction.t * WhitelistRequestParams.t * Node.t) : bool :=
  String.eqb (Node.operator (snd c)) viewerAddress.

(** A view object without its status. *)
Definition unlabelled (r : WhitelistRequest.t)
    : Node.t * string * number * Date :=
  (WhitelistRequest.node r, WhitelistRequest.walletAddress r,
   WhitelistRequest.intendedBondAmount r, WhitelistRequest.createdAt r).

Definition entry_of (c : ThorBondAction.t * WhitelistRequestParams.t * Node.t)
    : Node.t * string * number * Date :=
  (snd c, WhitelistRequestParams.userAddress (snd (fst c)),
   WhitelistRequestParams.amount (snd (fst c)), date_of (fst (fst c))).

(** The viewer is the user or the operator of the request. *)
Definition viewer_sees (viewerAddress : string)
    (c : ThorBondAction.t * WhitelistRequestParams.t * Node.t) : bool :=
  viewer_is_user viewerAddress c || viewer_is_operator viewerAddress c.

(** The address [getBondInfoForUser] requests for the node of a request. *)
Definition query_url
    (c : ThorBondAction.t * WhitelistRequestParams.t * Node.t) : string :=
  THORNODE_API_URL ++ "/" ++ Node.address (snd c).

(** The feed holds a request whose node is not in the registry. *)
Definition orphan (nodes : list Node.t) (actions : list ThorBondAction.t)
    : Prop :=
  exists action request,
    action ∈ actions /\ request_of action = Some request /\
    resolve nodes request = None.

(** *** Numbers in memos *)

(** The number [Number] reads back from [`${x}`]: [x] itself, with [+0]
    for [-0]. *)
Definition unsigned_zero (x : number) : number :=
  match x with
  | S754_zero _ => pos_zero
  | _ => x
  end.

(** Decimal digit strings and what they stand for. *)
Definition is_digit (c : ascii) : bool :=
  match digit_of 10 c with Some _ => true | None => false end.

Fixpoint all_digits (s : string) : bool :=
  match s with
  | EmptyString => true
  | String c s' => is_digit c && all_digits s'
  end.

Fixpoint digit_list (s : string) : list Z :=
  match s with
  | EmptyString => []
  | String c s' =>
      match digit_of 10 c with Some d => d | None => 0 end :: digit_list s'
  end.

Definition str_value (s : string) : Z := digits_value 10 (digit_list s).

(** The string is empty or starts with something other than a digit. *)
Definition stops (s : string) : bool :=
  match s with
  | EmptyString => true
  | String c _ => negb (is_digit c)
  end.

(** The characters of a decimal literal. *)
Definition literal_char (c : ascii) : bool :=
  is_digit c || Ascii.eqb c "." || Ascii.eqb c "e"
  || Ascii.eqb c "+" || Ascii.eqb c "-".

Fixpoint all_chars (P : ascii -> bool) (s : string) : bool :=
  match s with
  | EmptyString => true
  | String c s' => P c && all_chars P s'
  end.

Definition no_colon (s : string) : bool :=
  all_chars (fun c => negb (Ascii.eqb c ":")) s.

(** ExponentPart for the exponent [e]. *)
Definition exponent_text (e : Z) : string :=
  "e" ++ (if e <? 0 then "-" else "+") ++ decimal_string (Z.abs e).

(** A decimal literal: integer part, fraction, exponent. *)
Definition literal (ip : string) (fp : option string) (ex : option Z)
    : string :=
  ip ++ match fp with Some f => "." ++ f | None => "" end
     ++ match ex with Some e => exponent_text e | None => "" end.

(** The letters that announce a radix after a leading [0]. *)
Definition radix_letter (c : ascii) : bool :=
  Ascii.eqb c "x" || Ascii.eqb c "X" || Ascii.eqb c "o" || Ascii.eqb c "O"
  || Ascii.eqb c "b" || Ascii.eqb c "B".

(** [p / q] is the value [m * 2^e]. *)
Definition ratio_is (p q : Z) (m : positive) (e : Z) : Prop :=
  if 0 <=? e then p = q * (Zpos m * 2 ^ e) else p * 2 ^ (- e) = q * Zpos m.

(** [M * 10^E] is the value [m * 2^e]. *)
Definition same_value (M E : Z) (m : positive) (e : Z) : Prop :=
  M * 10 ^ Z.max E 0 * 2 ^ Z.max (- e) 0
  = Zpos m * 2 ^ Z.max e 0 * 10 ^ Z.max (- E) 0.

(** *** Feeds, engines and worlds of the examples *)

(** A listing memo out of every range: negative [minBond], [maxBond] below
    it, a fee of 200. *)
Definition out_of_range_memo : string := "TB:thor1node:thor1op:-5:-7:200".

(** Two listings of the same node, by two operators. *)
Definition first_listing : ThorBondAction.t :=
  send_action "TB:thor1node:thor1op:100:10000:5" "1700000000000000000".
Definition second_listing : ThorBondAction.t :=
  send_action "TB:thor1node:thor1other:7:70:1" "1600000000000000000".

Definition out_of_range_engine : ThorBondEngine :=
  {| actions := [send_action out_of_range_memo "1700000000000000000"];
     isInitialized := true |}.

Definition relisted_engine : ThorBondEngine :=
  {| actions := [first_listing; second_listing]; isInitialized := true |}.

(** A listing of [thor1node], a request for it and a request for a node
    nobody listed. *)
Definition known_request : ThorBondAction.t :=
  send_action "TB:thor1node:thor1user:500" "1700000000000000002".
Definition orphan_request : ThorBondAction.t :=
  send_action "TB:thor1ghost:thor1user:500" "1700000000000000003".

Definition orphan_engine : ThorBondEngine :=
  {| actions := [first_listing; known_request; orphan_request];
     isInitialized := true |}.

(** A world whose services answer nothing. *)
Definition silent : Scripted :=
  {| actions_responses := []; node_responses := [] |}.

(** Requests the loop passes over: a node address without the [thor1]
    prefix, an amount that is not a number. *)
Definition unprefixed_request : ThorBondAction.t :=
  send_action "TB:node:thor1user:500" "1700000000000000004".
Definition nan_request : ThorBondAction.t :=
  send_action "TB:thor1node:thor1user:lots" "1700000000000000005".

(** A world whose services give the same answers to every request. *)
Record Steady : Type := {
  steady_actions : ActionsResponse.t;
  steady_node : NodeResponse.t }.

#[export] Instance Steady_Network : Network Steady := {
  get_actions _ _ w := (Ok (steady_actions w), w);
  get_node _ w := (Ok (steady_node w), w) }.

(** The node-state service lists [thor1user] with a bond of 0. *)
Definition whitelisted : NodeResponse.t :=
  {| NodeResponse.data :=
       Some {| NodeResponse.bond_providers :=
                 Some {| NodeResponse.providers :=
                           Some [ {| BondProvider.bond_address := "thor1op";
                                     BondProvider.bond := "250000" |};
                                  {| BondProvider.bond_address := "thor1user";
                                     BondProvider.bond := "0" |} ] |} |} |}.

(** The feed of the scenario of the specification: a listing and a request
    for it. *)
Definition scenario_feed : ActionsResponse.t :=
  {| ActionsResponse.data :=
       {| ActionsResponse.actions :=
            Some [ midgard_send "TB:thor1node:thor1op:100:10000:5"
                     "1700000000000000000";
                   midgard_send "TB:thor1node:thor1user:500"
                     "1700000000000000002" ] |} |}.

Definition scenario_world : Steady :=
  {| steady_actions := scenario_feed; steady_node := whitelisted |}.

Definition scenario_engine : ThorBondEngine :=
  {| actions := [first_listing; known_request]; isInitialized := true |}.

(** Listing parameters the encoder accepts, with a fee of [-0]. *)
Definition negative_zero_fee : ListingParams.t :=
  {| ListingParams.nodeAddress := "thor1node";
     ListingParams.operatorAddress := "thor1op";
     ListingParams.minRune := of_Z 100;
     ListingParams.maxRune := of_Z 10000;
     ListingParams.feePercentage := neg_zero |}.

Definition usual_listing : ListingParams.t :=
  {| ListingParams.nodeAddress := "thor1node";
     ListingParams.operatorAddress := "thor1op";
     ListingParams.minRune := Number "0.1";
     ListingParams.maxRune := Number "1e21";
     ListingParams.feePercentage := Number "2.5" |}.

Definition usual_request : WhitelistRequestParams.t :=
  {| WhitelistRequestParams.nodeAddress := "thor1node";
     WhitelistRequestParams.userAddress := "thor1user";
     WhitelistRequestParams.amount := Number "123456.789" |}.
(** *** Words of the further properties *)

(** Whether an action carries a listing. *)
Definition carries_listing (action : ThorBondAction.t) : bool :=
  match listing_of action with Some _ => true | None => false end.

(** [action] is the first of the feed to list the address of
    [listingMemo]. *)
Definition first_to_list (actions : list ThorBondAction.t)
    (action : ThorBondAction.t) (listingMemo : ListingMemo.t) : Prop :=
  exists before after,
    actions = (before ++ action :: after)%list /\
    listing_of action = Some listingMemo /\
    forall b listingMemo',
      b ∈ before -> listing_of b = Some listingMemo' ->
      ListingMemo.nodeAddress listingMemo'
      <> ListingMemo.nodeAddress listingMemo.

(** The query [initialize] sends to the indexer. *)
Definition feed_query : ActionsQuery.t :=
  {| ActionsQuery.address := THORBOND_ADDRESS;
     ActionsQuery.limit := 50;
     ActionsQuery.offset := 0;
     ActionsQuery.type_ := "send" |}.

(** A world that also keeps the addresses requested of it, in order. *)
Record Logged (World : Type) : Type := {
  inner : World;
  requested : list string }.

Arguments inner {World} _.
Arguments requested {World} _.

#[export] Instance Logged_Network {World : Type} `{Network World}
    : Network (Logged World) := {
  get_actions url query w :=
    let '(r, w') := get_actions url query (inner w) in
    (r, {| inner := w'; requested := (requested w ++ [url])%list |});
  get_node url w :=
    let '(r, w') := get_node url (inner w) in
    (r, {| inner := w'; requested := (requested w ++ [url])%list |}) }.

(** A world that answers the feed of the scenario once, and after that
    nothing. *)
Definition one_feed : Scripted :=
  {| actions_responses := [Ok scenario_feed]; node_responses := [] |}.

(** The listing and the request of the scenario, as the encoders take
    them. *)
Definition scenario_listing : ListingParams.t :=
  {| ListingParams.nodeAddress := "thor1node";
     ListingParams.operatorAddress := "thor1op";
     ListingParams.minRune := of_Z 100;
     ListingParams.maxRune := of_Z 10000;
     ListingParams.feePercentage := of_Z 5 |}.

Definition scenario_request : WhitelistRequestParams.t :=
  {| WhitelistRequestParams.nodeAddress := "thor1node";
     WhitelistRequestParams.userAddress := "thor1user";
     WhitelistRequestParams.amount := of_Z 500 |}.

(** The world of the scenario, keeping the addresses requested of it. *)
Definition logged_scenario : Logged Steady :=
  {| inner := scenario_world; requested := [] |}.

(** ** Part IV. Decoding, the registry and reconciliation *)

(** *** Splitting a memo *)

Lemma split_head_prefix sep s field fields :
  split sep s = field :: fields -> String.prefix field s = true.
Proof.
  revert field fields. induction s as [|c s IH]; simpl; intros field fields E.
  - injection E as <- _. reflexivity.
  - destruct (Ascii.eqb c sep).
    + injection E as <- _. reflexivity.
    + destruct (split sep s) as [|f fs] eqn:Es.
      * injection E as <- _. simpl.
        destruct (ascii_dec c c); [|congruence]. now destruct s.
      * injection E as <- _. simpl.
        destruct (ascii_dec c c); [|congruence]. eapply IH; reflexivity.
Qed.

Lemma tag_starts_memo memo fields :
  split ":" memo = "TB" :: fields -> startsWith memo "TB" = true.
Proof. intros E. unfold startsWith. eapply split_head_prefix, E. Qed.

(** What [parseListingMemo] looks at: six fields, the first one [TB]. *)
Lemma parseListingMemo_Some memo listingMemo :
  parseListingMemo memo = Some listingMemo <->
  exists p1 p2 p3 p4 p5,
    split ":" memo = ["TB"; p1; p2; p3; p4; p5] /\
    listingMemo = {| ListingMemo.nodeAddress := p1;
                     ListingMemo.operatorAddress := p2;
                     ListingMemo.minRune := Number p3;
                     ListingMemo.maxRune := Number p4;
                     ListingMemo.feePercentage := Number p5 |}.
Proof.
  unfold parseListingMemo. split.
  - destruct (split ":" memo) as [|tag [|p1 [|p2 [|p3 [|p4 [|p5 [|? ?]]]]]]];
      try discriminate.
    destruct (String.eqb tag "TB") eqn:Et; simpl; [|discriminate].
    apply String.eqb_eq in Et. subst tag. intros [= <-].
    now exists p1, p2, p3, p4, p5.
  - intros (p1 & p2 & p3 & p4 & p5 & -> & ->). reflexivity.
Qed.

Lemma parseListingMemo_None memo :
  parseListingMemo memo = None <->
  length (split ":" memo) <> 6%nat \/ hd "" (split ":" memo) <> "TB".
Proof.
  unfold parseListingMemo.
  destruct (split ":" memo) as [|tag [|p1 [|p2 [|p3 [|p4 [|p5 [|? ?]]]]]]];
    simpl; try (split; [intros _; left; lia | reflexivity]).
  destruct (String.eqb tag "TB") eqn:Et; simpl.
  - apply String.eqb_eq in Et. split; [discriminate|]. intros [?|?]; congruence.
  - apply String.eqb_neq in Et. split; [now right | reflexivity].
Qed.

Lemma parseWhitelistMemo_Some memo request :
  parseWhitelistMemo memo = Some request <->
  exists nodeAddress userAddress amountStr,
    split ":" memo = ["TB"; nodeAddress; userAddress; amountStr] /\
    startsWith nodeAddress "thor1" = true /\
    startsWith userAddress "thor1" = true /\
    isNaN (Number amountStr) = false /\
    le (Number amountStr) pos_zero = false /\
    request = {| WhitelistRequestParams.nodeAddress := nodeAddress;
                 WhitelistRequestParams.userAddress := userAddress;
                 WhitelistRequestParams.amount := Number amountStr |}.
Proof.
  unfold parseWhitelistMemo. split.
  - destruct (split ":" memo) as [|tag [|p1 [|p2 [|p3 [|? ?]]]]];
      try discriminate.
    destruct (String.eqb tag "TB") eqn:Et; simpl; [|discriminate].
    apply String.eqb_eq in Et. subst tag.
    destruct (startsWith p1 "thor1") eqn:E1; simpl; [|discriminate].
    destruct (startsWith p2 "thor1") eqn:E2; simpl; [|discriminate].
    destruct (isNaN (Number p3)) eqn:En; simpl; [discriminate|].
    destruct (le (Number p3) pos_zero) eqn:El; [discriminate|].
    intros [= <-]. exists p1, p2, p3. repeat split; assumption || reflexivity.
  - intros (p1 & p2 & p3 & -> & H1 & H2 & Hn & Hl & ->).
    simpl. rewrite H1, H2. simpl. rewrite Hn, Hl. reflexivity.
Qed.

(** *** The registry *)

Lemma getNodes_step_cases state action :
  (getNodes_step state action = state /\
   (listing_of action = None \/
    exists listingMemo, listing_of action = Some listingMemo /\
      ListingMemo.nodeAddress listingMemo ∈ snd state)) \/
  exists listingMemo,
    listing_of action = Some listingMemo /\
    (ListingMemo.nodeAddress listingMemo ∉ snd state) /\
    getNodes_step state action =
      ((fst state ++ [node_of_listing listingMemo action])%list,
       {[ ListingMemo.nodeAddress listingMemo ]} ∪ snd state).
Proof.
  destruct state as [nodes processed]. unfold getNodes_step, listing_of.
  destruct (truthy (memo_of action)) as [memo|]; [|left; auto].
  destruct (parseListingMemo memo) as [listingMemo|]; [|left; auto].
  destruct (decide (ListingMemo.nodeAddress listingMemo ∈ processed)).
  - left. split; [reflexivity|]. right. eauto.
  - right. exists listingMemo. auto.
Qed.

Lemma getNodes_step_inv state action :
  registry_inv state -> registry_inv (getNodes_step state action).
Proof.
  intros [Hnd Hset].
  destruct (getNodes_step_cases state action)
    as [[-> _]|(lm & _ & Hfresh & ->)]; [now split|].
  split; simpl.
  - rewrite map_app. simpl. apply NoDup_app. split; [assumption|]. split.
    + intros x Hx Hx'. apply list_elem_of_singleton in Hx'. subst x.
      apply Hfresh, Hset, Hx.
    + apply NoDup_singleton.
  - intros x. rewrite map_app, elem_of_app, elem_of_union, elem_of_singleton.
    simpl. rewrite list_elem_of_singleton, Hset. tauto.
Qed.

Lemma getNodes_fold_inv actions state :
  registry_inv state -> registry_inv (fold_left getNodes_step actions state).
Proof.
  revert state. induction actions as [|a l IH]; simpl; intros state Hinv.
  - assumption.
  - apply IH, getNodes_step_inv, Hinv.
Qed.

Lemma registry_inv_init : registry_inv ([], ∅).
Proof.
  split; simpl; [constructor|]. intros x. split; intros Hx.
  - now apply not_elem_of_empty in Hx.
  - now apply elem_of_nil in Hx.
Qed.

(** Nodes and addresses are only ever added. *)
Lemma getNodes_step_mono state action :
  (forall n, n ∈ fst state -> n ∈ fst (getNodes_step state action)) /\
  (forall x, x ∈ snd state -> x ∈ snd (getNodes_step state action)).
Proof.
  destruct (getNodes_step_cases state action)
    as [[-> _]|(lm & _ & _ & ->)]; [now split|].
  simpl. split.
  - intros n Hn. apply elem_of_app. now left.
  - intros x Hx. apply elem_of_union. now right.
Qed.

Lemma getNodes_fold_mono actions state :
  (forall n, n ∈ fst state ->
     n ∈ fst (fold_left getNodes_step actions state)) /\
  (forall x, x ∈ snd state ->
     x ∈ snd (fold_left getNodes_step actions state)).
Proof.
  revert state. induction actions as [|a l IH]; simpl; intros state.
  - now split.
  - destruct (IH (getNodes_step state a)) as [IH1 IH2].
    destruct (getNodes_step_mono state a) as [M1 M2]. split; auto.
Qed.

(** Actions that list other addresses leave [x] unseen. *)
Lemma getNodes_fold_unseen actions state x :
  (forall b listingMemo, b ∈ actions -> listing_of b = Some listingMemo ->
     ListingMemo.nodeAddress listingMemo <> x) ->
  x ∉ snd state -> x ∉ snd (fold_left getNodes_step actions state).
Proof.
  revert state. induction actions as [|a l IH]; simpl; intros state Hother Hx.
  - assumption.
  - apply IH.
    + intros b lm Hb. apply Hother. now apply elem_of_cons; right.
    + destruct (getNodes_step_cases state a)
        as [[-> _]|(lm & Hlm & _ & ->)]; [assumption|].
      simpl. rewrite elem_of_union, elem_of_singleton. intros [->|?]; [|tauto].
      eapply Hother; [|exact Hlm|reflexivity]. apply elem_of_cons. now left.
Qed.

Lemma getNodes_step_seen state action listingMemo :
  listing_of action = Some listingMemo ->
  ListingMemo.nodeAddress listingMemo ∈ snd (getNodes_step state action).
Proof.
  intros Hlm.
  destruct (getNodes_step_cases state action)
    as [[-> [Hn|(lm & Hlm' & Hin)]]|(lm & Hlm' & _ & ->)].
  - congruence.
  - congruence.
  - simpl. apply elem_of_union. left. apply elem_of_singleton. congruence.
Qed.

Lemma getNodes_Ok this nodes :
  getNodes this = Ok nodes <->
  isInitialized this = true /\
  nodes = fst (fold_left getNodes_step (actions this) ([], ∅)).
Proof.
  unfold getNodes. destruct (isInitialized this); simpl.
  - split; [intros [= <-]; auto | intros [_ ->]; reflexivity].
  - split; [discriminate | intros [? _]; discriminate].
Qed.

Lemma NoDup_map_inj {A B} (f : A -> B) (l : list A) x y :
  NoDup (map f l) -> x ∈ l -> y ∈ l -> f x = f y -> x = y.
Proof.
  induction l as [|a l IH]; simpl; intros Hnd Hx Hy Hf.
  - now apply elem_of_nil in Hx.
  - apply NoDup_cons in Hnd as [Ha Hnd].
    apply elem_of_cons in Hx as [->|Hx]; apply elem_of_cons in Hy as [->|Hy].
    + reflexivity.
    + exfalso. apply Ha. rewrite Hf. apply list_elem_of_fmap. eauto.
    + exfalso. apply Ha. rewrite <- Hf. apply list_elem_of_fmap. eauto.
    + auto.
Qed.

(** The first listing of an address is the one in the registry. *)
Lemma getNodes_first_listing this nodes before action after listingMemo :
  getNodes this = Ok nodes ->
  actions this = (before ++ action :: after)%list ->
  listing_of action = Some listingMemo ->
  (forall b listingMemo', b ∈ before -> listing_of b = Some listingMemo' ->
     ListingMemo.nodeAddress listingMemo' <>
     ListingMemo.nodeAddress listingMemo) ->
  node_of_listing listingMemo action ∈ nodes.
Proof.
  intros Hget Hacts Hlm Hfirst. apply getNodes_Ok in Hget as [_ ->].
  rewrite Hacts, fold_left_app. simpl.
  apply getNodes_fold_mono.
  pose proof (getNodes_fold_unseen before ([], ∅) _ Hfirst) as Hunseen.
  destruct (getNodes_step_cases (fold_left getNodes_step before ([], ∅))
              action)
    as [[_ [Hn|(lm & Hlm' & Hin)]]|(lm & Hlm' & _ & ->)].
  - congruence.
  - exfalso. apply Hunseen; [apply not_elem_of_empty|]. congruence.
  - simpl. apply elem_of_app. right. apply list_elem_of_singleton. congruence.
Qed.

(** Every listing in the feed has a node in the registry. *)
Lemma getNodes_listed this nodes action listingMemo :
  getNodes this = Ok nodes ->
  action ∈ actions this ->
  listing_of action = Some listingMemo ->
  ListingMemo.nodeAddress listingMemo ∈ map Node.address nodes.
Proof.
  intros Hget Hin Hlm. apply getNodes_Ok in Hget as [_ ->].
  apply list_elem_of_split in Hin as (before & after & ->).
  apply (getNodes_fold_inv _ _ registry_inv_init).
  rewrite fold_left_app. simpl. apply getNodes_fold_mono.
  now apply getNodes_step_seen.
Qed.

(** *** Claims on decoding and on the registry *)

(** C1, as stated, fails: a memo with a negative [minBond], a [maxBond]
    below [minBond] and a fee above 100 decodes to a ListingMemo, and
    [getNodes] makes a Node of it. *)
Lemma C1_out_of_range_memo_decodes :
  exists listingMemo,
    parseListingMemo out_of_range_memo = Some listingMemo /\
    in_ranges listingMemo = false /\
    lt (ListingMemo.minRune listingMemo) pos_zero = true /\
    le (ListingMemo.maxRune listingMemo) (ListingMemo.minRune listingMemo)
      = true /\
    gt (ListingMemo.feePercentage listingMemo) (of_Z 100) = true /\
    getNodes out_of_range_engine
    = Ok [node_of_listing listingMemo
            (send_action out_of_range_memo "1700000000000000000")].
Proof.
  eexists. split; [vm_compute; reflexivity|].
  repeat split; vm_compute; reflexivity.
Qed.

(** C1, amended: [parseListingMemo] returns absent exactly when the memo
    has not six fields or its first field is not [TB]; the numeric fields
    are whatever [Number] makes of them, in range or not, and [getNodes]
    has a Node for the node address of every memo that decodes. *)
Theorem C1_listing_decode_checks_shape_only (memo : string) :
  (parseListingMemo memo = None <->
   length (split ":" memo) <> 6%nat \/ hd "" (split ":" memo) <> "TB") /\
  (forall listingMemo this action,
     parseListingMemo memo = Some listingMemo ->
     isInitialized this = true ->
     action ∈ actions this ->
     truthy (memo_of action) = Some memo ->
     exists nodes node,
       getNodes this = Ok nodes /\ node ∈ nodes /\
       Node.address node = ListingMemo.nodeAddress listingMemo).
Proof.
  split; [apply parseListingMemo_None|].
  intros lm this action Hlm Hinit Hin Hmemo.
  destruct (getNodes this) as [nodes|e] eqn:Hget.
  - assert (Hl : listing_of action = Some lm)
      by (unfold listing_of; now rewrite Hmemo).
    pose proof (getNodes_listed _ _ _ _ Hget Hin Hl) as Hx.
    apply list_elem_of_fmap in Hx as (node & Hn & Hnode).
    exists nodes, node. auto.
  - unfold getNodes in Hget. rewrite Hinit in Hget. discriminate.
Qed.

Lemma C1_listing_decode_checks_shape_only_witness :
  exists nodes node,
    getNodes out_of_range_engine = Ok nodes /\
    node ∈ nodes /\ Node.address node = "thor1node".
Proof.
  destruct (parseListingMemo out_of_range_memo) as [lm|] eqn:Hlm;
    [|discriminate].
  destruct (proj2 (C1_listing_decode_checks_shape_only out_of_range_memo)
              lm out_of_range_engine
              (send_action out_of_range_memo "1700000000000000000")
              Hlm eq_refl) as (nodes & node & Hget & Hin & Haddr).
  - apply list_elem_of_singleton. reflexivity.
  - reflexivity.
  - exists nodes, node. repeat split; try assumption.
    rewrite Haddr. vm_compute in Hlm. now injection Hlm as <-.
Defined.

(** C2: the registry of [getNodes] has no two Nodes with the same address,
    and the Node of an address is the one of the first action in the feed
    that lists it: operator, bonds, fee and date are those of that action;
    a later listing of the address changes nothing. *)
Theorem C2_one_node_per_address_first_wins (this : ThorBondEngine)
    (nodes : list Node.t) :
  getNodes this = Ok nodes ->
  NoDup (map Node.address nodes) /\
  forall before action after listingMemo,
    actions this = (before ++ action :: after)%list ->
    listing_of action = Some listingMemo ->
    (forall b listingMemo', b ∈ before -> listing_of b = Some listingMemo' ->
       ListingMemo.nodeAddress listingMemo' <>
       ListingMemo.nodeAddress listingMemo) ->
    node_of_listing listingMemo action ∈ nodes /\
    forall node, node ∈ nodes ->
      Node.address node = ListingMemo.nodeAddress listingMemo ->
      node = node_of_listing listingMemo action.
Proof.
  intros Hget.
  assert (Hnd : NoDup (map Node.address nodes)).
  { pose proof Hget as Hget'. apply getNodes_Ok in Hget' as [_ ->].
    apply (getNodes_fold_inv _ _ registry_inv_init). }
  split; [exact Hnd|].
  intros before action after lm Hacts Hlm Hfirst.
  pose proof (getNodes_first_listing _ _ _ _ _ _ Hget Hacts Hlm Hfirst) as Hin.
  split; [exact Hin|].
  intros node Hnode Haddr.
  eapply NoDup_map_inj; eauto.
Qed.

Lemma C2_one_node_per_address_first_wins_witness :
  exists nodes listingMemo,
    getNodes relisted_engine = Ok nodes /\
    listing_of first_listing = Some listingMemo /\
    NoDup (map Node.address nodes) /\
    node_of_listing listingMemo first_listing ∈ nodes /\
    forall node, node ∈ nodes -> Node.address node = "thor1node" ->
      Node.operator node = "thor1op".
Proof.
  destruct (getNodes relisted_engine) as [nodes|] eqn:Hget; [|discriminate].
  destruct (listing_of first_listing) as [lm|] eqn:Hlm; [|discriminate].
  exists nodes, lm.
  destruct (C2_one_node_per_address_first_wins relisted_engine nodes Hget)
    as [Hnd Hfirst].
  destruct (Hfirst [] first_listing [second_listing] lm eq_refl Hlm)
    as [Hin Huniq].
  - intros b lm' Hb. now apply elem_of_nil in Hb.
  - repeat split; try assumption.
    intros node Hnode Haddr. rewrite (Huniq node Hnode).
    + vm_compute in Hlm. now injection Hlm as <-.
    + rewrite Haddr. vm_compute in Hlm. now injection Hlm as <-.
Defined.

(** C8: a memo that does not start with [TB], or that has not six fields,
    decodes to no listing; one that does not start with [TB], or that has
    not four fields, decodes to no whitelist request, and the loop of
    [getWhitelistRequests] goes on to the next action. Neither decoder has
    a way to throw. *)
Theorem C8_malformed_memo_is_absent (memo : string) :
  (startsWith memo "TB" = false \/ length (split ":" memo) <> 6%nat ->
   parseListingMemo memo = None) /\
  (startsWith memo "TB" = false \/ length (split ":" memo) <> 4%nat ->
   parseWhitelistMemo memo = None /\
   forall (World : Type) (network : Network World) this connectedAddress
          action requests (w : World),
     truthy (memo_of action) = Some memo ->
     getWhitelistRequests_body this connectedAddress action requests w
     = (Ok requests, w)).
Proof.
  split.
  - intros H. destruct (parseListingMemo memo) as [lm|] eqn:E; [|reflexivity].
    apply parseListingMemo_Some in E as (p1 & p2 & p3 & p4 & p5 & Es & _).
    destruct H as [H|H].
    + apply tag_starts_memo in Es. congruence.
    + rewrite Es in H. now contradiction H.
  - intros H.
    assert (E : parseWhitelistMemo memo = None).
    { destruct (parseWhitelistMemo memo) as [rq|] eqn:E; [|reflexivity].
      apply parseWhitelistMemo_Some in E as (p1 & p2 & p3 & Es & _).
      destruct H as [H|H].
      + apply tag_starts_memo in Es. congruence.
      + rewrite Es in H. now contradiction H. }
    split; [exact E|].
    intros World network this c action requests w Hmemo.
    unfold getWhitelistRequests_body. now rewrite Hmemo, E.
Qed.

Lemma C8_malformed_memo_is_absent_witness :
  parseListingMemo "SWAP:BTC.BTC:thor1abc" = None /\
  parseWhitelistMemo "TB:thor1node:thor1user" = None.
Proof.
  split.
  - apply (proj1 (C8_malformed_memo_is_absent "SWAP:BTC.BTC:thor1abc")).
    left. reflexivity.
  - apply (proj2 (C8_malformed_memo_is_absent "TB:thor1node:thor1user")).
    right. simpl. lia.
Defined.

(** *** The reconciliation loop *)

Lemma positive_amount (x : number) :
  gt x pos_zero = true <-> isNaN x = false /\ le x pos_zero = false.
Proof.
  destruct x as [s|s| |s m e]; try destruct s; cbn; intuition congruence.
Qed.

Lemma find_eqb_address nodes request node :
  resolve nodes request = Some node ->
  Node.address node = WhitelistRequestParams.nodeAddress request.
Proof.
  unfold resolve. intros Hf. apply find_some in Hf as [_ Hf].
  now apply String.eqb_eq in Hf.
Qed.

(** The candidates and the orphans of a feed, action by action. *)
Lemma candidates_cons nodes a l :
  candidates nodes (a :: l) =
  match request_of a with
  | Some request =>
      match resolve nodes request with
      | Some node => (a, request, node) :: candidates nodes l
      | None => candidates nodes l
      end
  | None => candidates nodes l
  end.
Proof.
  unfold candidates. simpl.
  destruct (request_of a) as [request|]; [|reflexivity].
  now destruct (resolve nodes request).
Qed.

Lemma candidates_elem nodes actions c :
  c ∈ candidates nodes actions <->
  fst (fst c) ∈ actions /\
  request_of (fst (fst c)) = Some (snd (fst c)) /\
  resolve nodes (snd (fst c)) = Some (snd c).
Proof.
  unfold candidates. rewrite list_elem_of_omap. split.
  - intros (a & Ha & Hc).
    destruct (request_of a) as [request|] eqn:Hrq; [|discriminate].
    destruct (resolve nodes request) as [node|] eqn:Hres; [|discriminate].
    injection Hc as <-. auto.
  - destruct c as [[a request] node]. simpl. intros (Ha & Hrq & Hres).
    exists a. split; [assumption|]. now rewrite Hrq, Hres.
Qed.

Lemma candidates_later nodes a l c :
  c ∈ candidates nodes l -> c ∈ candidates nodes (a :: l).
Proof.
  rewrite !candidates_elem. intros (Ha & Hrq & Hres).
  split; [apply elem_of_cons; now right|auto].
Qed.

Lemma orphan_later nodes a l : orphan nodes l -> orphan nodes (a :: l).
Proof.
  intros (action & request & Ha & Hrq & Hres). exists action, request.
  split; [apply elem_of_cons; now right|auto].
Qed.

Lemma orphan_cons nodes a l :
  orphan nodes (a :: l) <->
  (exists request, request_of a = Some request /\
                   resolve nodes request = None) \/
  orphan nodes l.
Proof.
  split.
  - intros (action & request & Ha & Hrq & Hres).
    apply elem_of_cons in Ha as [->|Ha]; [left; eauto|].
    right. exists action, request. auto.
  - intros [(request & Hrq & Hres)|Ho]; [|now apply orphan_later].
    exists a, request. split; [apply elem_of_cons; now left|auto].
Qed.

(** A feed with an orphan splits at the first one. *)
Lemma first_orphan nodes actions :
  orphan nodes actions ->
  exists before first after request,
    actions = (before ++ first :: after)%list /\
    request_of first = Some request /\
    resolve nodes request = None /\
    ~ orphan nodes before.
Proof.
  induction actions as [|a l IH]; intros Ho.
  - destruct Ho as (action & _ & Ha & _). now apply elem_of_nil in Ha.
  - assert (Hnil : ~ orphan nodes []).
    { intros (action & _ & Ha & _). now apply elem_of_nil in Ha. }
    destruct (request_of a) as [request|] eqn:Hrq.
    + destruct (resolve nodes request) as [node|] eqn:Hres.
      * apply orphan_cons in Ho as [(request' & Hrq' & Hres')|Ho];
          [congruence|].
        destruct (IH Ho) as (before & first & after & rq & -> & Hf & Hr & Hb).
        exists (a :: before), first, after, rq.
        split; [reflexivity|]. split; [assumption|]. split; [assumption|].
        rewrite orphan_cons. intros [(request' & Hrq' & Hres')|Hb'];
          [congruence|contradiction].
      * exists [], a, l, request. auto.
    + apply orphan_cons in Ho as [(request' & Hrq' & _)|Ho]; [congruence|].
      destruct (IH Ho) as (before & first & after & rq & -> & Hf & Hr & Hb).
      exists (a :: before), first, after, rq.
      split; [reflexivity|]. split; [assumption|]. split; [assumption|].
      rewrite orphan_cons. intros [(request' & Hrq' & _)|Hb'];
        [congruence|contradiction].
Qed.

Section Reconciliation.
Context {World : Type} `{Network World}.

Lemma getBondInfoForUser_cases nodeAddress userAddress (w : World) :
  startsWith nodeAddress "thor1" = true ->
  startsWith userAddress "thor1" = true ->
  (exists e w', get_node (THORNODE_API_URL ++ "/" ++ nodeAddress) w
                = (Throw e, w') /\
     getBondInfoForUser nodeAddress userAddress w
     = (Throw bond_info_failed, w')) \/
  (exists response w',
     get_node (THORNODE_API_URL ++ "/" ++ nodeAddress) w = (Ok response, w') /\
     getBondInfoForUser nodeAddress userAddress w =
       (Ok match find (fun bp => String.eqb (BondProvider.bond_address bp)
                                   userAddress) (providers_of response) with
           | Some provider =>
               {| BondInfo.isBondProvider := true;
                  BondInfo.bond := Number (BondProvider.bond provider) |}
           | None =>
               {| BondInfo.isBondProvider := false;
                  BondInfo.bond := pos_zero |}
           end, w')).
Proof.
  intros Hn Hu. unfold getBondInfoForUser. rewrite Hn, Hu. simpl.
  destruct (get_node _ w) as [[response|e] w'].
  - right. exists response, w'. split; [reflexivity|].
    unfold providers_of.
    destruct (NodeResponse.data response) as [[[[[providers|]]|]]|]; simpl;
      try reflexivity.
    now destruct (find _ providers).
  - left. eauto.
Qed.

(** The loop body, case by case. *)
Lemma body_skip this connectedAddress action requests (w : World) :
  request_of action = None ->
  getWhitelistRequests_body this connectedAddress action requests w
  = (Ok requests, w).
Proof.
  unfold request_of, getWhitelistRequests_body.
  destruct (truthy (memo_of action)) as [memo|]; [|reflexivity].
  now intros ->.
Qed.

Lemma body_request this connectedAddress action requests (w : World)
    request nodes :
  request_of action = Some request ->
  getNodes this = Ok nodes ->
  getWhitelistRequests_body this connectedAddress action requests w =
  match resolve nodes request with
  | None => (Throw node_not_found, w)
  | Some node =>
      let userAddress := WhitelistRequestParams.userAddress request in
      if String.eqb userAddress connectedAddress
         || String.eqb (Node.operator node) connectedAddress
      then
        match getBondInfoForUser (Node.address node) userAddress w with
        | (Throw e, w') => (Throw e, w')
        | (Ok bondInfo, w') =>
            let item :=
              {| WhitelistRequest.node := node;
                 WhitelistRequest.walletAddress := userAddress;
                 WhitelistRequest.intendedBondAmount :=
                   WhitelistRequestParams.amount request;
                 WhitelistRequest.status := status_of bondInfo;
                 WhitelistRequest.createdAt := date_of action |} in
            (Ok {| Requests.operator :=
                     if String.eqb (Node.operator node) connectedAddress
                     then (Requests.operator requests ++ [item])%list
                     else Requests.operator requests;
                   Requests.user :=
                     if String.eqb userAddress connectedAddress
                     then (Requests.user requests ++ [item])%list
                     else Requests.user requests |}, w')
        end
      else (Ok requests, w)
  end.
Proof.
  unfold request_of, getWhitelistRequests_body, resolve.
  destruct (truthy (memo_of action)) as [memo|]; [|discriminate].
  intros -> ->. reflexivity.
Qed.

Lemma request_prefixes action request :
  request_of action = Some request ->
  startsWith (WhitelistRequestParams.nodeAddress request) "thor1" = true /\
  startsWith (WhitelistRequestParams.userAddress request) "thor1" = true.
Proof.
  unfold request_of. destruct (truthy (memo_of action)) as [memo|];
    [|discriminate].
  intros Hp. apply parseWhitelistMemo_Some in Hp
    as (n & u & a & _ & Hn & Hu & _ & _ & ->). auto.
Qed.

(** The loop body throws for an unknown node or a failed query only, and a
    failed query means the node-state service rejected a request. *)
Lemma body_throws this connectedAddress action requests (w w' : World) e :
  isInitialized this = true ->
  getWhitelistRequests_body this connectedAddress action requests w
  = (Throw e, w') ->
  e = node_not_found \/
  (e = bond_info_failed /\
   exists url e', get_node url w = (Throw e', w')).
Proof.
  intros Hinit.
  destruct (request_of action) as [request|] eqn:Hrq.
  2:{ rewrite body_skip by assumption. discriminate. }
  destruct (getNodes this) as [nodes|] eqn:Hnodes.
  2:{ unfold getNodes in Hnodes. rewrite Hinit in Hnodes. discriminate. }
  rewrite (body_request _ _ _ _ _ _ _ Hrq Hnodes).
  destruct (resolve nodes request) as [node|] eqn:Hnode.
  2:{ intros [= <- _]. now left. }
  cbv zeta.
  destruct (_ || _); [|discriminate].
  destruct (request_prefixes _ _ Hrq) as [Hn Hu].
  rewrite <- (find_eqb_address _ _ _ Hnode) in Hn.
  destruct (getBondInfoForUser_cases _ _ w Hn Hu)
    as [(e' & w1 & Hget & ->)|(response & w1 & _ & ->)].
  - intros [= <- <-]. right. eauto.
  - discriminate.
Qed.

Lemma for_of_app body l1 l2 requests (w : World) :
  for_of body (l1 ++ l2)%list requests w =
  match for_of body l1 requests w with
  | (Ok requests', w') => for_of body l2 requests' w'
  | (Throw e, w') => (Throw e, w')
  end.
Proof.
  revert requests w. induction l1 as [|a l1 IH]; simpl; intros requests w.
  - reflexivity.
  - destruct (body a requests w) as [[requests'|e] w']; [apply IH|reflexivity].
Qed.

Lemma for_of_throws this connectedAddress actions requests (w w' : World) e :
  isInitialized this = true ->
  for_of (getWhitelistRequests_body this connectedAddress) actions requests w
  = (Throw e, w') ->
  e = node_not_found \/
  (e = bond_info_failed /\
   exists url e' w0 w1, get_node url w0 = (Throw e', w1)).
Proof.
  intros Hinit. revert requests w.
  induction actions as [|a l IH]; simpl; intros requests w; [discriminate|].
  destruct (getWhitelistRequests_body this connectedAddress a requests w)
    as [[requests'|e0] w0] eqn:Hbody.
  - apply IH.
  - intros [= <- <-].
    destruct (body_throws _ _ _ _ _ _ _ Hinit Hbody)
      as [?|[? (url & e' & Hget)]]; [now left|right].
    split; [assumption|]. eauto.
Qed.

(** A request for a node that is not in the registry stops the loop. *)
Lemma for_of_orphan this connectedAddress actions requests (w : World)
    nodes action request :
  isInitialized this = true ->
  getNodes this = Ok nodes ->
  action ∈ actions ->
  request_of action = Some request ->
  resolve nodes request = None ->
  exists e w',
    for_of (getWhitelistRequests_body this connectedAddress) actions
      requests w = (Throw e, w').
Proof.
  intros Hinit Hnodes Hin Hrq Hres. revert requests w.
  induction actions as [|a l IH]; intros requests w.
  - now apply elem_of_nil in Hin.
  - simpl.
    destruct (getWhitelistRequests_body this connectedAddress a requests w)
      as [[requests'|e0] w0] eqn:Hbody; [|eauto].
    apply elem_of_cons in Hin as [<-|Hin]; [|now apply IH].
    rewrite (body_request _ _ _ _ _ _ _ Hrq Hnodes), Hres in Hbody.
    discriminate.
Qed.

(** Why the loop throws: at a request whose node is not in the registry,
    or at a query the node-state service rejected, made for a request the
    viewer is the user or the operator of. *)
Lemma for_of_throws_why this connectedAddress nodes actions requests
    (w w' : World) e :
  getNodes this = Ok nodes ->
  for_of (getWhitelistRequests_body this connectedAddress) actions requests w
  = (Throw e, w') ->
  (e = node_not_found /\ orphan nodes actions) \/
  (e = bond_info_failed /\
   exists c w0 e',
     c ∈ candidates nodes actions /\
     viewer_sees connectedAddress c = true /\
     get_node (query_url c) w0 = (Throw e', w')).
Proof.
  intros Hnodes. revert requests w.
  assert (Hlater : forall a l,
    (e = node_not_found /\ orphan nodes l) \/
    (e = bond_info_failed /\
     exists c w0 e',
       c ∈ candidates nodes l /\
       viewer_sees connectedAddress c = true /\
       get_node (query_url c) w0 = (Throw e', w')) ->
    (e = node_not_found /\ orphan nodes (a :: l)) \/
    (e = bond_info_failed /\
     exists c w0 e',
       c ∈ candidates nodes (a :: l) /\
       viewer_sees connectedAddress c = true /\
       get_node (query_url c) w0 = (Throw e', w'))).
  { intros a l [[He Ho]|[He (c & w0 & e' & Hc & Hv & Hg)]].
    - left. split; [assumption|now apply orphan_later].
    - right. split; [assumption|]. exists c, w0, e'.
      split; [now apply candidates_later|auto]. }
  induction actions as [|a l IH]; cbn [for_of]; intros requests w;
    [discriminate|].
  destruct (request_of a) as [request|] eqn:Hrq.
  2:{ rewrite body_skip by assumption. intros Hfor. eapply Hlater, IH, Hfor. }
  rewrite (body_request _ _ _ _ _ _ _ Hrq Hnodes).
  destruct (resolve nodes request) as [node|] eqn:Hres.
  2:{ intros [= <- _]. left. split; [reflexivity|].
      exists a, request. split; [apply elem_of_cons; now left|auto]. }
  cbv zeta.
  destruct (_ || _) eqn:Hview.
  2:{ intros Hfor. eapply Hlater, IH, Hfor. }
  destruct (request_prefixes _ _ Hrq) as [Hn Hu].
  rewrite <- (find_eqb_address _ _ _ Hres) in Hn.
  destruct (getBondInfoForUser_cases _ _ w Hn Hu)
    as [(e' & w1 & Hget & ->)|(response & w1 & _ & ->)].
  - intros [= <- <-]. right. split; [reflexivity|].
    exists (a, request, node), w, e'. split; [|split].
    + apply candidates_elem. simpl.
      split; [apply elem_of_cons; now left|auto].
    + exact Hview.
    + exact Hget.
  - intros Hfor. eapply Hlater, IH, Hfor.
Qed.

End Reconciliation.

(** *** Claims on reconciliation *)

Section ReconciliationClaims.
Context {World : Type} `{Network World}.

Lemma for_of_outputs this connectedAddress nodes actions requests (w w' : World)
    result :
  getNodes this = Ok nodes ->
  for_of (getWhitelistRequests_body this connectedAddress) actions requests w
  = (Ok result, w') ->
  map unlabelled (Requests.user result) =
    (map unlabelled (Requests.user requests) ++
     map entry_of (List.filter (viewer_is_user connectedAddress)
                     (candidates nodes actions)))%list /\
  map unlabelled (Requests.operator result) =
    (map unlabelled (Requests.operator requests) ++
     map entry_of (List.filter (viewer_is_operator connectedAddress)
                     (candidates nodes actions)))%list.
Proof.
  intros Hnodes. revert requests w.
  induction actions as [|a l IH]; simpl; intros requests w.
  - intros [= <- _]. now rewrite !app_nil_r.
  - destruct (request_of a) as [request|] eqn:Hrq.
    2:{ rewrite body_skip by assumption. apply IH. }
    rewrite (body_request _ _ _ _ _ _ _ Hrq Hnodes).
    destruct (resolve nodes request) as [node|] eqn:Hnode; [|discriminate].
    cbv zeta. simpl.
    unfold viewer_is_user at 1, viewer_is_operator at 1. simpl.
    destruct (String.eqb (WhitelistRequestParams.userAddress request)
                connectedAddress) eqn:Eu;
      destruct (String.eqb (Node.operator node) connectedAddress) eqn:Eo;
      simpl.
    4:{ apply IH. }
    all: destruct (getBondInfoForUser _ _ w) as [[bondInfo|e] w1];
      [|discriminate].
    all: intros Hfor; apply IH in Hfor as [-> ->]; simpl.
    all: rewrite ?map_app, <- ?app_assoc; simpl; split; reflexivity.
Qed.

Lemma for_of_members this connectedAddress (P : WhitelistRequest.t -> Prop)
    actions requests (w w' : World) result :
  (forall action request node bondInfo (w0 w1 : World),
     request_of action = Some request ->
     (String.eqb (WhitelistRequestParams.userAddress request) connectedAddress
      || String.eqb (Node.operator node) connectedAddress = true) ->
     getBondInfoForUser (Node.address node)
       (WhitelistRequestParams.userAddress request) w0 = (Ok bondInfo, w1) ->
     P {| WhitelistRequest.node := node;
          WhitelistRequest.walletAddress :=
            WhitelistRequestParams.userAddress request;
          WhitelistRequest.intendedBondAmount :=
            WhitelistRequestParams.amount request;
          WhitelistRequest.status := status_of bondInfo;
          WhitelistRequest.createdAt := date_of action |}) ->
  (forall r, r ∈ Requests.user requests \/ r ∈ Requests.operator requests ->
     P r) ->
  for_of (getWhitelistRequests_body this connectedAddress) actions requests w
  = (Ok result, w') ->
  forall r, r ∈ Requests.user result \/ r ∈ Requests.operator result -> P r.
Proof.
  intros Hnew. revert requests w.
  induction actions as [|a l IH]; simpl; intros requests w Hold.
  - now intros [= <- _].
  - destruct (getWhitelistRequests_body this connectedAddress a requests w)
      as [[requests'|e] w0] eqn:Hbody; [|discriminate].
    apply IH. clear IH.
    destruct (request_of a) as [request|] eqn:Hrq.
    2:{ rewrite body_skip in Hbody by assumption. now injection Hbody as <- _. }
    destruct (getNodes this) as [nodes|e] eqn:Hnodes.
    2:{ unfold getWhitelistRequests_body, request_of in *.
        destruct (truthy (memo_of a)); [|discriminate].
        rewrite Hrq, Hnodes in Hbody. discriminate. }
    rewrite (body_request _ _ _ _ _ _ _ Hrq Hnodes) in Hbody.
    destruct (resolve nodes request) as [node|]; [|discriminate].
    cbv zeta in Hbody.
    destruct (_ || _) eqn:Hview.
    2:{ now injection Hbody as <- _. }
    destruct (getBondInfoForUser _ _ w) as [[bondInfo|e] w1] eqn:Hbond;
      [|discriminate].
    injection Hbody as <- _. simpl.
    pose proof (Hnew a request node bondInfo w w1 Hrq Hview Hbond) as Hitem.
    intros r [Hr|Hr].
    + destruct (String.eqb _ connectedAddress) in Hr; [|auto].
      apply elem_of_app in Hr as [Hr|Hr]; [auto|].
      apply list_elem_of_singleton in Hr. now subst r.
    + destruct (String.eqb (Node.operator node) connectedAddress) in Hr;
        [|auto].
      apply elem_of_app in Hr as [Hr|Hr]; [auto|].
      apply list_elem_of_singleton in Hr. now subst r.
Qed.

End ReconciliationClaims.

Section Claims.
Context {World : Type} `{Network World}.

(** C3: the status of a request follows from the bond info alone: not a
    bond provider gives [pending], whatever the bonded amount; a bond
    provider with a bond of 0 gives [approved], with a bond above 0
    [bonded]; [rejected] never comes out. Every request in the output of
    [getWhitelistRequests] has the status of a bond info the oracle gave
    for its node and wallet. *)
Theorem C3_status_follows_bond_info :
  (forall bondInfo,
     (BondInfo.isBondProvider bondInfo = false ->
      status_of bondInfo = pending) /\
     (BondInfo.isBondProvider bondInfo = true ->
      strict_eq (BondInfo.bond bondInfo) pos_zero = true ->
      status_of bondInfo = approved) /\
     (BondInfo.isBondProvider bondInfo = true ->
      gt (BondInfo.bond bondInfo) pos_zero = true ->
      status_of bondInfo = bonded) /\
     status_of bondInfo <> rejected) /\
  (forall this connectedAddress (w w' : World) result,
     getWhitelistRequests this connectedAddress w = (Ok result, w') ->
     forall r, r ∈ Requests.user result \/ r ∈ Requests.operator result ->
       exists bondInfo (w0 w1 : World),
         getBondInfoForUser (Node.address (WhitelistRequest.node r))
           (WhitelistRequest.walletAddress r) w0 = (Ok bondInfo, w1) /\
         WhitelistRequest.status r = status_of bondInfo).
Proof.
  split.
  - intros [provider bond]. unfold status_of. simpl.
    repeat split.
    + now intros ->.
    + intros -> Hz. simpl.
      destruct bond as [s|s| |s m e]; try destruct s; cbn in *; congruence.
    + now intros -> ->.
    + destruct provider; simpl; [destruct (gt bond pos_zero)|]; discriminate.
  - intros this c w w' result. unfold getWhitelistRequests.
    destruct (isInitialized this); simpl; [|discriminate].
    intros Hfor. eapply for_of_members; [| |exact Hfor].
    + intros action request node bondInfo w0 w1 _ _ Hbond. simpl. eauto.
    + simpl. intros r [Hr|Hr]; now apply elem_of_nil in Hr.
Qed.

(** C4, amended: a request for a node that is not in the registry makes
    [getWhitelistRequests] fail, with no partial result. The feed splits at
    the first such request: the call fails with 'Node not found' on
    reaching it, unless the loop has failed on the actions before it, and
    there it fails only with 'Failed to retrieve bond info', when the
    node-state service rejected the query made for an earlier request that
    the viewer is the user or the operator of. So the failure is
    'Node not found' whenever the service answers the queries for those
    earlier requests. *)
Theorem C4_orphan_request_aborts this connectedAddress (w : World)
    nodes action request :
  getNodes this = Ok nodes ->
  action ∈ actions this ->
  request_of action = Some request ->
  resolve nodes request = None ->
  exists before first after,
    actions this = (before ++ first :: after)%list /\
    (exists request', request_of first = Some request' /\
                      resolve nodes request' = None) /\
    ~ orphan nodes before /\
    ((exists requests w1,
        for_of (getWhitelistRequests_body this connectedAddress) before
          {| Requests.operator := []; Requests.user := [] |} w
        = (Ok requests, w1) /\
        getWhitelistRequests this connectedAddress w
        = (Throw node_not_found, w1)) \/
     (exists c w0 e' w1,
        c ∈ candidates nodes before /\
        viewer_sees connectedAddress c = true /\
        get_node (query_url c) w0 = (Throw e', w1) /\
        for_of (getWhitelistRequests_body this connectedAddress) before
          {| Requests.operator := []; Requests.user := [] |} w
        = (Throw bond_info_failed, w1) /\
        getWhitelistRequests this connectedAddress w
        = (Throw bond_info_failed, w1))) /\
    ((forall c (w0 : World),
        c ∈ candidates nodes before ->
        viewer_sees connectedAddress c = true ->
        exists response w1, get_node (query_url c) w0 = (Ok response, w1)) ->
     exists w1,
       getWhitelistRequests this connectedAddress w
       = (Throw node_not_found, w1)).
Proof.
  intros Hnodes Hin Hrq Hres.
  assert (Hinit : isInitialized this = true) by now apply getNodes_Ok in Hnodes.
  destruct (first_orphan nodes (actions this))
    as (before & first & after & request' & Hsplit & Hrq' & Hres' & Hbefore).
  { exists action, request. auto. }
  exists before, first, after.
  split; [exact Hsplit|]. split; [eauto|]. split; [exact Hbefore|].
  assert (Hcases :
    (exists requests w1,
       for_of (getWhitelistRequests_body this connectedAddress) before
         {| Requests.operator := []; Requests.user := [] |} w
       = (Ok requests, w1) /\
       getWhitelistRequests this connectedAddress w
       = (Throw node_not_found, w1)) \/
    (exists c w0 e' w1,
       c ∈ candidates nodes before /\
       viewer_sees connectedAddress c = true /\
       get_node (query_url c) w0 = (Throw e', w1) /\
       for_of (getWhitelistRequests_body this connectedAddress) before
         {| Requests.operator := []; Requests.user := [] |} w
       = (Throw bond_info_failed, w1) /\
       getWhitelistRequests this connectedAddress w
       = (Throw bond_info_failed, w1))).
  { unfold getWhitelistRequests. rewrite Hinit, Hsplit, for_of_app. simpl.
    destruct (for_of _ before _ w) as [[requests|e] w1] eqn:Hfor.
    - left. exists requests, w1. split; [reflexivity|].
      now rewrite (body_request _ _ _ _ _ _ _ Hrq' Hnodes), Hres'.
    - destruct (for_of_throws_why _ _ _ _ _ _ _ _ Hnodes Hfor)
        as [[_ Ho]|[-> (c & w0 & e' & Hc & Hv & Hg)]]; [contradiction|].
      right. exists c, w0, e', w1. auto. }
  split; [exact Hcases|].
  intros Hanswers.
  destruct Hcases as [(requests & w1 & _ & Hget)
                     |(c & w0 & e' & w1 & Hc & Hv & Hg & _)]; [eauto|].
  destruct (Hanswers c w0 Hc Hv) as (response & w2 & Hok). congruence.
Qed.

(** C5: the user output holds the decoded requests with a node in the
    registry whose user is the viewer, the operator output those whose
    node's operator is the viewer, each in feed order and one entry per
    request; so a request whose user and operator are both other than the
    viewer is in neither, and an entry that is in both has the viewer as
    its user and as its operator. *)
Theorem C5_outputs_partition_by_viewer this connectedAddress (w w' : World)
    result :
  getWhitelistRequests this connectedAddress w = (Ok result, w') ->
  exists nodes,
    getNodes this = Ok nodes /\
    map unlabelled (Requests.user result) =
      map entry_of (List.filter (viewer_is_user connectedAddress)
                      (candidates nodes (actions this))) /\
    map unlabelled (Requests.operator result) =
      map entry_of (List.filter (viewer_is_operator connectedAddress)
                      (candidates nodes (actions this))) /\
    (forall r, r ∈ Requests.user result -> r ∈ Requests.operator result ->
       WhitelistRequest.walletAddress r = connectedAddress /\
       Node.operator (WhitelistRequest.node r) = connectedAddress).
Proof.
  unfold getWhitelistRequests.
  destruct (isInitialized this) eqn:Hinit; simpl; [|discriminate].
  intros Hfor.
  destruct (getNodes this) as [nodes|e] eqn:Hnodes.
  2:{ unfold getNodes in Hnodes. rewrite Hinit in Hnodes. discriminate. }
  exists nodes. split; [reflexivity|].
  destruct (for_of_outputs _ _ _ _ _ _ _ _ Hnodes Hfor) as [Hu Ho].
  simpl in Hu, Ho. split; [exact Hu|]. split; [exact Ho|].
  intros r Hru Hro. split.
  - assert (Hr : unlabelled r ∈ map unlabelled (Requests.user result))
      by (apply list_elem_of_fmap; eauto).
    rewrite Hu in Hr. apply list_elem_of_fmap in Hr as (c & Hc & Hin).
    apply list_elem_of_In, filter_In in Hin as [_ Hview].
    apply String.eqb_eq in Hview. unfold unlabelled, entry_of in Hc.
    congruence.
  - assert (Hr : unlabelled r ∈ map unlabelled (Requests.operator result))
      by (apply list_elem_of_fmap; eauto).
    rewrite Ho in Hr. apply list_elem_of_fmap in Hr as (c & Hc & Hin).
    apply list_elem_of_In, filter_In in Hin as [_ Hview].
    apply String.eqb_eq in Hview. unfold unlabelled, entry_of in Hc.
    congruence.
Qed.

(** C6: while the engine is not initialized, [getNodes], [getActions] and
    [getWhitelistRequests] throw 'ThorBondEngine not initialized'; once
    [initialize] has resolved, [getNodes] and [getActions] return and
    [getWhitelistRequests] does not throw that error. *)
Theorem C6_reads_need_initialize :
  (forall this,
     isInitialized this = false ->
     getNodes this = Throw not_initialized /\
     getActions this = Throw not_initialized /\
     forall connectedAddress (w : World),
       getWhitelistRequests this connectedAddress w
       = (Throw not_initialized, w)) /\
  (forall this (w w' : World) this',
     initialize this w = (Ok tt, this', w') ->
     isInitialized this' = true /\
     (exists nodes, getNodes this' = Ok nodes) /\
     getActions this' = Ok (actions this') /\
     forall connectedAddress (w0 : World),
       fst (getWhitelistRequests this' connectedAddress w0)
       <> Throw not_initialized).
Proof.
  split.
  - intros this Hinit. unfold getNodes, getActions, getWhitelistRequests.
    rewrite Hinit. auto.
  - intros this w w' this' Hi.
    assert (Hinit : isInitialized this' = true).
    { unfold initialize in Hi. destruct (isInitialized this) eqn:E.
      - now injection Hi as <- _.
      - destruct (get_actions _ _ w) as [[response|e] w1]; [|discriminate].
        now injection Hi as <- _. }
    split; [exact Hinit|].
    unfold getNodes, getActions, getWhitelistRequests. rewrite Hinit. simpl.
    split; [eauto|]. split; [reflexivity|].
    intros c w0.
    destruct (for_of _ (actions this') _ w0) as [[result|e] w1] eqn:Hfor;
      simpl; [discriminate|].
    destruct (for_of_throws _ _ _ _ _ _ _ Hinit Hfor) as [->|[-> _]];
      discriminate.
Qed.

(** C7: when the node-state service answers, [getBondInfoForUser] returns
    [isBondProvider: false] and a bond of 0 if no entry of the provider
    list has the user's address, in particular if the response has no
    provider list; it returns [isBondProvider: true] and the bond of the
    first entry with the user's address if there is one. *)
Theorem C7_bond_info_from_provider_list nodeAddress userAddress
    (w w' : World) response :
  startsWith nodeAddress "thor1" = true ->
  startsWith userAddress "thor1" = true ->
  get_node (THORNODE_API_URL ++ "/" ++ nodeAddress) w = (Ok response, w') ->
  ((forall bp, bp ∈ providers_of response ->
      BondProvider.bond_address bp <> userAddress) ->
   getBondInfoForUser nodeAddress userAddress w =
     (Ok {| BondInfo.isBondProvider := false; BondInfo.bond := pos_zero |},
      w')) /\
  ((NodeResponse.data response = None \/
    NodeResponse.data response
      = Some {| NodeResponse.bond_providers := None |} \/
    NodeResponse.data response
      = Some {| NodeResponse.bond_providers :=
                  Some {| NodeResponse.providers := None |} |}) ->
   getBondInfoForUser nodeAddress userAddress w =
     (Ok {| BondInfo.isBondProvider := false; BondInfo.bond := pos_zero |},
      w')) /\
  (forall before bp after,
     providers_of response = (before ++ bp :: after)%list ->
     BondProvider.bond_address bp = userAddress ->
     (forall b, b ∈ before -> BondProvider.bond_address b <> userAddress) ->
     getBondInfoForUser nodeAddress userAddress w =
       (Ok {| BondInfo.isBondProvider := true;
              BondInfo.bond := Number (BondProvider.bond bp) |}, w')).
Proof.
  intros Hn Hu Hget.
  destruct (getBondInfoForUser_cases nodeAddress userAddress w Hn Hu)
    as [(e & w1 & Hget' & _)|(response' & w1 & Hget' & ->)]; [congruence|].
  rewrite Hget in Hget'. injection Hget' as <- <-.
  assert (Hnone : (forall bp, bp ∈ providers_of response ->
                     BondProvider.bond_address bp <> userAddress) ->
                  find (fun bp => String.eqb (BondProvider.bond_address bp)
                                    userAddress) (providers_of response)
                  = None).
  { intros Hno. destruct (find _ _) as [bp|] eqn:Hf; [|reflexivity].
    apply find_some in Hf as [Hin Heq]. apply String.eqb_eq in Heq.
    apply list_elem_of_In in Hin. now apply Hno in Hin. }
  split; [|split].
  - intros Hno. now rewrite Hnone.
  - intros Hmissing. rewrite Hnone; [reflexivity|].
    unfold providers_of.
    destruct Hmissing as [->|[->| ->]]; intros bp Hbp;
      now apply elem_of_nil in Hbp.
  - intros before bp after Hsplit Hbp Hbefore. rewrite Hsplit.
    clear Hsplit Hnone. induction before as [|b l IH]; simpl.
    + rewrite (proj2 (String.eqb_eq _ _) Hbp). reflexivity.
    + destruct (String.eqb (BondProvider.bond_address b) userAddress) eqn:Eb.
      * apply String.eqb_eq in Eb. exfalso.
        apply (Hbefore b); [apply elem_of_cons; now left | exact Eb].
      * apply IH. intros b' Hb'. apply Hbefore. apply elem_of_cons. now right.
Qed.

(** C10: a [TB] memo of four fields decodes as a whitelist request only if
    both addresses start with [thor1] and the amount is a number above 0;
    otherwise the loop of [getWhitelistRequests] passes over the action:
    the lists and the world are as before, nothing is thrown, and the feed
    without the action gives the same outcome. *)
Theorem C10_unqualified_request_is_skipped this connectedAddress action
    memo nodeAddress userAddress amountStr :
  truthy (memo_of action) = Some memo ->
  split ":" memo = ["TB"; nodeAddress; userAddress; amountStr] ->
  (parseWhitelistMemo memo <> None <->
   startsWith nodeAddress "thor1" = true /\
   startsWith userAddress "thor1" = true /\
   gt (Number amountStr) pos_zero = true) /\
  (~ (startsWith nodeAddress "thor1" = true /\
      startsWith userAddress "thor1" = true /\
      gt (Number amountStr) pos_zero = true) ->
   (forall requests (w : World),
      getWhitelistRequests_body this connectedAddress action requests w
      = (Ok requests, w)) /\
   (forall before after requests (w : World),
      for_of (getWhitelistRequests_body this connectedAddress)
        (before ++ action :: after)%list requests w =
      for_of (getWhitelistRequests_body this connectedAddress)
        (before ++ after)%list requests w)).
Proof.
  intros Hmemo Hsplit.
  assert (Hdec : parseWhitelistMemo memo <> None <->
                 startsWith nodeAddress "thor1" = true /\
                 startsWith userAddress "thor1" = true /\
                 gt (Number amountStr) pos_zero = true).
  { rewrite positive_amount. split.
    - destruct (parseWhitelistMemo memo) as [request|] eqn:Hp; [|congruence].
      intros _. apply parseWhitelistMemo_Some in Hp
        as (n & u & a & Hs & Hn & Hu & Hnan & Hle & _).
      rewrite Hsplit in Hs. injection Hs as <- <- <-. auto.
    - intros (Hn & Hu & Hnan & Hle).
      unfold parseWhitelistMemo. rewrite Hsplit. simpl.
      rewrite Hn, Hu. simpl. rewrite Hnan, Hle. discriminate. }
  split; [exact Hdec|].
  intros Hnot.
  assert (Hskip : forall requests (w : World),
             getWhitelistRequests_body this connectedAddress action requests w
             = (Ok requests, w)).
  { intros requests w. apply body_skip. unfold request_of. rewrite Hmemo.
    destruct (parseWhitelistMemo memo) eqn:Hp; [|reflexivity].
    exfalso. apply Hnot, Hdec. congruence. }
  split; [exact Hskip|].
  intros before after requests w. rewrite !for_of_app.
  destruct (for_of _ before requests w) as [[requests'|e] w1]; [|reflexivity].
  simpl. now rewrite Hskip.
Qed.

End Claims.

(** *** The scenarios of the specification *)

Example scenario_registry :
  getNodes scenario_engine =
    Ok [ {| Node.operator := "thor1op";
            Node.address := "thor1node";
            Node.bondingCapacity := of_Z 10000;
            Node.minimumBond := of_Z 100;
            Node.feePercentage := of_Z 5;
            Node.createdAt := new_Date (of_Z 1700000000000) |} ].
Proof. vm_compute. reflexivity. Qed.

Example scenario_requests :
  exists node,
    getNodes scenario_engine = Ok [node] /\
    getWhitelistRequests scenario_engine "thor1user" scenario_world =
      (Ok {| Requests.operator := [];
             Requests.user :=
               [ {| WhitelistRequest.node := node;
                    WhitelistRequest.walletAddress := "thor1user";
                    WhitelistRequest.intendedBondAmount := of_Z 500;
                    WhitelistRequest.status := approved;
                    WhitelistRequest.createdAt :=
                      new_Date (of_Z 1700000000000) |} ] |},
       scenario_world).
Proof. eexists. split; vm_compute; reflexivity. Qed.

Example scenario_initialize :
  initialize new_ThorBondEngine scenario_world
  = (Ok tt, scenario_engine, scenario_world).
Proof. vm_compute. reflexivity. Qed.

(** *** The claims at work on concrete feeds *)

Lemma C3_status_follows_bond_info_witness :
  exists result w',
    getWhitelistRequests scenario_engine "thor1user" scenario_world
    = (Ok result, w') /\
    map WhitelistRequest.status (Requests.user result) = [approved] /\
    forall r, r ∈ Requests.user result \/ r ∈ Requests.operator result ->
      exists bondInfo (w0 w1 : Steady),
        getBondInfoForUser (Node.address (WhitelistRequest.node r))
          (WhitelistRequest.walletAddress r) w0 = (Ok bondInfo, w1) /\
        WhitelistRequest.status r = status_of bondInfo.
Proof.
  destruct (getWhitelistRequests scenario_engine "thor1user" scenario_world)
    as [[result|e] w'] eqn:Hget; [|vm_compute in Hget; discriminate].
  exists result, w'. split; [reflexivity|]. split.
  - vm_compute in Hget. now injection Hget as <- _.
  - exact (proj2 C3_status_follows_bond_info scenario_engine "thor1user"
             scenario_world w' result Hget).
Defined.

(** C4, as stated, fails: the feed has a request for a node nobody listed,
    yet [getWhitelistRequests] stops earlier, at the request before it, with
    'Failed to retrieve bond info'. *)
Lemma C4_earlier_failure_wins :
  exists nodes request,
    getNodes orphan_engine = Ok nodes /\
    orphan_request ∈ actions orphan_engine /\
    request_of orphan_request = Some request /\
    resolve nodes request = None /\
    fst (getWhitelistRequests orphan_engine "thor1user" silent)
    = Throw bond_info_failed /\
    fst (getWhitelistRequests orphan_engine "thor1user" silent)
    <> Throw node_not_found.
Proof.
  destruct (getNodes orphan_engine) as [nodes|] eqn:Hn;
    [|vm_compute in Hn; discriminate].
  destruct (request_of orphan_request) as [request|] eqn:Hr;
    [|vm_compute in Hr; discriminate].
  exists nodes, request. split; [reflexivity|]. split.
  { unfold orphan_engine. simpl. set_solver. }
  split; [reflexivity|].
  vm_compute in Hn. injection Hn as <-.
  vm_compute in Hr. injection Hr as <-.
  repeat split; vm_compute; congruence.
Qed.

Lemma C4_orphan_request_aborts_witness :
  (exists w',
     getWhitelistRequests orphan_engine "thor1user" scenario_world
     = (Throw node_not_found, w')) /\
  (exists w',
     getWhitelistRequests orphan_engine "thor1stranger" silent
     = (Throw node_not_found, w')).
Proof.
  assert (Hn : getNodes orphan_engine
               = Ok [node_of_listing
                       {| ListingMemo.nodeAddress := "thor1node";
                          ListingMemo.operatorAddress := "thor1op";
                          ListingMemo.minRune := of_Z 100;
                          ListingMemo.maxRune := of_Z 10000;
                          ListingMemo.feePercentage := of_Z 5 |}
                       first_listing])
    by (vm_compute; reflexivity).
  assert (Hin : orphan_request ∈ actions orphan_engine).
  { change (orphan_request
            ∈ [first_listing; known_request; orphan_request]).
    do 2 (apply elem_of_cons; right). apply elem_of_cons. now left. }
  assert (Hr : request_of orphan_request
               = Some {| WhitelistRequestParams.nodeAddress := "thor1ghost";
                         WhitelistRequestParams.userAddress := "thor1user";
                         WhitelistRequestParams.amount := of_Z 500 |})
    by (vm_compute; reflexivity).
  split.
  - destruct (C4_orphan_request_aborts orphan_engine "thor1user"
                scenario_world _ orphan_request _ Hn Hin Hr eq_refl)
      as (before & first & after & _ & _ & _ & _ & Hnf).
    apply Hnf. intros c w0 _ _. exists (steady_node w0), w0. reflexivity.
  - destruct (C4_orphan_request_aborts orphan_engine "thor1stranger"
                silent _ orphan_request _ Hn Hin Hr eq_refl)
      as (before & first & after & Hsplit & _ & _ & [Hok|Hfail] & _).
    + destruct Hok as (requests & w1 & _ & Hget). eauto.
    + destruct Hfail as (c & w0 & e' & w1 & _ & _ & _ & _ & Hget).
      vm_compute in Hget. discriminate Hget.
Defined.

Lemma C5_outputs_partition_by_viewer_witness :
  exists result w',
    getWhitelistRequests scenario_engine "thor1user" scenario_world
    = (Ok result, w') /\
    map WhitelistRequest.walletAddress (Requests.user result) = ["thor1user"] /\
    Requests.operator result = [].
Proof.
  destruct (getWhitelistRequests scenario_engine "thor1user" scenario_world)
    as [[result|e] w'] eqn:Hget; [|vm_compute in Hget; discriminate].
  destruct (C5_outputs_partition_by_viewer scenario_engine "thor1user"
              scenario_world w' result Hget) as (nodes & Hn & Hu & Ho & _).
  exists result, w'. split; [reflexivity|].
  vm_compute in Hn. injection Hn as <-.
  split.
  - transitivity (map (fun e => snd (fst (fst e)))
                    (map unlabelled (Requests.user result))).
    + rewrite map_map. reflexivity.
    + rewrite Hu. vm_compute. reflexivity.
  - apply map_eq_nil with (f := unlabelled). rewrite Ho. vm_compute.
    reflexivity.
Defined.

Lemma C6_reads_need_initialize_witness :
  getNodes new_ThorBondEngine = Throw not_initialized /\
  exists this' w',
    initialize new_ThorBondEngine scenario_world = (Ok tt, this', w') /\
    exists nodes, getNodes this' = Ok nodes.
Proof.
  split.
  - apply (proj1 (C6_reads_need_initialize (World := Steady))). reflexivity.
  - destruct (initialize new_ThorBondEngine scenario_world)
      as [[[[]|e] this'] w'] eqn:Hi; [|vm_compute in Hi; discriminate].
    exists this', w'. split; [reflexivity|].
    apply (proj2 C6_reads_need_initialize new_ThorBondEngine scenario_world
             w' this' Hi).
Defined.

Lemma C7_bond_info_from_provider_list_witness :
  getBondInfoForUser "thor1node" "thor1user" scenario_world =
    (Ok {| BondInfo.isBondProvider := true; BondInfo.bond := Number "0" |},
     scenario_world) /\
  getBondInfoForUser "thor1node" "thor1nobody" scenario_world =
    (Ok {| BondInfo.isBondProvider := false; BondInfo.bond := pos_zero |},
     scenario_world).
Proof.
  assert (Hget : get_node (THORNODE_API_URL ++ "/" ++ "thor1node")
                   scenario_world = (Ok whitelisted, scenario_world))
    by reflexivity.
  split.
  - apply (proj2 (proj2 (C7_bond_info_from_provider_list "thor1node"
                           "thor1user" scenario_world scenario_world
                           whitelisted eq_refl eq_refl Hget))
             [ {| BondProvider.bond_address := "thor1op";
                  BondProvider.bond := "250000" |} ]
             {| BondProvider.bond_address := "thor1user";
                BondProvider.bond := "0" |} []).
    + reflexivity.
    + reflexivity.
    + intros b Hb. apply list_elem_of_singleton in Hb. subst b. discriminate.
  - apply (proj1 (C7_bond_info_from_provider_list "thor1node"
                    "thor1nobody" scenario_world scenario_world
                    whitelisted eq_refl eq_refl Hget)).
    intros bp Hbp. simpl in Hbp.
    apply elem_of_cons in Hbp as [->|Hbp]; [discriminate|].
    apply list_elem_of_singleton in Hbp. subst bp. discriminate.
Defined.

Lemma C10_unqualified_request_is_skipped_witness :
  getWhitelistRequests
    {| actions := [first_listing; nan_request; unprefixed_request;
                   known_request];
       isInitialized := true |} "thor1user" scenario_world
  = getWhitelistRequests
      {| actions := [first_listing; known_request];
         isInitialized := true |} "thor1user" scenario_world.
Proof.
  set (this := {| actions := [first_listing; nan_request; unprefixed_request;
                              known_request];
                  isInitialized := true |}).
  set (skip := C10_unqualified_request_is_skipped (World := Steady)
                 this "thor1user").
  unfold getWhitelistRequests. simpl.
  etransitivity.
  { apply (proj2 (proj2 (skip nan_request "TB:thor1node:thor1user:lots"
                           "thor1node" "thor1user" "lots" eq_refl eq_refl)
                    ltac:(vm_compute; intros (_ & _ & Hgt); discriminate))
             [first_listing] [unprefixed_request; known_request]). }
  etransitivity.
  { apply (proj2 (proj2 (skip unprefixed_request "TB:node:thor1user:500"
                           "node" "thor1user" "500" eq_refl eq_refl)
                    ltac:(vm_compute; intros (Hn & _); discriminate))
             [first_listing] [known_request]). }
  vm_compute. reflexivity.
Defined.

(** ** Part V. Numbers in memos and the encoders *)

(** *** The runtime at work *)

Example Number_of_decimal : Number "10000.5" = round_ratio false 20001 2.
Proof. reflexivity. Qed.

Example Number_of_tenth :
  Number "0.1" = S754_finite false 7205759403792794 (-56).
Proof. reflexivity. Qed.

Example Number_of_spaces : Number " 12 " = of_Z 12.
Proof. reflexivity. Qed.

Example Number_of_empty : Number "" = pos_zero.
Proof. reflexivity. Qed.

Example Number_of_hex : Number "0x10" = of_Z 16.
Proof. reflexivity. Qed.

Example Number_of_words : Number "lots" = NaN.
Proof. reflexivity. Qed.

Example Number_of_two_numbers : Number "1 2" = NaN.
Proof. reflexivity. Qed.

Example Number_of_tie : Number "9007199254740993" = of_Z 9007199254740992.
Proof. vm_compute. reflexivity. Qed.

Example Number_overflows : Number "1.7976931348623159e308" = Infinity.
Proof. vm_compute. reflexivity. Qed.

Example parseInt_stops_at_letters : parseInt "12px" = of_Z 12.
Proof. reflexivity. Qed.

Example toString_of_tenth : toString (Number "0.1") = "0.1".
Proof. vm_compute. reflexivity. Qed.

Example toString_of_third :
  toString (div (of_Z 1) (of_Z 3)) = "0.3333333333333333".
Proof. vm_compute. reflexivity. Qed.

Example toString_of_large : toString (Number "1e21") = "1e+21".
Proof. vm_compute. reflexivity. Qed.

Example toString_of_twenty_one_digits :
  toString (Number "123456789012345678901") = "123456789012345680000".
Proof. vm_compute. reflexivity. Qed.

Example toString_of_small : toString (Number "0.0000001") = "1e-7".
Proof. vm_compute. reflexivity. Qed.

Example toString_of_least : toString (Number "5e-324") = "5e-324".
Proof. vm_compute. reflexivity. Qed.

Example toString_of_greatest :
  toString (Number "1.7976931348623157e308") = "1.7976931348623157e+308".
Proof. vm_compute. reflexivity. Qed.

Example date_of_nanoseconds :
  toString (time_value (date_of first_listing)) = "1700000000000".
Proof. vm_compute. reflexivity. Qed.

Example split_keeps_empty_fields :
  split ":" "TB:a::b:" = ["TB"; "a"; ""; "b"; ""].
Proof. reflexivity. Qed.

(** *** Rounding a ratio that is a binary64 value *)

Lemma digits2_log2 (p : positive) :
  Zpos (digits2_pos p) = Z.log2 (Zpos p) + 1.
Proof.
  assert (Hsize : forall q, digits2_pos q = Pos.size q)
    by (induction q; simpl; congruence).
  destruct p; simpl; rewrite ?Hsize; lia.
Qed.

Lemma Zdigits2_log2 (z : Z) : 0 < z -> Zdigits2 z = Z.log2 z + 1.
Proof. destruct z; try lia. intros _. apply digits2_log2. Qed.

Lemma Zdigits2_bounds (z : Z) :
  0 < z -> 2 ^ (Zdigits2 z - 1) <= z < 2 ^ Zdigits2 z.
Proof.
  intros Hz. rewrite Zdigits2_log2 by assumption.
  replace (Z.log2 z + 1 - 1) with (Z.log2 z) by lia.
  apply Z.log2_spec, Hz.
Qed.

Lemma iter_pos_iter {A} (f : A -> A) (p : positive) (x : A) :
  SpecFloat.iter_pos f p x = Pos.iter f x p.
Proof.
  revert x. induction p as [p IH|p IH|]; simpl; intros x.
  - rewrite !IH. now rewrite <- !Pos.iter_swap.
  - now rewrite !IH.
  - reflexivity.
Qed.

Lemma shr_1_even (m : Z) :
  0 < m ->
  shr_1 {| shr_m := m * 2; shr_r := false; shr_s := false |}
  = {| shr_m := m; shr_r := false; shr_s := false |}.
Proof.
  destruct m as [|p|p]; try lia. intros _.
  replace (Zpos p * 2) with (Zpos p~0) by lia. reflexivity.
Qed.

Lemma iter_pos_shift (j : positive) (m : Z) :
  0 < m ->
  SpecFloat.iter_pos shr_1 j
    {| shr_m := m * 2 ^ Zpos j; shr_r := false; shr_s := false |}
  = {| shr_m := m; shr_r := false; shr_s := false |}.
Proof.
  intros Hm. rewrite iter_pos_iter. revert m Hm.
  induction j as [|j IH] using Pos.peano_ind; intros m Hm.
  - simpl. rewrite <- (shr_1_even m Hm). f_equal.
  - rewrite Pos.iter_succ_r.
    replace (m * 2 ^ Zpos (Pos.succ j)) with (m * 2 ^ Zpos j * 2).
    + rewrite shr_1_even
        by (apply Z.mul_pos_pos; [lia|apply Z.pow_pos_nonneg; lia]).
      now apply IH.
    + rewrite Pos2Z.inj_succ, Z.pow_succ_r by lia. ring.
Qed.


Lemma fexp_mono (a b : Z) : a <= b -> fexp prec emax a <= fexp prec emax b.
Proof. unfold fexp. lia. Qed.

Lemma ratio_digits p q m e :
  0 < p -> 0 < q -> ratio_is p q m e ->
  Zdigits2 p - Zdigits2 q <= Zpos (digits2_pos m) + e.
Proof.
  intros Hp Hq Hr.
  pose proof (Zdigits2_bounds p Hp) as [Hp1 _].
  pose proof (Zdigits2_bounds q Hq) as [_ Hq2].
  pose proof (Zdigits2_bounds (Zpos m) eq_refl) as [_ Hm2]. simpl in Hm2.
  assert (Hdp : 0 < Zdigits2 p)
    by (rewrite Zdigits2_log2 by lia; pose proof (Z.log2_nonneg p); lia).
  assert (Hdq : 0 < Zdigits2 q)
    by (rewrite Zdigits2_log2 by lia; pose proof (Z.log2_nonneg q); lia).
  set (dm := Zpos (digits2_pos m)) in *.
  unfold ratio_is in Hr. destruct (0 <=? e) eqn:He.
  - apply Z.leb_le in He.
    assert (H : 2 ^ (Zdigits2 p - 1) < 2 ^ (Zdigits2 q + dm + e)).
    { eapply Z.le_lt_trans; [exact Hp1|]. rewrite Hr.
      rewrite !Z.pow_add_r by lia.
      assert (0 < 2 ^ e) by (apply Z.pow_pos_nonneg; lia).
      assert (q * Zpos m < 2 ^ Zdigits2 q * 2 ^ dm)
        by (apply Z.mul_lt_mono_nonneg; lia).
      rewrite Z.mul_assoc. apply Z.mul_lt_mono_pos_r; assumption. }
    apply Z.pow_lt_mono_r_iff in H; lia.
  - apply Z.leb_gt in He.
    assert (H : 2 ^ (Zdigits2 p - 1 + - e) < 2 ^ (Zdigits2 q + dm)).
    { rewrite !Z.pow_add_r by lia.
      assert (0 < 2 ^ (- e)) by (apply Z.pow_pos_nonneg; lia).
      assert (q * Zpos m < 2 ^ Zdigits2 q * 2 ^ dm)
        by (apply Z.mul_lt_mono_nonneg; lia).
      eapply Z.le_lt_trans; [|eassumption]. rewrite <- Hr.
      apply Z.mul_le_mono_nonneg_r; lia. }
    apply Z.pow_lt_mono_r_iff in H; lia.
Qed.

Lemma bounded_canonical m e :
  bounded prec emax m e = true ->
  fexp prec emax (Zpos (digits2_pos m) + e) = e /\ e <= emax - prec.
Proof.
  unfold bounded, canonical_mantissa. intros Hb.
  apply andb_true_iff in Hb as [Hc He].
  apply Z.eqb_eq in Hc. apply Z.leb_le in He. auto.
Qed.

Lemma Zdigits2_shift (m : positive) (j : Z) :
  0 <= j -> Zdigits2 (Zpos m * 2 ^ j) = Zpos (digits2_pos m) + j.
Proof.
  intros Hj.
  assert (0 < Zpos m * 2 ^ j)
    by (apply Z.mul_pos_pos; [lia|apply Z.pow_pos_nonneg; lia]).
  rewrite Zdigits2_log2 by assumption.
  rewrite Z.log2_mul_pow2 by lia. rewrite digits2_log2. lia.
Qed.

(** A finite value that is already in the format comes out as it is. *)
Lemma binary_round_aux_exact neg (m : positive) e j :
  bounded prec emax m e = true -> 0 <= j ->
  binary_round_aux prec emax neg (Zpos m * 2 ^ j) (e - j) loc_Exact
  = S754_finite neg m e.
Proof.
  intros Hb Hj. destruct (bounded_canonical m e Hb) as [Hc He].
  unfold binary_round_aux.
  assert (Hfirst : shr_fexp prec emax (Zpos m * 2 ^ j) (e - j) loc_Exact
                   = ({| shr_m := Zpos m; shr_r := false; shr_s := false |},
                      e)).
  { unfold shr_fexp. rewrite Zdigits2_shift by assumption.
    replace (Zpos (digits2_pos m) + j + (e - j))
      with (Zpos (digits2_pos m) + e) by lia.
    rewrite Hc. replace (e - (e - j)) with j by lia.
    unfold shr, shr_record_of_loc. destruct j as [|jp|jp]; try lia.
    - rewrite Z.mul_1_r. f_equal. lia.
    - rewrite iter_pos_shift by lia. f_equal. lia. }
  rewrite Hfirst. simpl.
  unfold shr_fexp. simpl. rewrite Hc, Z.sub_diag. simpl.
  apply Z.leb_le in He. now rewrite He.
Qed.

Lemma round_ratio_exact neg p q m e :
  0 < p -> 0 < q -> ratio_is p q m e -> bounded prec emax m e = true ->
  round_ratio neg p q = S754_finite neg m e.
Proof.
  intros Hp Hq Hr Hb. destruct (bounded_canonical m e Hb) as [Hc He].
  pose proof (ratio_digits p q m e Hp Hq Hr) as Hd.
  unfold round_ratio. destruct p as [|p0|p0]; try lia.
  unfold SFdiv_core_binary.
  set (e' := Z.min (fexp prec emax (Zdigits2 (Zpos p0) + 0
                                     - (Zdigits2 q + 0))) (0 - 0)).
  assert (He' : e' <= e /\ e' <= 0).
  { subst e'. split; [|lia].
    etransitivity; [apply Z.le_min_l|].
    etransitivity; [apply (fexp_mono _ (Zpos (digits2_pos m) + e)); lia|].
    lia. }
  destruct He' as [He'1 He'2].
  assert (Hm' : match 0 - 0 - e' with
                | Z0 => Zpos p0
                | Zpos _ => Z.shiftl (Zpos p0) (0 - 0 - e')
                | Zneg _ => 0
                end = q * (Zpos m * 2 ^ (e - e'))).
  { assert (Hshift : Zpos p0 * 2 ^ (- e') = q * (Zpos m * 2 ^ (e - e'))).
    { unfold ratio_is in Hr. destruct (0 <=? e) eqn:Hs.
      - apply Z.leb_le in Hs. rewrite Hr.
        replace (e - e') with (e + - e') by lia.
        rewrite Z.pow_add_r by lia. ring.
      - apply Z.leb_gt in Hs.
        replace (- e') with (- e + (e - e')) by lia.
        rewrite Z.pow_add_r by lia. rewrite Z.mul_assoc, Hr. ring. }
    destruct (0 - 0 - e') as [|s|s] eqn:Es; try lia.
    - replace (- e') with 0 in Hshift by lia.
      now rewrite Z.mul_1_r in Hshift.
    - rewrite Z.shiftl_mul_pow2 by lia. rewrite <- Es.
      now replace (0 - 0 - e') with (- e') by lia. }
  rewrite Hm'.
  assert (Hdiv : Z.div_eucl (q * (Zpos m * 2 ^ (e - e'))) q
                 = (Zpos m * 2 ^ (e - e'), 0)).
  { pose proof (Z.div_mul (Zpos m * 2 ^ (e - e')) q ltac:(lia)) as H1.
    pose proof (Z.mod_mul (Zpos m * 2 ^ (e - e')) q ltac:(lia)) as H2.
    rewrite Z.mul_comm in H1, H2. unfold Z.div, Z.modulo in H1, H2.
    destruct (Z.div_eucl _ q). simpl in *. congruence. }
  rewrite Hdiv.
  assert (Hloc : new_location q 0 = loc_Exact).
  { unfold new_location, new_location_even, new_location_odd.
    now destruct (Z.even q). }
  rewrite Hloc.
  replace e' with (e - (e - e')) at 2 by lia.
  apply binary_round_aux_exact; [assumption|lia].
Qed.


Lemma same_value_step M E m e :
  same_value (10 * M) E m e -> same_value M (E + 1) m e.
Proof.
  unfold same_value. intros Hv.
  destruct (Z.le_gt_cases 0 E) as [HE|HE].
  - rewrite (Z.max_l E 0), (Z.max_r (- E) 0) in Hv by lia.
    rewrite (Z.max_l (E + 1) 0), (Z.max_r (- (E + 1)) 0) by lia.
    rewrite Z.pow_add_r by lia. rewrite <- Hv. ring.
  - rewrite (Z.max_r E 0), (Z.max_l (- E) 0) in Hv by lia.
    rewrite (Z.max_r (E + 1) 0), (Z.max_l (- (E + 1)) 0) by lia.
    replace (- E) with (1 + - (E + 1)) in Hv by lia.
    rewrite Z.pow_add_r in Hv by lia.
    apply (Z.mul_reg_l _ _ 10); [lia|].
    transitivity (10 * M * 10 ^ 0 * 2 ^ Z.max (- e) 0); [ring|].
    rewrite Hv. ring.
Qed.

Lemma norm10_same_value fuel M E m e :
  0 < M -> same_value M E m e ->
  0 < fst (norm10 fuel M E) /\
  same_value (fst (norm10 fuel M E)) (snd (norm10 fuel M E)) m e.
Proof.
  revert M E. induction fuel as [|fuel IH]; simpl; intros M E HM Hv.
  - auto.
  - destruct ((0 <? M) && (M mod 10 =? 0)) eqn:Ht; [|auto].
    apply andb_true_iff in Ht as [_ Ht]. apply Z.eqb_eq in Ht.
    assert (HM10 : M = 10 * (M / 10))
      by (rewrite (Z.div_mod M 10) at 1 by lia; lia).
    apply IH; [lia|]. apply same_value_step. now rewrite <- HM10.
Qed.

Lemma of_decimal_exact neg M E m e :
  0 < M -> same_value M E m e -> bounded prec emax m e = true ->
  of_decimal neg M E = S754_finite neg m e.
Proof.
  intros HM Hv Hb. unfold of_decimal.
  destruct (norm10_same_value (Z.to_nat (Z.log2 M)) M E m e HM Hv)
    as [HM' Hv'].
  destruct (norm10 _ M E) as [M' E']. simpl in HM', Hv'.
  unfold same_value in Hv'.
  destruct (0 <=? E') eqn:HE.
  - apply Z.leb_le in HE.
    rewrite (Z.max_l E' 0), (Z.max_r (- E') 0) in Hv' by lia.
    assert (0 < 10 ^ E') by (apply Z.pow_pos_nonneg; lia).
    apply round_ratio_exact; [nia|lia| |assumption].
    unfold ratio_is. destruct (0 <=? e) eqn:He.
    + apply Z.leb_le in He.
      rewrite (Z.max_l e 0), (Z.max_r (- e) 0) in Hv' by lia.
      simpl in Hv'. lia.
    + apply Z.leb_gt in He.
      rewrite (Z.max_r e 0), (Z.max_l (- e) 0) in Hv' by lia.
      simpl in Hv'. lia.
  - apply Z.leb_gt in HE.
    rewrite (Z.max_r E' 0), (Z.max_l (- E') 0) in Hv' by lia.
    assert (0 < 10 ^ (- E')) by (apply Z.pow_pos_nonneg; lia).
    apply round_ratio_exact; [lia|lia| |assumption].
    unfold ratio_is. destruct (0 <=? e) eqn:He.
    + apply Z.leb_le in He.
      rewrite (Z.max_l e 0), (Z.max_r (- e) 0) in Hv' by lia.
      simpl in Hv'. lia.
    + apply Z.leb_gt in He.
      rewrite (Z.max_r e 0), (Z.max_l (- e) 0) in Hv' by lia.
      simpl in Hv'. lia.
Qed.

Lemma exact_decimal_same_value m e :
  0 < fst (exact_decimal m e) /\
  same_value (fst (exact_decimal m e)) (snd (exact_decimal m e)) m e.
Proof.
  unfold exact_decimal. destruct (0 <=? e) eqn:He.
  - apply Z.leb_le in He.
    assert (0 < 2 ^ e) by (apply Z.pow_pos_nonneg; lia).
    apply norm10_same_value; [nia|].
    unfold same_value.
    rewrite (Z.max_l e 0), (Z.max_r (- e) 0) by lia.
    change (Z.max 0 0) with 0. change (Z.max (- 0) 0) with 0.
    rewrite !Z.pow_0_r. ring.
  - apply Z.leb_gt in He.
    assert (0 < 5 ^ (- e)) by (apply Z.pow_pos_nonneg; lia).
    apply norm10_same_value; [nia|].
    unfold same_value.
    rewrite (Z.max_r e 0), (Z.max_l (- e) 0) by lia.
    replace (10 ^ (- e)) with (5 ^ (- e) * 2 ^ (- e))
      by (rewrite <- Z.pow_mul_l; reflexivity).
    rewrite !Z.pow_0_r. ring.
Qed.

Lemma number_eqb_eq x y : number_eqb x y = true <-> x = y.
Proof.
  destruct x as [s|s| |s m e], y as [s'|s'| |s' m' e']; simpl;
    try (split; [discriminate|congruence]).
  - rewrite Bool.eqb_true_iff. split; congruence.
  - rewrite Bool.eqb_true_iff. split; congruence.
  - tauto.
  - rewrite !andb_true_iff, Bool.eqb_true_iff, Pos.eqb_eq, Z.eqb_eq.
    split; [intros [[-> ->] ->]; reflexivity | intros [= -> -> ->]; auto].
Qed.

Lemma denotes_positive m e s n :
  denotes (S754_finite false m e) s n = true -> 0 < s.
Proof.
  unfold denotes. rewrite number_eqb_eq. unfold of_decimal.
  destruct (Z.lt_ge_cases 0 s) as [Hs|Hs]; [trivial|].
  assert (Hn : forall fuel E, norm10 fuel s E = (s, E)).
  { intros [|fuel] E; simpl; [reflexivity|].
    replace (0 <? s) with false by (symmetry; apply Z.ltb_ge; lia).
    reflexivity. }
  rewrite Hn.
  destruct (0 <=? _) eqn:HE; unfold round_ratio.
  - apply Z.leb_le in HE.
    assert (0 <= 10 ^ (n - num_digits s)) by (apply Z.pow_nonneg; lia).
    destruct (s * 10 ^ (n - num_digits s)) eqn:Hp; try discriminate. nia.
  - destruct s; try discriminate. lia.
Qed.

(** What [digits_of] returns denotes the number. *)
Lemma shortest_at_denotes x p q n0 k s n :
  shortest_at x p q n0 k = Some (s, n) -> denotes x s n = true.
Proof.
  unfold shortest_at.
  destruct (0 <=? k - n0); set (lo := _ / _);
    destruct (lo + 1 <? 10 ^ k);
    destruct (denotes x lo n0) eqn:Hlo;
    match goal with
    | |- context [denotes x ?hi ?hn] => destruct (denotes x hi hn) eqn:Hhi
    end;
    try discriminate;
    repeat match goal with
    | |- context [match ?c with Eq => _ | Lt => _ | Gt => _ end] => destruct c
    | |- context [if Z.even ?z then _ else _] => destruct (Z.even z)
    end;
    intros [= <- <-]; assumption.
Qed.

Lemma shortest_denotes fuel x p q n0 k exact :
  denotes x (fst exact) (snd exact) = true ->
  denotes x (fst (shortest fuel x p q n0 k exact))
    (snd (shortest fuel x p q n0 k exact)) = true.
Proof.
  intros Hexact. revert k. induction fuel as [|fuel IH]; simpl; intros k.
  - assumption.
  - destruct (shortest_at x p q n0 k) as [[s n]|] eqn:Hat; [|apply IH].
    simpl. eapply shortest_at_denotes, Hat.
Qed.

Lemma digits_of_denotes m e :
  bounded prec emax m e = true ->
  denotes (S754_finite false m e) (fst (digits_of m e)) (snd (digits_of m e))
  = true.
Proof.
  intros Hb. unfold digits_of.
  destruct (exact_decimal_same_value m e) as [Hs Hv].
  destruct (exact_decimal m e) as [s e10]. simpl in Hs, Hv.
  destruct (0 <=? e); apply shortest_denotes; simpl; unfold denotes;
    apply number_eqb_eq;
    replace (num_digits s + e10 - num_digits s) with e10 by lia;
    now apply of_decimal_exact.
Qed.

(** *** Strings of digits *)

Lemma app_nil_string (b : string) : "" ++ b = b.
Proof. reflexivity. Qed.

Lemma app_cons_string x (a b : string) : String x a ++ b = String x (a ++ b).
Proof. reflexivity. Qed.

Ltac sapp := rewrite ?app_cons_string, ?app_nil_string in *.

Lemma app_assoc_string (a b c : string) : (a ++ b) ++ c = a ++ (b ++ c).
Proof. induction a as [|x a IH]; sapp; congruence. Qed.

Lemma app_empty_r (a : string) : a ++ "" = a.
Proof. induction a as [|x a IH]; sapp; congruence. Qed.

Lemma length_app_string (a b : string) :
  String.length (a ++ b) = (String.length a + String.length b)%nat.
Proof. induction a as [|x a IH]; sapp; simpl; congruence. Qed.

Lemma digit_char_digit d :
  0 <= d < 10 -> digit_of 10 (digit_char d) = Some d.
Proof.
  intros Hd.
  assert (Hc : d = 0 \/ d = 1 \/ d = 2 \/ d = 3 \/ d = 4 \/ d = 5 \/ d = 6
               \/ d = 7 \/ d = 8 \/ d = 9) by lia.
  repeat destruct Hc as [->|Hc]; try subst d; reflexivity.
Qed.

Ltac z_compare :=
  repeat match goal with
         | H : (_ <=? _) = true |- _ => apply Z.leb_le in H
         | H : (_ <=? _) = false |- _ => apply Z.leb_gt in H
         | H : (_ <? _) = true |- _ => apply Z.ltb_lt in H
         | H : (_ <? _) = false |- _ => apply Z.ltb_ge in H
         end.

Lemma digit_of_cases c :
  let n := Z.of_N (N_of_ascii c) in
  (48 <= n <= 57 /\ digit_of 10 c = Some (n - 48)) \/
  ((n < 48 \/ 57 < n) /\ digit_of 10 c = None).
Proof.
  intros n. unfold digit_of. fold n.
  destruct (48 <=? n) eqn:H1, (n <=? 57) eqn:H2, (97 <=? n) eqn:H3,
    (n <=? 122) eqn:H4, (65 <=? n) eqn:H5, (n <=? 90) eqn:H6; simpl;
    z_compare;
    try match goal with
        | |- context [if ?b then _ else _] => destruct b eqn:H7
        end; z_compare;
    first [ left; split; [lia|reflexivity]
          | right; split; [lia|reflexivity]
          | exfalso; lia ].
Qed.

Lemma digit_of_range c d : digit_of 10 c = Some d -> 0 <= d < 10.
Proof.
  destruct (digit_of_cases c) as [[Hn ->]|[_ ->]]; [|discriminate].
  intros [= <-]. lia.
Qed.

Lemma is_digit_code c :
  is_digit c = true <-> 48 <= Z.of_N (N_of_ascii c) <= 57.
Proof.
  unfold is_digit.
  destruct (digit_of_cases c) as [[Hn ->]|[Hn ->]]; split;
    try discriminate; try reflexivity; lia.
Qed.

Lemma digits_value_app l1 l2 :
  digits_value 10 (l1 ++ l2)%list
  = digits_value 10 l1 * 10 ^ Z.of_nat (length l2) + digits_value 10 l2.
Proof.
  unfold digits_value. rewrite fold_left_app.
  generalize (fold_left (fun acc d => acc * 10 + d) l1 0). 
  induction l2 as [|d l2 IH]; intros a.
  - simpl. lia.
  - cbn [fold_left length]. rewrite IH.
    rewrite (IH (0 * 10 + d)). rewrite Nat2Z.inj_succ, Z.pow_succ_r by lia.
    ring.
Qed.

Lemma digit_list_app a b :
  digit_list (a ++ b) = (digit_list a ++ digit_list b)%list.
Proof. induction a as [|x a IH]; sapp; simpl; congruence. Qed.

Lemma length_digit_list a : length (digit_list a) = String.length a.
Proof. induction a as [|x a IH]; simpl; congruence. Qed.

Lemma str_value_app a b :
  str_value (a ++ b)
  = str_value a * 10 ^ Z.of_nat (String.length b) + str_value b.
Proof.
  unfold str_value. now rewrite digit_list_app, digits_value_app,
    length_digit_list.
Qed.

Lemma all_digits_app a b :
  all_digits (a ++ b) = all_digits a && all_digits b.
Proof.
  induction a as [|x a IH]; sapp; simpl; [reflexivity|].
  now rewrite IH, andb_assoc.
Qed.

(** The digits of a number. *)
Lemma to_digits_spec fuel z acc :
  0 <= z < 10 ^ Z.of_nat (S fuel) ->
  exists ds, to_digits (S fuel) z acc = ds ++ acc /\
             all_digits ds = true /\ str_value ds = z /\ ds <> "".
Proof.
  revert z acc. induction fuel as [|fuel IH]; intros z acc Hz.
  all: cbn [to_digits].
  all: assert (Hd : 0 <= z mod 10 < 10) by (apply Z.mod_pos_bound; lia).
  all: pose proof (digit_char_digit _ Hd) as Hdc.
  all: destruct (z <? 10) eqn:Hlt.
  1, 3: apply Z.ltb_lt in Hlt; exists (String (digit_char (z mod 10)) "");
    (split; [reflexivity|]); (split; [|split; [|discriminate]]);
    [ simpl; unfold is_digit; now rewrite Hdc
    | unfold str_value; simpl; rewrite Hdc; unfold digits_value; simpl;
      rewrite Z.mod_small; lia ].
  - apply Z.ltb_ge in Hlt. change (10 ^ Z.of_nat 1) with 10 in Hz. lia.
  - apply Z.ltb_ge in Hlt.
    destruct (IH (z / 10) (String (digit_char (z mod 10)) acc))
      as (ds & Hds & Hall & Hval & Hne).
    { rewrite (Nat2Z.inj_succ (S fuel)), Z.pow_succ_r in Hz by lia.
      split; [apply Z.div_pos; lia|].
      apply Z.div_lt_upper_bound; lia. }
    exists (ds ++ String (digit_char (z mod 10)) "").
    rewrite app_assoc_string. split; [exact Hds|].
    split; [|split].
    + rewrite all_digits_app, Hall. simpl. unfold is_digit. now rewrite Hdc.
    + rewrite str_value_app, Hval. unfold str_value at 1. simpl.
      rewrite Hdc. unfold digits_value. simpl.
      rewrite (Z.div_mod z 10) at 3 by lia. lia.
    + destruct ds; [congruence|discriminate].
Qed.

Lemma decimal_string_spec z :
  0 <= z ->
  all_digits (decimal_string z) = true /\
  str_value (decimal_string z) = z /\ decimal_string z <> "".
Proof.
  intros Hz. unfold decimal_string.
  destruct (to_digits_spec (Z.to_nat (Z.log2 z)) z "")
    as (ds & Hds & Hall & Hval & Hne).
  - split; [assumption|].
    rewrite Nat2Z.inj_succ, Z2Nat.id by apply Z.log2_nonneg.
    destruct (Z.eq_dec z 0) as [->|Hnz]; [reflexivity|].
    eapply Z.lt_le_trans; [apply Z.log2_spec; lia|].
    apply Z.pow_le_mono_l. lia.
  - rewrite Hds, app_empty_r. auto.
Qed.

(** *** Reading a decimal literal *)

Lemma span_digits_app ds rest :
  all_digits ds = true ->
  span_digits 10 (ds ++ rest)
  = ((digit_list ds ++ fst (span_digits 10 rest))%list,
     snd (span_digits 10 rest)).
Proof.
  induction ds as [|c ds IH]; sapp; intros Hall.
  - simpl. now destruct (span_digits 10 rest).
  - simpl in Hall. apply andb_true_iff in Hall as [Hc Hall].
    cbn [span_digits digit_list]. unfold is_digit in Hc.
    destruct (digit_of 10 c) as [d|]; [|discriminate].
    rewrite (IH Hall). reflexivity.
Qed.

Lemma span_digits_stops rest :
  stops rest = true -> span_digits 10 rest = ([], rest).
Proof.
  destruct rest as [|c rest]; [reflexivity|]. unfold stops, is_digit.
  cbn [span_digits]. now destruct (digit_of 10 c).
Qed.

Lemma span_digits_all ds rest :
  all_digits ds = true -> stops rest = true ->
  span_digits 10 (ds ++ rest) = (digit_list ds, rest).
Proof.
  intros Hall Hstop. rewrite (span_digits_app _ _ Hall).
  rewrite (span_digits_stops _ Hstop). simpl. now rewrite app_nil_r.
Qed.

Lemma digit_list_nil ds : digit_list ds = [] -> ds = "".
Proof. destruct ds; [reflexivity|discriminate]. Qed.

Lemma is_digit_not_white c : is_digit c = true -> is_white c = false.
Proof.
  rewrite is_digit_code. unfold is_white. intros Hc.
  destruct (N_of_ascii c) as [|p] eqn:Hn; [reflexivity|].
  do 8 (try (destruct p as [p|p|]; try reflexivity; try (simpl in Hc; lia))).
Qed.

Lemma is_digit_neq c (x : ascii) :
  is_digit c = true ->
  (Z.of_N (N_of_ascii x) < 48 \/ 57 < Z.of_N (N_of_ascii x)) ->
  Ascii.eqb c x = false.
Proof.
  rewrite is_digit_code. intros Hc Hx.
  apply Ascii.eqb_neq. intros ->. lia.
Qed.

Lemma exponent_part_text e : exponent_part (exponent_text e) = Some e.
Proof.
  destruct (decimal_string_spec (Z.abs e) (Z.abs_nonneg e))
    as (Hall & Hval & Hne).
  unfold exponent_text, exponent_part. sapp.
  change (all_white (String "e" ?s)) with false. cbn [Ascii.eqb orb].
  change (Ascii.eqb "e" "e") with true. cbn [orb].
  assert (Hspan : span_digits 10 (decimal_string (Z.abs e))
                  = (digit_list (decimal_string (Z.abs e)), "")).
  { rewrite <- (app_empty_r (decimal_string (Z.abs e))) at 1.
    now apply span_digits_all. }
  destruct (e <? 0) eqn:Hs; sapp; cbn [take_sign]; rewrite Hspan;
    (destruct (digit_list (decimal_string (Z.abs e))) eqn:Hl;
     [now apply digit_list_nil in Hl|]);
    rewrite <- Hl; change (all_white "") with true; cbv iota;
    fold (str_value (decimal_string (Z.abs e))); rewrite Hval; f_equal;
    z_compare; lia.
Qed.

Lemma stops_tail fp ex :
  stops (match fp with Some f => "." ++ f | None => "" end
         ++ match ex with Some e => exponent_text e | None => "" end) = true.
Proof. destruct fp, ex; reflexivity. Qed.

Lemma stops_exponent ex :
  stops (match ex with Some e => exponent_text e | None => "" end) = true.
Proof. destruct ex; reflexivity. Qed.

Lemma exponent_part_option ex :
  exponent_part (match ex with Some e => exponent_text e | None => "" end)
  = Some (default 0 ex).
Proof. destruct ex as [e|]; [apply exponent_part_text|reflexivity]. Qed.

Lemma unsigned_decimal_literal ip fp ex :
  all_digits ip = true -> ip <> "" ->
  all_digits (default "" fp) = true ->
  unsigned_decimal (literal ip fp ex)
  = Some (str_value (ip ++ default "" fp),
          default 0 ex - Z.of_nat (String.length (default "" fp))).
Proof.
  intros Hip Hne Hfp. unfold unsigned_decimal, literal.
  rewrite (span_digits_all _ _ Hip (stops_tail fp ex)).
  assert (Hfrac :
    fraction_digits
      (match fp with Some f => "." ++ f | None => "" end
       ++ match ex with Some e => exponent_text e | None => "" end)
    = (digit_list (default "" fp),
       match ex with Some e => exponent_text e | None => "" end)).
  { destruct fp as [f|]; sapp.
    - simpl in Hfp. apply (span_digits_all _ _ Hfp (stops_exponent ex)).
    - destruct ex; reflexivity. }
  rewrite Hfrac.
  destruct (digit_list ip) as [|d l] eqn:Hl;
    [now apply digit_list_nil in Hl|].
  rewrite <- Hl. rewrite exponent_part_option.
  unfold str_value. now rewrite digit_list_app, length_digit_list.
Qed.

Lemma take_sign_plain c s :
  Ascii.eqb c "-" = false -> Ascii.eqb c "+" = false ->
  take_sign (String c s) = (false, String c s).
Proof.
  intros Hm Hp.
  destruct c as [[] [] [] [] [] [] [] []]; try reflexivity; discriminate.
Qed.

Lemma non_decimal_plain c rest :
  match rest with
  | EmptyString => True
  | String c1 _ => radix_letter c1 = false
  end ->
  non_decimal (String c rest) = None.
Proof.
  destruct rest as [|c1 rest].
  - intros _. destruct c as [[] [] [] [] [] [] [] []]; reflexivity.
  - unfold radix_letter. intros Hr.
    repeat (apply orb_false_elim in Hr as [Hr ?]).
    destruct c as [[] [] [] [] [] [] [] []]; try reflexivity.
    unfold non_decimal.
    repeat match goal with H : Ascii.eqb _ _ = false |- _ => rewrite H; clear H
           end.
    reflexivity.
Qed.

Lemma is_digit_plain c : is_digit c = true -> radix_letter c = false.
Proof.
  intros Hc. unfold radix_letter.
  rewrite !(is_digit_neq c) by (assumption || (vm_compute; right; reflexivity)).
  reflexivity.
Qed.

(** [Number] reads a decimal literal as its digits and exponent say. *)
Lemma Number_literal ip fp ex :
  all_digits ip = true -> ip <> "" ->
  all_digits (default "" fp) = true ->
  Number (literal ip fp ex)
  = of_decimal false (str_value (ip ++ default "" fp))
      (default 0 ex - Z.of_nat (String.length (default "" fp))).
Proof.
  intros Hip Hne Hfp.
  pose proof (unsigned_decimal_literal ip fp ex Hip Hne Hfp) as Hu.
  destruct ip as [|c0 ip']; [congruence|].
  assert (Hc0 : is_digit c0 = true)
    by (simpl in Hip; now apply andb_true_iff in Hip as [? _]).
  assert (Hshape : exists t0, literal (String c0 ip') fp ex = String c0 t0 /\
                     match t0 with
                     | EmptyString => True
                     | String c1 _ => radix_letter c1 = false
                     end).
  { unfold literal. sapp. eexists. split; [reflexivity|].
    destruct ip' as [|c1 ip'']; sapp.
    - destruct fp, ex; sapp; try exact I; reflexivity.
    - simpl in Hip. apply andb_true_iff in Hip as [_ Hip].
      apply andb_true_iff in Hip as [Hc1 _]. now apply is_digit_plain. }
  destruct Hshape as (t0 & Ht & Hplain). rewrite Ht in *.
  unfold Number. cbn [trim_start]. rewrite (is_digit_not_white _ Hc0).
  rewrite (non_decimal_plain _ _ Hplain).
  rewrite take_sign_plain
    by (apply is_digit_neq; [assumption|vm_compute; left; reflexivity]).
  assert (Hinf : starts_Infinity (String c0 t0) = None).
  { unfold starts_Infinity. cbn [String.prefix].
    destruct (ascii_dec "I" c0) as [<-|]; [discriminate|reflexivity]. }
  rewrite Hinf, Hu. reflexivity.
Qed.

(** *** Trailing zeros *)

Lemma norm10_mul10 fuel s E :
  0 < s -> norm10 (S fuel) (s * 10) E = norm10 fuel s (E + 1).
Proof.
  intros Hs. cbn [norm10].
  replace (0 <? s * 10) with true by (symmetry; apply Z.ltb_lt; lia).
  rewrite Z.mod_mul by lia. rewrite Z.div_mul by lia. reflexivity.
Qed.

Lemma norm10_pow10 fuel s E j :
  0 < s ->
  norm10 (fuel + j) (s * 10 ^ Z.of_nat j) E = norm10 fuel s (E + Z.of_nat j).
Proof.
  intros Hs. revert E. induction j as [|j IH]; intros E.
  - rewrite Nat.add_0_r, Z.mul_1_r, Z.add_0_r. reflexivity.
  - rewrite Nat.add_succ_r, Nat2Z.inj_succ, Z.pow_succ_r by lia.
    replace (s * (10 * 10 ^ Z.of_nat j)) with (s * 10 ^ Z.of_nat j * 10)
      by ring.
    rewrite norm10_mul10
      by (apply Z.mul_pos_pos; [lia|apply Z.pow_pos_nonneg; lia]).
    rewrite IH. f_equal. lia.
Qed.

Lemma norm10_stable fuel extra s E :
  0 < s < 10 ^ (Z.of_nat fuel + 1) ->
  norm10 (fuel + extra) s E = norm10 fuel s E.
Proof.
  revert s E. induction fuel as [|fuel IH]; intros s E Hs.
  - change (10 ^ (Z.of_nat 0 + 1)) with 10 in Hs.
    destruct extra as [|extra]; [reflexivity|]. cbn [Nat.add norm10].
    replace (s mod 10 =? 0) with false
      by (symmetry; apply Z.eqb_neq; rewrite Z.mod_small; lia).
    now rewrite andb_false_r.
  - cbn [Nat.add norm10].
    destruct ((0 <? s) && (s mod 10 =? 0)) eqn:Ht; [|reflexivity].
    apply IH. rewrite Nat2Z.inj_succ in Hs.
    replace (Z.succ (Z.of_nat fuel) + 1) with (Z.succ (Z.of_nat fuel + 1))
      in Hs by lia.
    rewrite Z.pow_succ_r in Hs by lia.
    apply andb_true_iff in Ht as [_ Ht]. apply Z.eqb_eq in Ht.
    pose proof (Z.div_mod s 10 ltac:(lia)). split; [lia|].
    apply Z.div_lt_upper_bound; lia.
Qed.

Lemma norm10_shift s E (j : nat) :
  0 < s ->
  norm10 (Z.to_nat (Z.log2 (s * 10 ^ Z.of_nat j))) (s * 10 ^ Z.of_nat j) E
  = norm10 (Z.to_nat (Z.log2 s)) s (E + Z.of_nat j).
Proof.
  intros Hs.
  assert (Hp : 0 < 10 ^ Z.of_nat j) by (apply Z.pow_pos_nonneg; lia).
  assert (Hlog : Z.log2 s + Z.of_nat j <= Z.log2 (s * 10 ^ Z.of_nat j)).
  { replace (Z.log2 s + Z.of_nat j) with (Z.log2 (s * 2 ^ Z.of_nat j))
      by (rewrite Z.log2_mul_pow2; lia).
    apply Z.log2_le_mono.
    apply Z.mul_le_mono_nonneg_l; [lia|]. apply Z.pow_le_mono_l. lia. }
  pose proof (Z.log2_nonneg s) as Hl0.
  replace (Z.to_nat (Z.log2 (s * 10 ^ Z.of_nat j)))
    with ((Z.to_nat (Z.log2 s)
           + Z.to_nat (Z.log2 (s * 10 ^ Z.of_nat j) - Z.log2 s - Z.of_nat j))
          + j)%nat by lia.
  rewrite norm10_pow10 by assumption.
  apply norm10_stable. rewrite Z2Nat.id by lia. split; [lia|].
  eapply Z.lt_le_trans; [apply Z.log2_spec; lia|].
  rewrite <- Z.add_1_r. apply Z.pow_le_mono_l. lia.
Qed.

Lemma of_decimal_shift neg s E j :
  0 < s -> 0 <= j ->
  of_decimal neg (s * 10 ^ j) E = of_decimal neg s (E + j).
Proof.
  intros Hs Hj. unfold of_decimal.
  rewrite <- (Z2Nat.id j) by lia. now rewrite norm10_shift.
Qed.

(** *** Laying digits out and reading them back *)

Lemma take_drop n s : take n s ++ drop n s = s.
Proof.
  revert s. induction n as [|n IH]; intros [|c s]; sapp; try reflexivity.
  cbn [take drop]. sapp. now rewrite IH.
Qed.

Lemma length_drop n s :
  String.length (drop n s) = (String.length s - n)%nat.
Proof.
  revert s. induction n as [|n IH]; intros [|c s]; simpl; auto.
Qed.

Lemma all_digits_take n s : all_digits s = true -> all_digits (take n s) = true.
Proof.
  revert s. induction n as [|n IH]; intros [|c s]; simpl; auto.
  intros Hs. apply andb_true_iff in Hs as [-> Hs]. simpl. auto.
Qed.

Lemma all_digits_drop n s : all_digits s = true -> all_digits (drop n s) = true.
Proof.
  revert s. induction n as [|n IH]; intros [|c s]; simpl; auto.
  intros Hs. apply andb_true_iff in Hs as [_ Hs]. auto.
Qed.

Lemma take_not_empty n s : (0 < n)%nat -> s <> "" -> take n s <> "".
Proof. destruct n, s; simpl; try lia; congruence. Qed.

Lemma all_digits_zeros n : all_digits (zeros n) = true.
Proof. induction n; simpl; auto. Qed.

Lemma str_value_zeros n : str_value (zeros n) = 0.
Proof.
  induction n as [|n IH]; [reflexivity|].
  change (zeros (S n)) with ("0" ++ zeros n).
  rewrite str_value_app, IH. reflexivity.
Qed.

Lemma length_zeros n : String.length (zeros n) = n.
Proof. induction n; simpl; congruence. Qed.

Lemma literal_int ip : literal ip None None = ip.
Proof. unfold literal. sapp. apply app_empty_r. Qed.

Lemma literal_frac ip f : literal ip (Some f) None = ip ++ "." ++ f.
Proof. unfold literal. now rewrite app_empty_r. Qed.

Lemma literal_exp ip e :
  literal ip None (Some e)
  = ip ++ "e" ++ (if e <? 0 then "-" else "+") ++ decimal_string (Z.abs e).
Proof. reflexivity. Qed.

Lemma literal_frac_exp ip f e :
  literal ip (Some f) (Some e)
  = ip ++ "." ++ f ++ "e" ++ (if e <? 0 then "-" else "+")
       ++ decimal_string (Z.abs e).
Proof. unfold literal. now rewrite app_assoc_string. Qed.

Lemma Number_layout s n :
  0 < s -> Number (layout s n) = of_decimal false s (n - num_digits s).
Proof.
  intros Hs. unfold layout, num_digits. cbv zeta.
  destruct (decimal_string_spec s ltac:(lia)) as (Hall & Hval & Hne).
  set (ds := decimal_string s) in *.
  set (k := Z.of_nat (String.length ds)).
  assert (Hk : 0 < k).
  { subst k. destruct ds; [congruence|]. simpl. lia. }
  destruct ((-6 <? n) && (n <=? 21)) eqn:Hrange.
  - destruct (k <=? n) eqn:Hkn; [|destruct (0 <? n) eqn:Hn]; z_compare.
    + (* digits, then zeros *)
      rewrite <- (literal_int (ds ++ zeros (Z.to_nat (n - k)))).
      rewrite Number_literal.
      * unfold default, id. rewrite app_empty_r, str_value_app, Hval,
          str_value_zeros, length_zeros, Z.add_0_r.
        rewrite Z2Nat.id by lia. rewrite of_decimal_shift by lia.
        f_equal.
      * now rewrite all_digits_app, Hall, all_digits_zeros.
      * destruct ds; [congruence|discriminate].
      * reflexivity.
    + (* a point inside the digits *)
      rewrite <- (literal_frac (take (Z.to_nat n) ds) (drop (Z.to_nat n) ds)).
      rewrite Number_literal.
      * unfold default, id. rewrite take_drop, Hval, length_drop.
        f_equal. subst k. lia.
      * now apply all_digits_take.
      * apply take_not_empty; [lia|assumption].
      * unfold default, id. now apply all_digits_drop.
    + (* zeros after the point, then the digits *)
      change ("0." ++ zeros (Z.to_nat (- n)) ++ ds)
        with ("0" ++ "." ++ zeros (Z.to_nat (- n)) ++ ds).
      rewrite <- (literal_frac "0" (zeros (Z.to_nat (- n)) ++ ds)).
      rewrite Number_literal.
      * unfold default, id.
        rewrite str_value_app, str_value_app, Hval, str_value_zeros,
          !length_app_string, length_zeros.
        change (str_value "0") with 0. f_equal. subst k. lia.
      * reflexivity.
      * discriminate.
      * unfold default, id. rewrite all_digits_app, all_digits_zeros.
        exact Hall.
  - destruct (k =? 1) eqn:Hk1.
    + apply Z.eqb_eq in Hk1.
      rewrite <- (literal_exp ds (n - 1)).
      rewrite Number_literal; try assumption; [|reflexivity].
      unfold default, id. rewrite app_empty_r, Hval. f_equal. simpl. lia.
    + apply Z.eqb_neq in Hk1.
      rewrite <- (literal_frac_exp (take 1 ds) (drop 1 ds) (n - 1)).
      rewrite Number_literal.
      * unfold default, id. rewrite take_drop, Hval, length_drop.
        f_equal. subst k. lia.
      * now apply all_digits_take.
      * apply take_not_empty; [lia|assumption].
      * unfold default, id. now apply all_digits_drop.
Qed.

(** *** The search for the shortest digits succeeds *)

Lemma to_digits_length fuel z acc :
  0 <= z < 10 ^ Z.of_nat (S fuel) ->
  exists ds, to_digits (S fuel) z acc = ds ++ acc /\
             z < 10 ^ Z.of_nat (String.length ds) /\
             (0 < z -> 10 ^ (Z.of_nat (String.length ds) - 1) <= z).
Proof.
  revert z acc. induction fuel as [|fuel IH]; intros z acc Hz.
  all: cbn [to_digits].
  all: destruct (z <? 10) eqn:Hlt.
  1, 3: apply Z.ltb_lt in Hlt; exists (String (digit_char (z mod 10)) "");
    (split; [reflexivity|]); simpl; lia.
  - apply Z.ltb_ge in Hlt. change (10 ^ Z.of_nat 1) with 10 in Hz. lia.
  - apply Z.ltb_ge in Hlt.
    destruct (IH (z / 10) (String (digit_char (z mod 10)) acc))
      as (ds & Hds & Hup & Hlow).
    { rewrite (Nat2Z.inj_succ (S fuel)), Z.pow_succ_r in Hz by lia.
      split; [apply Z.div_pos; lia|].
      apply Z.div_lt_upper_bound; lia. }
    exists (ds ++ String (digit_char (z mod 10)) "").
    rewrite app_assoc_string. split; [exact Hds|].
    rewrite length_app_string. simpl String.length.
    rewrite Nat2Z.inj_add. change (Z.of_nat 1) with 1.
    pose proof (Z.div_mod z 10 ltac:(lia)) as Hdm.
    pose proof (Z.mod_pos_bound z 10 ltac:(lia)) as Hmod.
    assert (Hq : 0 < z / 10) by (apply Z.div_str_pos; lia).
    specialize (Hlow Hq).
    assert (Hlen : 0 < Z.of_nat (String.length ds)).
    { destruct ds; simpl in *; lia. }
    split.
    + rewrite Z.pow_add_r by lia. change (10 ^ 1) with 10. lia.
    + intros _.
      replace (Z.of_nat (String.length ds) + 1 - 1)
        with (Z.succ (Z.of_nat (String.length ds) - 1)) by lia.
      rewrite Z.pow_succ_r by lia. lia.
Qed.

Lemma num_digits_bounds z :
  0 < z -> 10 ^ (num_digits z - 1) <= z < 10 ^ num_digits z.
Proof.
  intros Hz. unfold num_digits, decimal_string.
  destruct (to_digits_length (Z.to_nat (Z.log2 z)) z "")
    as (ds & Hds & Hup & Hlow).
  - split; [lia|].
    rewrite Nat2Z.inj_succ, Z2Nat.id by apply Z.log2_nonneg.
    eapply Z.lt_le_trans; [apply Z.log2_spec; lia|].
    apply Z.pow_le_mono_l. lia.
  - rewrite Hds, app_empty_r. auto.
Qed.

Lemma bounded_range m e :
  bounded prec emax m e = true -> -1074 <= e <= 971 /\ Zpos m < 2 ^ 53.
Proof.
  intros Hb. destruct (bounded_canonical m e Hb) as [Hc He].
  unfold fexp, emin, prec, emax in *.
  pose proof (Zdigits2_bounds (Zpos m) eq_refl) as [_ Hm]. simpl in Hm.
  split; [lia|].
  eapply Z.lt_le_trans; [exact Hm|]. apply Z.pow_le_mono_r; lia.
Qed.

Lemma norm10_le fuel M E : 0 < M -> fst (norm10 fuel M E) <= M.
Proof.
  revert M E. induction fuel as [|fuel IH]; simpl; intros M E HM; [lia|].
  destruct ((0 <? M) && (M mod 10 =? 0)) eqn:Ht; [|simpl; lia].
  apply andb_true_iff in Ht as [_ Ht]. apply Z.eqb_eq in Ht.
  pose proof (Z.div_mod M 10 ltac:(lia)).
  etransitivity; [apply IH; lia|]. lia.
Qed.

Lemma exact_decimal_small m e :
  bounded prec emax m e = true -> fst (exact_decimal m e) < 10 ^ 800.
Proof.
  intros Hb. destruct (bounded_range m e Hb) as [He Hm].
  unfold exact_decimal. destruct (0 <=? e) eqn:Hs; z_compare.
  - assert (H2 : 0 < 2 ^ e) by (apply Z.pow_pos_nonneg; lia).
    eapply Z.le_lt_trans; [apply norm10_le; nia|].
    apply (Z.lt_le_trans _ (2 ^ 53 * 2 ^ 971)).
    + apply (Z.le_lt_trans _ (Zpos m * 2 ^ 971)).
      * apply Z.mul_le_mono_nonneg_l; [lia|]. apply Z.pow_le_mono_r; lia.
      * apply Z.mul_lt_mono_pos_r; [reflexivity|assumption].
    + vm_compute. discriminate.
  - assert (H5 : 0 < 5 ^ (- e)) by (apply Z.pow_pos_nonneg; lia).
    eapply Z.le_lt_trans; [apply norm10_le; nia|].
    apply (Z.lt_le_trans _ (2 ^ 53 * 5 ^ 1074)).
    + apply (Z.le_lt_trans _ (Zpos m * 5 ^ 1074)).
      * apply Z.mul_le_mono_nonneg_l; [lia|]. apply Z.pow_le_mono_r; lia.
      * apply Z.mul_lt_mono_pos_r; [reflexivity|assumption].
    + vm_compute. discriminate.
Qed.

(** At the length of the exact expansion, the exact digits are found. *)
Lemma shortest_at_exact m e :
  bounded prec emax m e = true ->
  let x := S754_finite false m e in
  let p := if 0 <=? e then Zpos m * 2 ^ e else Zpos m in
  let q := if 0 <=? e then 1 else 2 ^ (- e) in
  let s := fst (exact_decimal m e) in
  let n0 := num_digits s + snd (exact_decimal m e) in
  shortest_at x p q n0 (num_digits s) <> None.
Proof.
  intros Hb x p q s n0.
  destruct (exact_decimal_same_value m e) as [Hs Hv].
  fold s in Hs, Hv. set (E := snd (exact_decimal m e)) in *.
  assert (Hpq : p * 10 ^ Z.max (- E) 0 = s * 10 ^ Z.max E 0 * q).
  { unfold same_value in Hv. subst p q.
    destruct (0 <=? e) eqn:He; z_compare.
    - rewrite (Z.max_l e 0), (Z.max_r (- e) 0) in Hv by lia.
      rewrite Z.pow_0_r in Hv. rewrite <- Hv. ring.
    - rewrite (Z.max_r e 0), (Z.max_l (- e) 0) in Hv by lia.
      rewrite Z.pow_0_r in Hv. rewrite Hv. ring. }
  assert (Hq : 0 < q).
  { subst q. destruct (0 <=? e) eqn:He; z_compare; [lia|].
    apply Z.pow_pos_nonneg; lia. }
  assert (Hlo : denotes x s n0 = true).
  { unfold denotes. apply number_eqb_eq. subst n0.
    replace (num_digits s + E - num_digits s) with E by lia.
    now apply of_decimal_exact. }
  unfold shortest_at.
  replace (num_digits s - n0) with (- E) by (subst n0; lia).
  replace (n0 - num_digits s) with E by (subst n0; lia).
  assert (Hdiv : (let '(num, den) :=
                    if 0 <=? - E then (p * 10 ^ (- E), q)
                    else (p, q * 10 ^ E) in num / den) = s).
  { destruct (0 <=? - E) eqn:HE; z_compare.
    - rewrite (Z.max_l (- E) 0), (Z.max_r E 0) in Hpq by lia.
      rewrite Z.pow_0_r in Hpq. rewrite Hpq.
      replace (s * 1 * q) with (s * q) by ring. apply Z.div_mul. lia.
    - rewrite (Z.max_r (- E) 0), (Z.max_l E 0) in Hpq by lia.
      rewrite Z.pow_0_r in Hpq.
      assert (0 < 10 ^ E) by (apply Z.pow_pos_nonneg; lia).
      replace p with (s * (q * 10 ^ E))
        by (rewrite <- (Z.mul_1_r p), Hpq; ring).
      apply Z.div_mul. apply Z.neq_mul_0. lia. }
  destruct (if 0 <=? - E then (p * 10 ^ (- E), q) else (p, q * 10 ^ E))
    as [num den].
  rewrite Hdiv.
  destruct (s + 1 <? 10 ^ num_digits s); rewrite Hlo;
    match goal with
    | |- context [denotes x ?hi ?hn] => destruct (denotes x hi hn)
    end;
    repeat match goal with
    | |- context [match ?c with Eq => _ | Lt => _ | Gt => _ end] => destruct c
    | |- context [if Z.even ?z then _ else _] => destruct (Z.even z)
    end; discriminate.
Qed.

Lemma shortest_found fuel x p q n0 k exact k' :
  k <= k' < k + Z.of_nat fuel ->
  shortest_at x p q n0 k' <> None ->
  exists j, k <= j <= k' /\
            shortest_at x p q n0 j = Some (shortest fuel x p q n0 k exact).
Proof.
  revert k. induction fuel as [|fuel IH]; intros k Hk Hfound; [lia|].
  cbn [shortest].
  destruct (shortest_at x p q n0 k) as [sn|] eqn:Hat.
  - exists k. split; [lia|assumption].
  - destruct (Z.eq_dec k k') as [->|Hne]; [congruence|].
    destruct (IH (k + 1)) as (j & Hj & Hsome); [lia|assumption|].
    exists j. split; [lia|assumption].
Qed.

(** The digits of [digits_of] are those the search finds at some length:
    the exact expansion is never what stops the search. *)
Lemma digits_of_found m e :
  bounded prec emax m e = true ->
  exists p q n0 k,
    1 <= k <= 800 /\
    shortest_at (S754_finite false m e) p q n0 k = Some (digits_of m e).
Proof.
  intros Hb.
  pose proof (shortest_at_exact m e Hb) as Hexact. cbv zeta in Hexact.
  pose proof (exact_decimal_small m e Hb) as Hsmall.
  destruct (exact_decimal_same_value m e) as [Hs _].
  pose proof (num_digits_bounds _ Hs) as [Hlow _].
  assert (Hk : 1 <= num_digits (fst (exact_decimal m e)) <= 800).
  { split.
    - unfold num_digits.
      destruct (decimal_string_spec (fst (exact_decimal m e)) ltac:(lia))
        as (_ & _ & Hne).
      destruct (decimal_string _); [congruence|]. simpl. lia.
    - assert (H : 10 ^ (num_digits (fst (exact_decimal m e)) - 1) < 10 ^ 800)
        by lia.
      apply Z.pow_lt_mono_r_iff in H; lia. }
  unfold digits_of.
  destruct (exact_decimal m e) as [s E]. cbn [fst snd] in *.
  destruct (0 <=? e);
    match goal with
    | |- context [shortest 800 ?x ?p ?q ?n0 1 ?ex] =>
        destruct (shortest_found 800 x p q n0 1 ex (num_digits s))
          as (j & Hj & Hsome); [lia|assumption|];
        exists p, q, n0, j; split; [lia|exact Hsome]
    end.
Qed.

(** *** A number printed and read back *)

Lemma Number_toString_finite m e :
  bounded prec emax m e = true ->
  Number (toString (S754_finite false m e)) = S754_finite false m e.
Proof.
  intros Hb. unfold toString.
  pose proof (digits_of_denotes m e Hb) as Hd.
  destruct (digits_of m e) as [s n]. simpl in Hd. sapp.
  rewrite Number_layout by (eapply denotes_positive, Hd).
  apply number_eqb_eq, Hd.
Qed.

Lemma Number_toString_positive x :
  is_number x = true -> gt x pos_zero = true -> Number (toString x) = x.
Proof.
  destruct x as [s|[]| |[] m e]; try discriminate.
  - reflexivity.
  - intros Hb _. now apply Number_toString_finite.
Qed.

Lemma Number_toString_fee x :
  is_number x = true -> le pos_zero x = true -> le x (of_Z 100) = true ->
  Number (toString x) = unsigned_zero x.
Proof.
  destruct x as [s|[]| |[] m e]; try discriminate.
  - reflexivity.
  - intros Hb _ _. now apply Number_toString_finite.
Qed.

(** *** No colon in a printed number *)

Lemma all_chars_app P a b :
  all_chars P (a ++ b) = all_chars P a && all_chars P b.
Proof.
  induction a as [|x a IH]; sapp; simpl; [reflexivity|].
  now rewrite IH, andb_assoc.
Qed.

Lemma all_chars_impl (P Q : ascii -> bool) s :
  (forall c, P c = true -> Q c = true) ->
  all_chars P s = true -> all_chars Q s = true.
Proof.
  intros HPQ. induction s as [|c s IH]; simpl; [reflexivity|].
  intros Hs. apply andb_true_iff in Hs as [Hc Hs].
  now rewrite (HPQ c Hc), IH.
Qed.

Lemma all_digits_chars s : all_digits s = all_chars is_digit s.
Proof. induction s as [|c s IH]; simpl; congruence. Qed.

Lemma literal_char_not_colon c :
  literal_char c = true -> negb (Ascii.eqb c ":") = true.
Proof.
  unfold literal_char. intros Hc.
  destruct (Ascii.eqb c ":") eqn:E; [|reflexivity].
  apply Ascii.eqb_eq in E. subst c. discriminate.
Qed.

Lemma to_digits_chars fuel z acc :
  exists ds, to_digits fuel z acc = ds ++ acc /\ all_digits ds = true.
Proof.
  revert z acc. induction fuel as [|fuel IH]; intros z acc.
  - now exists "".
  - cbn [to_digits].
    assert (Hd : 0 <= z mod 10 < 10) by (apply Z.mod_pos_bound; lia).
    pose proof (digit_char_digit _ Hd) as Hdc.
    assert (Hdig : is_digit (digit_char (z mod 10)) = true)
      by (unfold is_digit; now rewrite Hdc).
    destruct (z <? 10).
    + exists (String (digit_char (z mod 10)) ""). split; [reflexivity|].
      simpl. now rewrite Hdig.
    + destruct (IH (z / 10) (String (digit_char (z mod 10)) acc))
        as (ds & -> & Hall).
      exists (ds ++ String (digit_char (z mod 10)) "").
      rewrite app_assoc_string. split; [reflexivity|].
      rewrite all_digits_app, Hall. simpl. now rewrite Hdig.
Qed.

Lemma decimal_string_chars z :
  all_chars literal_char (decimal_string z) = true.
Proof.
  unfold decimal_string.
  destruct (to_digits_chars (S (Z.to_nat (Z.log2 z))) z "") as (ds & -> & Hall).
  rewrite app_empty_r. rewrite all_digits_chars in Hall.
  eapply all_chars_impl; [|exact Hall].
  intros c Hc. unfold literal_char. now rewrite Hc.
Qed.

Lemma all_chars_take P n s :
  all_chars P s = true -> all_chars P (take n s) = true.
Proof.
  revert s. induction n as [|n IH]; intros [|c s]; simpl; auto.
  intros Hs. apply andb_true_iff in Hs as [-> Hs]. simpl. auto.
Qed.

Lemma all_chars_drop P n s :
  all_chars P s = true -> all_chars P (drop n s) = true.
Proof.
  revert s. induction n as [|n IH]; intros [|c s]; simpl; auto.
  intros Hs. apply andb_true_iff in Hs as [_ Hs]. auto.
Qed.

Lemma zeros_chars n : all_chars literal_char (zeros n) = true.
Proof. induction n; simpl; auto. Qed.

Lemma layout_chars s n : all_chars literal_char (layout s n) = true.
Proof.
  unfold layout. cbv zeta.
  pose proof (decimal_string_chars s) as Hds.
  pose proof (decimal_string_chars (Z.abs (n - 1))) as Hex.
  repeat match goal with
         | |- context [if ?b then _ else _] => destruct b
         end;
    rewrite ?all_chars_app, ?Hds, ?Hex, ?zeros_chars,
      ?(all_chars_take _ _ _ Hds), ?(all_chars_drop _ _ _ Hds);
    reflexivity.
Qed.

Lemma toString_no_colon x : no_colon (toString x) = true.
Proof.
  destruct x as [s|[]| |neg m e]; try reflexivity.
  unfold toString. destruct (digits_of m e) as [s n].
  unfold no_colon. rewrite all_chars_app. apply andb_true_iff. split.
  - now destruct neg.
  - eapply all_chars_impl; [apply literal_char_not_colon|apply layout_chars].
Qed.

(** *** Splitting what the encoders join *)

Lemma split_no_colon a : no_colon a = true -> split ":" a = [a].
Proof.
  induction a as [|c a IH]; [reflexivity|].
  unfold no_colon. simpl. intros Ha. apply andb_true_iff in Ha as [Hc Ha].
  apply negb_true_iff in Hc. rewrite Hc. now rewrite (IH Ha).
Qed.

Lemma split_app a b :
  no_colon a = true -> split ":" (a ++ ":" ++ b) = a :: split ":" b.
Proof.
  induction a as [|c a IH]; sapp.
  - reflexivity.
  - unfold no_colon. simpl. intros Ha. apply andb_true_iff in Ha as [Hc Ha].
    apply negb_true_iff in Hc. rewrite Hc. now rewrite (IH Ha).
Qed.

(** *** Comparisons *)

Lemma SFcompare_antisym x y :
  SFcompare y x = option_map CompOpp (SFcompare x y).
Proof.
  destruct x as [s|s| |s m e], y as [s'|s'| |s' m' e']; simpl;
    try reflexivity;
    try (destruct s; reflexivity);
    try (destruct s'; reflexivity);
    try (destruct s, s'; reflexivity).
  destruct s, s'; simpl; try reflexivity;
    rewrite (Z.compare_antisym e' e);
    destruct (e' ?= e); simpl; try reflexivity;
    rewrite (Pos.compare_cont_antisym m m' Eq); simpl;
    now destruct (Pos.compare_cont Eq m m').
Qed.

Lemma gt_not_le x y : gt x y = true -> le x y = false.
Proof.
  unfold gt, le, SFltb, SFleb. rewrite (SFcompare_antisym x y).
  now destruct (SFcompare x y) as [[]|].
Qed.

Lemma le_not_gt x y : le x y = true -> gt x y = false.
Proof.
  unfold gt, le, SFltb, SFleb. rewrite (SFcompare_antisym x y).
  now destruct (SFcompare x y) as [[]|].
Qed.

Lemma le_not_lt x y : le x y = true -> lt y x = false.
Proof. apply le_not_gt. Qed.

Lemma gt_above_positive x y :
  gt x pos_zero = true -> gt y x = true -> gt y pos_zero = true.
Proof.
  destruct x as [s|[]| |[] m e]; try discriminate;
    destruct y as [s'|[]| |[] m' e']; try discriminate; reflexivity.
Qed.

(** *** Claim on the two encoders *)

(** C9, as stated, fails: the encoder accepts a fee of [-0], writes it as
    [0], and the decoder reads [+0], which is not the original value. *)
Lemma C9_negative_zero_fee_reads_back_positive :
  exists memo listingMemo,
    createListing negative_zero_fee = Ok memo /\
    parseListingMemo memo = Some listingMemo /\
    le pos_zero (ListingParams.feePercentage negative_zero_fee) = true /\
    le (ListingParams.feePercentage negative_zero_fee) (of_Z 100) = true /\
    ListingMemo.feePercentage listingMemo = pos_zero /\
    ListingMemo.feePercentage listingMemo
    <> ListingParams.feePercentage negative_zero_fee.
Proof.
  exists "TB:thor1node:thor1op:100:10000:0". eexists.
  split; [vm_compute; reflexivity|].
  split; [vm_compute; reflexivity|].
  repeat split; try (vm_compute; reflexivity). discriminate.
Qed.

(** C9, amended: for listing parameters with [thor1] addresses without a
    colon, [minRune > 0], [maxRune > minRune] and [0 <= feePercentage <=
    100], [createListing] returns a memo that [parseListingMemo] decodes to
    the same addresses and the same [minRune] and [maxRune], and to the
    same [feePercentage] but for a fee of [-0], read back as [+0]; for
    request parameters with such addresses and an amount above 0,
    [createWhitelistRequest] returns a memo that decodes to the same three
    values. *)
Theorem C9_encode_then_decode :
  (forall params,
     startsWith (ListingParams.nodeAddress params) "thor1" = true ->
     startsWith (ListingParams.operatorAddress params) "thor1" = true ->
     no_colon (ListingParams.nodeAddress params) = true ->
     no_colon (ListingParams.operatorAddress params) = true ->
     is_number (ListingParams.minRune params) = true ->
     is_number (ListingParams.maxRune params) = true ->
     is_number (ListingParams.feePercentage params) = true ->
     gt (ListingParams.minRune params) pos_zero = true ->
     gt (ListingParams.maxRune params) (ListingParams.minRune params) = true ->
     le pos_zero (ListingParams.feePercentage params) = true ->
     le (ListingParams.feePercentage params) (of_Z 100) = true ->
     exists memo,
       createListing params = Ok memo /\
       parseListingMemo memo =
         Some {| ListingMemo.nodeAddress := ListingParams.nodeAddress params;
                 ListingMemo.operatorAddress :=
                   ListingParams.operatorAddress params;
                 ListingMemo.minRune := ListingParams.minRune params;
                 ListingMemo.maxRune := ListingParams.maxRune params;
                 ListingMemo.feePercentage :=
                   unsigned_zero (ListingParams.feePercentage params) |}) /\
  (forall params,
     startsWith (WhitelistRequestParams.nodeAddress params) "thor1" = true ->
     startsWith (WhitelistRequestParams.userAddress params) "thor1" = true ->
     no_colon (WhitelistRequestParams.nodeAddress params) = true ->
     no_colon (WhitelistRequestParams.userAddress params) = true ->
     is_number (WhitelistRequestParams.amount params) = true ->
     gt (WhitelistRequestParams.amount params) pos_zero = true ->
     exists memo,
       createWhitelistRequest params = Ok memo /\
       parseWhitelistMemo memo = Some params).
Proof.
  split.
  - intros [node op minRune maxRune fee]. simpl.
    intros Hn Ho Hcn Hco Vmin Vmax Vfee Hmin Hmax Hfee0 Hfee100.
    unfold createListing. simpl.
    rewrite Hn, Ho. simpl.
    rewrite (gt_not_le _ _ Hmin), (gt_not_le _ _ Hmax).
    rewrite (le_not_lt _ _ Hfee0), (le_not_gt _ _ Hfee100). simpl.
    eexists. split; [reflexivity|].
    unfold parseListingMemo.
    change ("TB:" ++ ?r) with ("TB" ++ ":" ++ r).
    rewrite !split_app
      by (assumption || reflexivity || apply toString_no_colon).
    rewrite split_no_colon by apply toString_no_colon.
    simpl.
    rewrite (Number_toString_positive _ Vmin Hmin).
    rewrite (Number_toString_positive _ Vmax
               (gt_above_positive _ _ Hmin Hmax)).
    rewrite (Number_toString_fee _ Vfee Hfee0 Hfee100).
    reflexivity.
  - intros [node user amount]. simpl.
    intros Hn Hu Hcn Hcu Vamount Hamount.
    unfold createWhitelistRequest. simpl.
    rewrite Hn, Hu. simpl. rewrite (gt_not_le _ _ Hamount).
    eexists. split; [reflexivity|].
    unfold parseWhitelistMemo.
    change ("TB:" ++ ?r) with ("TB" ++ ":" ++ r).
    rewrite !split_app by (assumption || reflexivity).
    rewrite split_no_colon by apply toString_no_colon.
    simpl. rewrite Hn, Hu. simpl.
    rewrite (Number_toString_positive _ Vamount Hamount).
    apply positive_amount in Hamount as [-> Hle]. simpl.
    now rewrite Hle.
Qed.

Lemma C9_encode_then_decode_witness :
  (exists memo,
     createListing usual_listing = Ok memo /\
     parseListingMemo memo =
       Some {| ListingMemo.nodeAddress := "thor1node";
               ListingMemo.operatorAddress := "thor1op";
               ListingMemo.minRune := Number "0.1";
               ListingMemo.maxRune := Number "1e21";
               ListingMemo.feePercentage := Number "2.5" |}) /\
  (exists memo,
     createWhitelistRequest usual_request = Ok memo /\
     parseWhitelistMemo memo = Some usual_request).
Proof.
  split.
  - apply (proj1 C9_encode_then_decode usual_listing); vm_compute; reflexivity.
  - apply (proj2 C9_encode_then_decode usual_request); vm_compute; reflexivity.
Defined.


(** ** Part VI. Further properties of the engine *)

(** *** The registry *)

Lemma getNodes_fold_sound actions state node :
  node ∈ fst (fold_left getNodes_step actions state) ->
  node ∈ fst state \/
  exists action listingMemo,
    action ∈ actions /\ listing_of action = Some listingMemo /\
    node = node_of_listing listingMemo action.
Proof.
  revert state. induction actions as [|a l IH]; simpl; intros state Hin.
  - now left.
  - apply IH in Hin as [Hin|(action & lm & Hact & Hlm & ->)].
    + destruct (getNodes_step_cases state a)
        as [[Heq _]|(lm & Hlm & _ & Heq)]; rewrite Heq in Hin.
      * now left.
      * simpl in Hin. apply elem_of_app in Hin as [Hin|Hin]; [now left|].
        apply list_elem_of_singleton in Hin. right. exists a, lm.
        split; [apply elem_of_cons; now left|auto].
    + right. exists action, lm. split; [apply elem_of_cons; now right|auto].
Qed.

Lemma getNodes_fold_length actions state :
  (length (fst (fold_left getNodes_step actions state))
   <= length (fst state) + length actions)%nat.
Proof.
  revert state. induction actions as [|a l IH]; simpl; intros state; [lia|].
  etransitivity; [apply IH|].
  destruct (getNodes_step_cases state a) as [[-> _]|(lm & _ & _ & ->)];
    simpl; rewrite ?length_app; simpl; lia.
Qed.

Lemma getNodes_fold_prefix actions state :
  exists more,
    fst (fold_left getNodes_step actions state) = (fst state ++ more)%list.
Proof.
  revert state. induction actions as [|a l IH]; simpl; intros state.
  - exists []. now rewrite app_nil_r.
  - destruct (IH (getNodes_step state a)) as (more & ->).
    destruct (getNodes_step_cases state a) as [[-> _]|(lm & _ & _ & ->)].
    + now exists more.
    + simpl. rewrite <- app_assoc. eauto.
Qed.

Lemma getNodes_fold_filter actions state :
  fold_left getNodes_step (List.filter carries_listing actions) state
  = fold_left getNodes_step actions state.
Proof.
  revert state. induction actions as [|a l IH]; simpl; intros state;
    [reflexivity|].
  unfold carries_listing at 1.
  destruct (listing_of a) as [lm|] eqn:Hlm; simpl; [apply IH|].
  rewrite IH. f_equal.
  destruct (getNodes_step_cases state a)
    as [[-> _]|(lm & Hlm' & _ & _)]; congruence.
Qed.

(** Among the actions that list an address there is a first one. *)
Lemma first_to_list_exists actions action listingMemo :
  action ∈ actions -> listing_of action = Some listingMemo ->
  exists action' listingMemo',
    first_to_list actions action' listingMemo' /\
    ListingMemo.nodeAddress listingMemo'
    = ListingMemo.nodeAddress listingMemo.
Proof.
  induction actions as [|a l IH]; intros Hin Hlm.
  - now apply elem_of_nil in Hin.
  - destruct (listing_of a) as [lma|] eqn:Ha.
    + destruct (String.eqb_spec (ListingMemo.nodeAddress lma)
                  (ListingMemo.nodeAddress listingMemo)) as [Heq|Hne].
      * exists a, lma. split; [|exact Heq].
        exists [], l. split; [reflexivity|]. split; [exact Ha|].
        intros b lm' Hb. now apply elem_of_nil in Hb.
      * apply elem_of_cons in Hin as [->|Hin]; [congruence|].
        destruct (IH Hin Hlm)
          as (a' & lm' & (before & after & -> & Hlm' & Hfirst) & Haddr).
        exists a', lm'. split; [|exact Haddr].
        exists (a :: before), after. split; [reflexivity|].
        split; [exact Hlm'|].
        intros b lmb Hb Hlmb. apply elem_of_cons in Hb as [->|Hb].
        -- rewrite Ha in Hlmb. injection Hlmb as <-. congruence.
        -- now apply (Hfirst b).
    + apply elem_of_cons in Hin as [->|Hin]; [congruence|].
      destruct (IH Hin Hlm)
        as (a' & lm' & (before & after & -> & Hlm' & Hfirst) & Haddr).
      exists a', lm'. split; [|exact Haddr].
      exists (a :: before), after. split; [reflexivity|].
      split; [exact Hlm'|].
      intros b lmb Hb Hlmb. apply elem_of_cons in Hb as [->|Hb].
      * congruence.
      * now apply (Hfirst b).
Qed.

(** Every Node of the registry is the Node of the first action that lists
    its address. *)
Lemma getNodes_from_first_listing this nodes node :
  getNodes this = Ok nodes -> node ∈ nodes ->
  exists action listingMemo,
    first_to_list (actions this) action listingMemo /\
    node = node_of_listing listingMemo action.
Proof.
  intros Hget Hnode. pose proof Hget as Hget'.
  apply getNodes_Ok in Hget' as [_ Heq].
  assert (Hnd : NoDup (map Node.address nodes)).
  { rewrite Heq. apply (getNodes_fold_inv _ _ registry_inv_init). }
  pose proof Hnode as Hsound. rewrite Heq in Hsound.
  apply getNodes_fold_sound in Hsound
    as [Hnil|(a & lm & Ha & Hlm & Hnode_eq)];
    [now apply elem_of_nil in Hnil|].
  destruct (first_to_list_exists _ _ _ Ha Hlm)
    as (a' & lm' & Hfirst & Haddr).
  exists a', lm'. split; [exact Hfirst|].
  destruct Hfirst as (before & after & Hacts & Hlm' & Hnone).
  pose proof (getNodes_first_listing _ _ _ _ _ _ Hget Hacts Hlm' Hnone)
    as Hin'.
  eapply NoDup_map_inj; eauto. subst node. simpl. congruence.
Qed.

(** X1: every Node of the registry is the Node of the first action of the
    feed that lists its address, and the registry has no more Nodes than
    the feed has actions. *)
Theorem registry_nodes_come_from_first_listings this nodes :
  getNodes this = Ok nodes ->
  (length nodes <= length (actions this))%nat /\
  forall node, node ∈ nodes ->
    exists action listingMemo,
      first_to_list (actions this) action listingMemo /\
      node = node_of_listing listingMemo action.
Proof.
  intros Hget. split.
  - pose proof Hget as Hget'. apply getNodes_Ok in Hget' as [_ ->].
    apply (getNodes_fold_length (actions this) ([], ∅)).
  - intros node Hnode. eapply getNodes_from_first_listing; eauto.
Qed.

Lemma registry_nodes_come_from_first_listings_witness :
  exists nodes,
    getNodes relisted_engine = Ok nodes /\
    (length nodes <= 2)%nat /\
    forall node, node ∈ nodes ->
      exists action listingMemo,
        first_to_list (actions relisted_engine) action listingMemo /\
        node = node_of_listing listingMemo action.
Proof.
  destruct (getNodes relisted_engine) as [nodes|] eqn:Hget; [|discriminate].
  exists nodes. split; [reflexivity|].
  exact (registry_nodes_come_from_first_listings relisted_engine nodes Hget).
Defined.

(** X2: only the actions that carry a listing matter to the registry:
    [getNodes] returns the same for the feed and for the feed without the
    other actions. *)
Theorem registry_ignores_other_actions this :
  getNodes {| actions := List.filter carries_listing (actions this);
              isInitialized := isInitialized this |}
  = getNodes this.
Proof.
  unfold getNodes. simpl. destruct (isInitialized this); simpl; [|reflexivity].
  now rewrite getNodes_fold_filter.
Qed.

(** X3: actions added at the end of the feed leave the Nodes of the registry
    as they are and in place; they can only add Nodes after them. *)
Theorem registry_grows_at_the_end this nodes more :
  getNodes this = Ok nodes ->
  exists added,
    getNodes {| actions := (actions this ++ more)%list;
                isInitialized := isInitialized this |}
    = Ok (nodes ++ added)%list.
Proof.
  intros Hget. apply getNodes_Ok in Hget as [Hinit ->].
  unfold getNodes. simpl. rewrite Hinit. simpl.
  rewrite fold_left_app.
  destruct (getNodes_fold_prefix more
              (fold_left getNodes_step (actions this) ([], ∅)))
    as (added & ->).
  now exists added.
Qed.

Lemma registry_grows_at_the_end_witness :
  exists nodes added,
    getNodes scenario_engine = Ok nodes /\
    getNodes {| actions := (actions scenario_engine
                            ++ [second_listing; orphan_request])%list;
                isInitialized := true |}
    = Ok (nodes ++ added)%list.
Proof.
  destruct (getNodes scenario_engine) as [nodes|] eqn:Hget; [|discriminate].
  destruct (registry_grows_at_the_end scenario_engine nodes
              [second_listing; orphan_request] Hget) as (added & Hmore).
  exists nodes, added. split; [reflexivity|exact Hmore].
Defined.

(** X4: no memo is both a listing and a whitelist request: the action of a
    listing is passed over by the loop of [getWhitelistRequests], and the
    action of a whitelist request by the loop of [getNodes]. *)
Theorem memo_kinds_are_disjoint action :
  (listing_of action = None \/ request_of action = None) /\
  (listing_of action <> None ->
   forall (World : Type) (network : Network World) this connectedAddress
          requests (w : World),
     getWhitelistRequests_body this connectedAddress action requests w
     = (Ok requests, w)) /\
  (request_of action <> None ->
   forall state, getNodes_step state action = state).
Proof.
  assert (Hdisj : listing_of action = None \/ request_of action = None).
  { unfold listing_of, request_of.
    destruct (truthy (memo_of action)) as [memo|]; [|now left].
    destruct (parseListingMemo memo) as [lm|] eqn:Hl; [|now left].
    destruct (parseWhitelistMemo memo) as [rq|] eqn:Hr; [|now right].
    apply parseListingMemo_Some in Hl as (? & ? & ? & ? & ? & Hs & _).
    apply parseWhitelistMemo_Some in Hr as (? & ? & ? & Hs' & _).
    rewrite Hs in Hs'. discriminate. }
  split; [exact Hdisj|]. split.
  - intros Hl World network this c requests w. apply body_skip.
    destruct Hdisj; congruence.
  - intros Hr state.
    destruct (getNodes_step_cases state action)
      as [[-> _]|(lm & Hlm & _ & _)]; [reflexivity|].
    destruct Hdisj; congruence.
Qed.

Lemma memo_kinds_are_disjoint_witness :
  request_of first_listing = None /\
  getNodes_step ([], ∅) known_request = ([], ∅).
Proof.
  split.
  - destruct (proj1 (memo_kinds_are_disjoint first_listing)) as [H|H];
      [discriminate H|exact H].
  - apply (proj2 (proj2 (memo_kinds_are_disjoint known_request))).
    discriminate.
Defined.

(** *** Comparisons with NaN *)

Lemma SFcompare_None x y :
  SFcompare x y = None <-> isNaN x = true \/ isNaN y = true.
Proof.
  destruct x as [s|s| |s m e], y as [s'|s'| |s' m' e']; simpl;
    intuition discriminate.
Qed.

Lemma le_false x y :
  le x y = false <-> isNaN x = true \/ isNaN y = true \/ gt x y = true.
Proof.
  pose proof (SFcompare_None x y) as Hn.
  unfold gt, le, SFltb, SFleb in *. rewrite (SFcompare_antisym x y).
  destruct (SFcompare x y) as [[]|]; simpl; intuition discriminate.
Qed.

Lemma lt_false x y :
  lt x y = false <-> isNaN x = true \/ isNaN y = true \/ le y x = true.
Proof.
  pose proof (SFcompare_None x y) as Hn.
  unfold lt, le, SFltb, SFleb in *. rewrite (SFcompare_antisym x y).
  destruct (SFcompare x y) as [[]|]; simpl; intuition discriminate.
Qed.

(** *** Fields of a memo *)

Lemma split_join a b :
  split ":" (a ++ ":" ++ b) = (split ":" a ++ split ":" b)%list.
Proof.
  induction a as [|c a IH]; sapp; [reflexivity|].
  cbn [split]. destruct (Ascii.eqb c ":").
  - now rewrite IH.
  - rewrite IH. destruct (split ":" a) as [|f fs] eqn:Hs; [|reflexivity].
    destruct a as [|c' a']; [discriminate|]. cbn [split] in Hs.
    destruct (Ascii.eqb c' ":"); [discriminate|].
    destruct (split ":" a'); discriminate.
Qed.

Lemma split_length_colon a :
  no_colon a = false -> (2 <= length (split ":" a))%nat.
Proof.
  induction a as [|c a IH]; [discriminate|].
  unfold no_colon. cbn [all_chars split]. fold (no_colon a).
  destruct (Ascii.eqb c ":"); simpl.
  - intros _. destruct a as [|c' a']; simpl; [lia|].
    destruct (Ascii.eqb c' ":"); [simpl; lia|].
    destruct (split ":" a'); simpl; lia.
  - intros Ha. specialize (IH Ha).
    destruct (split ":" a); simpl in *; lia.
Qed.

Lemma split_length_positive a : (1 <= length (split ":" a))%nat.
Proof.
  destruct a as [|c a]; simpl; [lia|].
  destruct (Ascii.eqb c ":"); [simpl; lia|].
  destruct (split ":" a); simpl; lia.
Qed.

(** *** Any number printed and read back *)

Lemma unsigned_decimal_layout s n :
  0 < s ->
  exists M E,
    unsigned_decimal (layout s n) = Some (M, E) /\
    forall neg, of_decimal neg M E = of_decimal neg s (n - num_digits s).
Proof.
  intros Hs. unfold layout, num_digits. cbv zeta.
  destruct (decimal_string_spec s ltac:(lia)) as (Hall & Hval & Hne).
  set (ds := decimal_string s) in *.
  set (k := Z.of_nat (String.length ds)).
  assert (Hk : 0 < k).
  { subst k. destruct ds; [congruence|]. simpl. lia. }
  destruct ((-6 <? n) && (n <=? 21)) eqn:Hrange.
  - destruct (k <=? n) eqn:Hkn; [|destruct (0 <? n) eqn:Hn]; z_compare.
    + rewrite <- (literal_int (ds ++ zeros (Z.to_nat (n - k)))).
      rewrite unsigned_decimal_literal.
      * eexists _, _. split; [reflexivity|]. intros neg.
        unfold default, id. rewrite app_empty_r, str_value_app, Hval,
          str_value_zeros, length_zeros, Z.add_0_r.
        rewrite Z2Nat.id by lia. rewrite of_decimal_shift by lia.
        f_equal.
      * now rewrite all_digits_app, Hall, all_digits_zeros.
      * destruct ds; [congruence|discriminate].
      * reflexivity.
    + rewrite <- (literal_frac (take (Z.to_nat n) ds) (drop (Z.to_nat n) ds)).
      rewrite unsigned_decimal_literal.
      * eexists _, _. split; [reflexivity|]. intros neg.
        unfold default, id. rewrite take_drop, Hval, length_drop.
        f_equal. subst k. lia.
      * now apply all_digits_take.
      * apply take_not_empty; [lia|assumption].
      * unfold default, id. now apply all_digits_drop.
    + change ("0." ++ zeros (Z.to_nat (- n)) ++ ds)
        with ("0" ++ "." ++ zeros (Z.to_nat (- n)) ++ ds).
      rewrite <- (literal_frac "0" (zeros (Z.to_nat (- n)) ++ ds)).
      rewrite unsigned_decimal_literal.
      * eexists _, _. split; [reflexivity|]. intros neg.
        unfold default, id.
        rewrite str_value_app, str_value_app, Hval, str_value_zeros,
          !length_app_string, length_zeros.
        change (str_value "0") with 0. f_equal. subst k. lia.
      * reflexivity.
      * discriminate.
      * unfold default, id. rewrite all_digits_app, all_digits_zeros.
        exact Hall.
  - destruct (k =? 1) eqn:Hk1.
    + apply Z.eqb_eq in Hk1.
      rewrite <- (literal_exp ds (n - 1)).
      rewrite unsigned_decimal_literal; try assumption; [|reflexivity].
      eexists _, _. split; [reflexivity|]. intros neg.
      unfold default, id. rewrite app_empty_r, Hval. f_equal. simpl. lia.
    + apply Z.eqb_neq in Hk1.
      rewrite <- (literal_frac_exp (take 1 ds) (drop 1 ds) (n - 1)).
      rewrite unsigned_decimal_literal.
      * eexists _, _. split; [reflexivity|]. intros neg.
        unfold default, id. rewrite take_drop, Hval, length_drop.
        f_equal. subst k. lia.
      * now apply all_digits_take.
      * apply take_not_empty; [lia|assumption].
      * unfold default, id. now apply all_digits_drop.
Qed.

Lemma layout_starts_with_digit s n :
  0 < s -> exists c t, layout s n = String c t /\ is_digit c = true.
Proof.
  intros Hs. unfold layout. cbv zeta.
  destruct (decimal_string_spec s ltac:(lia)) as (Hall & _ & Hne).
  destruct (decimal_string s) as [|c ds]; [congruence|].
  simpl in Hall. apply andb_true_iff in Hall as [Hc _].
  repeat match goal with
         | |- context [if ?b then _ else _] => destruct b eqn:?
         end; z_compare; sapp;
    try (eexists _, _; split; [reflexivity|assumption]).
  - destruct (Z.to_nat n) eqn:Hn; [lia|]. cbn [take]. sapp.
    eexists _, _; split; [reflexivity|assumption].
  - eexists _, _; split; [reflexivity|reflexivity].
Qed.

Lemma of_decimal_opp M E :
  of_decimal true M E = SFopp (of_decimal false M E).
Proof.
  unfold of_decimal. destruct (norm10 _ M E) as [M' E'].
  assert (Hr : forall p q,
            round_ratio true p q = SFopp (round_ratio false p q)).
  { intros [|p|p] q; try reflexivity. unfold round_ratio.
    destruct (SFdiv_core_binary _ _ _ _ _ _) as [[mz ez] lz].
    unfold binary_round_aux.
    destruct (shr_fexp prec emax mz ez lz) as [mrs e'].
    destruct (shr_fexp _ _ _ _ _) as [mrs' e''].
    destruct (shr_m mrs'); try reflexivity.
    now destruct (_ <=? _). }
  destruct (0 <=? E'); apply Hr.
Qed.

Lemma Number_toString_negative m e :
  bounded prec emax m e = true ->
  Number (toString (S754_finite true m e)) = S754_finite true m e.
Proof.
  intros Hb. unfold toString.
  pose proof (digits_of_denotes m e Hb) as Hd.
  destruct (digits_of m e) as [s n]. simpl in Hd.
  pose proof (denotes_positive _ _ _ _ Hd) as Hs.
  destruct (unsigned_decimal_layout s n Hs) as (M & E & Hu & Hval).
  destruct (layout_starts_with_digit s n Hs) as (c & t & Ht & Hc).
  rewrite Ht in *. sapp.
  unfold Number. cbn [trim_start].
  change (is_white "-") with false. cbv iota.
  assert (Hnd : non_decimal (String "-" (String c t)) = None) by reflexivity.
  rewrite Hnd. cbn [take_sign].
  assert (Hinf : starts_Infinity (String c t) = None).
  { unfold starts_Infinity. cbn [String.prefix].
    destruct (ascii_dec "I" c) as [<-|]; [discriminate|reflexivity]. }
  rewrite Hinf, Hu, Hval, of_decimal_opp.
  unfold denotes in Hd. apply number_eqb_eq in Hd. now rewrite Hd.
Qed.

(** Every number of a binary64 cell, printed and read back, is itself,
    but for [-0], which is read back as [+0]. *)
Lemma Number_toString x :
  is_number x = true -> Number (toString x) = unsigned_zero x.
Proof.
  destruct x as [s|[]| |[] m e]; try reflexivity; intros Hb.
  - now apply Number_toString_negative.
  - now apply Number_toString_finite.
Qed.

(** *** What the encoders accept, and what their memos decode to *)

Lemma parseListingMemo_fields memo :
  length (split ":" memo) <> 6%nat -> parseListingMemo memo = None.
Proof. intros Hl. apply parseListingMemo_None. now left. Qed.

Lemma parseWhitelistMemo_fields memo :
  length (split ":" memo) <> 4%nat -> parseWhitelistMemo memo = None.
Proof.
  unfold parseWhitelistMemo.
  destruct (split ":" memo) as [|tag [|p1 [|p2 [|p3 [|? ?]]]]];
    simpl; try reflexivity.
  intros Hl. now contradiction Hl.
Qed.

Lemma split_length_one a :
  no_colon a = true -> length (split ":" a) = 1%nat.
Proof. intros Ha. now rewrite split_no_colon. Qed.

Lemma not_le_zero x : le x pos_zero = false -> unsigned_zero x = x.
Proof. now destruct x as [[]|[]| |[] m e]. Qed.

Lemma createListing_Ok params memo :
  createListing params = Ok memo <->
  startsWith (ListingParams.nodeAddress params) "thor1" = true /\
  startsWith (ListingParams.operatorAddress params) "thor1" = true /\
  le (ListingParams.minRune params) pos_zero = false /\
  le (ListingParams.maxRune params) (ListingParams.minRune params) = false /\
  lt (ListingParams.feePercentage params) pos_zero = false /\
  gt (ListingParams.feePercentage params) (of_Z 100) = false /\
  memo = "TB" ++ ":" ++ ListingParams.nodeAddress params
         ++ ":" ++ ListingParams.operatorAddress params
         ++ ":" ++ toString (ListingParams.minRune params)
         ++ ":" ++ toString (ListingParams.maxRune params)
         ++ ":" ++ toString (ListingParams.feePercentage params).
Proof.
  unfold createListing.
  destruct (startsWith (ListingParams.nodeAddress params) "thor1");
    simpl; [|split; [discriminate|intros (? & _); discriminate]].
  destruct (startsWith (ListingParams.operatorAddress params) "thor1");
    simpl; [|split; [discriminate|intros (_ & ? & _); discriminate]].
  destruct (le (ListingParams.minRune params) pos_zero);
    [split; [discriminate|intros (_ & _ & ? & _); discriminate]|].
  destruct (le (ListingParams.maxRune params) (ListingParams.minRune params));
    [split; [discriminate|intros (_ & _ & _ & ? & _); discriminate]|].
  destruct (lt (ListingParams.feePercentage params) pos_zero);
    simpl;
    [split; [discriminate|intros (_ & _ & _ & _ & ? & _); discriminate]|].
  destruct (gt (ListingParams.feePercentage params) (of_Z 100));
    [split; [discriminate|intros (_ & _ & _ & _ & _ & ? & _); discriminate]|].
  split.
  - intros [= <-]. repeat split.
  - intros (_ & _ & _ & _ & _ & _ & ->). reflexivity.
Qed.

Lemma createWhitelistRequest_Ok params memo :
  createWhitelistRequest params = Ok memo <->
  startsWith (WhitelistRequestParams.nodeAddress params) "thor1" = true /\
  startsWith (WhitelistRequestParams.userAddress params) "thor1" = true /\
  le (WhitelistRequestParams.amount params) pos_zero = false /\
  memo = "TB" ++ ":" ++ WhitelistRequestParams.nodeAddress params
         ++ ":" ++ WhitelistRequestParams.userAddress params
         ++ ":" ++ toString (WhitelistRequestParams.amount params).
Proof.
  unfold createWhitelistRequest.
  destruct (startsWith (WhitelistRequestParams.nodeAddress params) "thor1");
    simpl; [|split; [discriminate|intros (? & _); discriminate]].
  destruct (startsWith (WhitelistRequestParams.userAddress params) "thor1");
    simpl; [|split; [discriminate|intros (_ & ? & _); discriminate]].
  destruct (le (WhitelistRequestParams.amount params) pos_zero);
    [split; [discriminate|intros (_ & _ & ? & _); discriminate]|].
  split.
  - intros [= <-]. repeat split.
  - intros (_ & _ & _ & ->). reflexivity.
Qed.

(** X5: the numeric checks of the two encoders refuse only what compares:
    [createListing] returns a memo exactly when both addresses start with
    [thor1], [minRune] is NaN or above 0, [maxRune] or [minRune] is NaN or
    [maxRune > minRune], and [feePercentage] is NaN or between 0 and 100;
    [createWhitelistRequest] returns one exactly when both addresses start
    with [thor1] and [amount] is NaN or above 0. A NaN passes every
    numeric check. *)
Theorem encoders_refuse_only_what_compares :
  (forall params,
     (exists memo, createListing params = Ok memo) <->
     startsWith (ListingParams.nodeAddress params) "thor1" = true /\
     startsWith (ListingParams.operatorAddress params) "thor1" = true /\
     (isNaN (ListingParams.minRune params) = true \/
      gt (ListingParams.minRune params) pos_zero = true) /\
     (isNaN (ListingParams.maxRune params) = true \/
      isNaN (ListingParams.minRune params) = true \/
      gt (ListingParams.maxRune params) (ListingParams.minRune params)
      = true) /\
     (isNaN (ListingParams.feePercentage params) = true \/
      le pos_zero (ListingParams.feePercentage params) = true /\
      le (ListingParams.feePercentage params) (of_Z 100) = true)) /\
  (forall params,
     (exists memo, createWhitelistRequest params = Ok memo) <->
     startsWith (WhitelistRequestParams.nodeAddress params) "thor1" = true /\
     startsWith (WhitelistRequestParams.userAddress params) "thor1" = true /\
     (isNaN (WhitelistRequestParams.amount params) = true \/
      gt (WhitelistRequestParams.amount params) pos_zero = true)).
Proof.
  split; intros params.
  - split.
    + intros [memo Hm]. apply createListing_Ok in Hm
        as (Hn & Ho & Hmin & Hmax & Hf0 & Hf100 & _).
      apply le_false in Hmin, Hmax. apply lt_false in Hf0.
      unfold gt in Hf100. apply lt_false in Hf100.
      repeat split; try assumption.
      * destruct Hmin as [?|[?|?]]; [now left|discriminate|now right].
      * destruct (isNaN (ListingParams.feePercentage params)) eqn:Hnan;
          [now left|right].
        destruct Hf0 as [?|[?|?]]; try discriminate.
        destruct Hf100 as [?|[?|?]]; try discriminate. now split.
    + intros (Hn & Ho & Hmin & Hmax & Hfee). eexists.
      apply createListing_Ok. repeat split; try assumption.
      * apply le_false. tauto.
      * apply le_false. tauto.
      * apply lt_false. tauto.
      * unfold gt. apply lt_false. tauto.
  - split.
    + intros [memo Hm]. apply createWhitelistRequest_Ok in Hm
        as (Hn & Hu & Ha & _).
      apply le_false in Ha. repeat split; try assumption.
      destruct Ha as [?|[?|?]]; [now left|discriminate|now right].
    + intros (Hn & Hu & Ha). eexists.
      apply createWhitelistRequest_Ok. repeat split; try assumption.
      apply le_false. tauto.
Qed.

Lemma encoders_refuse_only_what_compares_witness :
  (exists memo,
     createListing
       {| ListingParams.nodeAddress := "thor1node";
          ListingParams.operatorAddress := "thor1op";
          ListingParams.minRune := NaN;
          ListingParams.maxRune := NaN;
          ListingParams.feePercentage := NaN |} = Ok memo) /\
  (exists memo,
     createWhitelistRequest
       {| WhitelistRequestParams.nodeAddress := "thor1node";
          WhitelistRequestParams.userAddress := "thor1user";
          WhitelistRequestParams.amount := NaN |} = Ok memo).
Proof.
  split.
  - apply (proj1 encoders_refuse_only_what_compares). simpl.
    repeat split; now left.
  - apply (proj2 encoders_refuse_only_what_compares). simpl.
    repeat split; now left.
Defined.

(** The memo of a listing without a colon in its addresses reads back. *)
Lemma createListing_decodes params memo :
  is_number (ListingParams.minRune params) = true ->
  is_number (ListingParams.maxRune params) = true ->
  is_number (ListingParams.feePercentage params) = true ->
  createListing params = Ok memo ->
  no_colon (ListingParams.nodeAddress params) = true ->
  no_colon (ListingParams.operatorAddress params) = true ->
  parseListingMemo memo =
    Some {| ListingMemo.nodeAddress := ListingParams.nodeAddress params;
            ListingMemo.operatorAddress :=
              ListingParams.operatorAddress params;
            ListingMemo.minRune := ListingParams.minRune params;
            ListingMemo.maxRune :=
              unsigned_zero (ListingParams.maxRune params);
            ListingMemo.feePercentage :=
              unsigned_zero (ListingParams.feePercentage params) |}.
Proof.
  intros Vmin Vmax Vfee Hm Hcn Hco.
  apply createListing_Ok in Hm as (_ & _ & Hmin & _ & _ & _ & ->).
  destruct params as [node op minRune maxRune fee]. simpl in *.
  unfold parseListingMemo.
  rewrite !split_app
    by (assumption || reflexivity || apply toString_no_colon).
  rewrite split_no_colon by apply toString_no_colon.
  simpl. rewrite !Number_toString by assumption.
  now rewrite (not_le_zero _ Hmin).
Qed.

(** X6: a memo [createListing] returns for numbers of a binary64 cell is
    decoded by [parseListingMemo] only if neither address holds a colon:
    then the addresses and [minRune] come back as given, and [maxRune]
    and [feePercentage] with [+0] for [-0] (a NaN comes back as NaN); with
    a colon in an address the memo the encoder returned does not decode
    at all. *)
Theorem listing_memo_reads_back params memo :
  is_number (ListingParams.minRune params) = true ->
  is_number (ListingParams.maxRune params) = true ->
  is_number (ListingParams.feePercentage params) = true ->
  createListing params = Ok memo ->
  parseListingMemo memo =
    if no_colon (ListingParams.nodeAddress params)
       && no_colon (ListingParams.operatorAddress params)
    then Some {| ListingMemo.nodeAddress := ListingParams.nodeAddress params;
                 ListingMemo.operatorAddress :=
                   ListingParams.operatorAddress params;
                 ListingMemo.minRune := ListingParams.minRune params;
                 ListingMemo.maxRune :=
                   unsigned_zero (ListingParams.maxRune params);
                 ListingMemo.feePercentage :=
                   unsigned_zero (ListingParams.feePercentage params) |}
    else None.
Proof.
  intros Vmin Vmax Vfee Hm.
  destruct (no_colon (ListingParams.nodeAddress params)) eqn:Hcn;
    [destruct (no_colon (ListingParams.operatorAddress params)) eqn:Hco|];
    simpl.
  - now apply createListing_decodes.
  - apply createListing_Ok in Hm as (_ & _ & _ & _ & _ & _ & ->).
    apply parseListingMemo_fields. rewrite !split_join, !length_app.
    pose proof (split_length_colon _ Hco).
    pose proof (split_length_positive (ListingParams.nodeAddress params)).
    rewrite !(split_length_one (toString _)) by apply toString_no_colon.
    simpl. lia.
  - apply createListing_Ok in Hm as (_ & _ & _ & _ & _ & _ & ->).
    apply parseListingMemo_fields. rewrite !split_join, !length_app.
    pose proof (split_length_colon _ Hcn).
    pose proof (split_length_positive (ListingParams.operatorAddress params)).
    rewrite !(split_length_one (toString _)) by apply toString_no_colon.
    simpl. lia.
Qed.

Lemma listing_memo_reads_back_witness :
  parseListingMemo "TB:thor1node:thor1:op:1:2:0" = None.
Proof.
  apply (listing_memo_reads_back
           {| ListingParams.nodeAddress := "thor1node";
              ListingParams.operatorAddress := "thor1:op";
              ListingParams.minRune := of_Z 1;
              ListingParams.maxRune := of_Z 2;
              ListingParams.feePercentage := neg_zero |});
    vm_compute; reflexivity.
Defined.

(** The memo of a request without a colon in its addresses, for an amount
    that is a number, reads back. *)
Lemma createWhitelistRequest_decodes params memo :
  is_number (WhitelistRequestParams.amount params) = true ->
  createWhitelistRequest params = Ok memo ->
  no_colon (WhitelistRequestParams.nodeAddress params) = true ->
  no_colon (WhitelistRequestParams.userAddress params) = true ->
  parseWhitelistMemo memo =
    if isNaN (WhitelistRequestParams.amount params) then None
    else Some params.
Proof.
  intros Vamount Hm Hcn Hcu.
  apply createWhitelistRequest_Ok in Hm as (Hn & Hu & Ha & ->).
  destruct params as [node user amount]. simpl in *.
  unfold parseWhitelistMemo.
  rewrite !split_app by (assumption || reflexivity).
  rewrite split_no_colon by apply toString_no_colon.
  simpl. rewrite Hn, Hu. simpl.
  rewrite Number_toString by assumption.
  rewrite (not_le_zero _ Ha), Ha.
  now destruct (isNaN amount).
Qed.

(** X7: a memo [createWhitelistRequest] returns for an amount of a
    binary64 cell is read by the reconciliation loop as the request that
    was encoded exactly when neither address holds a colon and the amount
    is not NaN; otherwise the loop skips the memo the encoder returned. *)
Theorem request_memo_reads_back params memo :
  is_number (WhitelistRequestParams.amount params) = true ->
  createWhitelistRequest params = Ok memo ->
  parseWhitelistMemo memo =
    if no_colon (WhitelistRequestParams.nodeAddress params)
       && no_colon (WhitelistRequestParams.userAddress params)
       && negb (isNaN (WhitelistRequestParams.amount params))
    then Some params else None.
Proof.
  intros Vamount Hm.
  destruct (no_colon (WhitelistRequestParams.nodeAddress params)) eqn:Hcn;
    [destruct (no_colon (WhitelistRequestParams.userAddress params))
       eqn:Hcu|];
    simpl.
  - rewrite (createWhitelistRequest_decodes _ _ Vamount Hm Hcn Hcu).
    now destruct (isNaN (WhitelistRequestParams.amount params)).
  - apply createWhitelistRequest_Ok in Hm as (_ & _ & _ & ->).
    apply parseWhitelistMemo_fields. rewrite !split_join, !length_app.
    pose proof (split_length_colon _ Hcu).
    pose proof (split_length_positive
                  (WhitelistRequestParams.nodeAddress params)).
    rewrite !(split_length_one (toString _)) by apply toString_no_colon.
    simpl. lia.
  - apply createWhitelistRequest_Ok in Hm as (_ & _ & _ & ->).
    apply parseWhitelistMemo_fields. rewrite !split_join, !length_app.
    pose proof (split_length_colon _ Hcn).
    pose proof (split_length_positive
                  (WhitelistRequestParams.userAddress params)).
    rewrite !(split_length_one (toString _)) by apply toString_no_colon.
    simpl. lia.
Qed.

Lemma request_memo_reads_back_witness :
  parseWhitelistMemo "TB:thor1node:thor1user:NaN" = None.
Proof.
  apply (request_memo_reads_back
           {| WhitelistRequestParams.nodeAddress := "thor1node";
              WhitelistRequestParams.userAddress := "thor1user";
              WhitelistRequestParams.amount := NaN |});
    vm_compute; reflexivity.
Defined.

(** *** Fetching the feed *)

Section Lifecycle.
Context {World : Type} `{Network World}.

Lemma initialize_cases this (w : World) :
  (isInitialized this = true /\ initialize this w = (Ok tt, this, w)) \/
  (isInitialized this = false /\
   exists w',
     (exists e, get_actions (MIDGARD_API_URL ++ "/actions") feed_query w
                = (Throw e, w') /\
                initialize this w = (Throw e, this, w')) \/
     (exists response,
        get_actions (MIDGARD_API_URL ++ "/actions") feed_query w
        = (Ok response, w') /\
        initialize this w =
          (Ok tt,
           {| actions :=
                map transformMidgardAction
                  (default [] (ActionsResponse.actions
                                 (ActionsResponse.data response)));
              isInitialized := true |}, w'))).
Proof.
  unfold initialize, feed_query.
  destruct (isInitialized this); [now left|right]. split; [reflexivity|].
  destruct (get_actions _ _ w) as [[response|e] w']; exists w'.
  - right. exists response. split; [reflexivity|].
    now destruct (ActionsResponse.actions (ActionsResponse.data response)).
  - left. eauto.
Qed.

(** X8: once [initialize] has resolved, calling it again changes nothing
    and asks nothing of the indexer, whatever the indexer would answer;
    when [initialize] fails, the error is the one the indexer's request
    was rejected with, and the engine is as it was, not initialized. *)
Theorem initialize_fetches_once this (w w' : World) this' :
  (initialize this w = (Ok tt, this', w') ->
   forall w2 : World, initialize this' w2 = (Ok tt, this', w2)) /\
  (forall e,
     initialize this w = (Throw e, this', w') ->
     this' = this /\ isInitialized this = false /\
     get_actions (MIDGARD_API_URL ++ "/actions") feed_query w
     = (Throw e, w')).
Proof.
  destruct (initialize_cases this w)
    as [[Hinit ->]|(Hinit & w1 & [(e & Hget & ->)|(response & Hget & ->)])].
  - split; [|discriminate]. intros [= <- <-] w2.
    unfold initialize. now rewrite Hinit.
  - split; [discriminate|]. intros e' [= <- <- <-]. auto.
  - split; [|discriminate]. now intros [= <- <-] w2.
Qed.

(** X9: when [refreshActions] fails, the engine keeps the actions it had
    but is left not initialized: [getNodes], [getActions] and
    [getWhitelistRequests] throw 'ThorBondEngine not initialized', also on
    an engine that was initialized before the call. *)
Theorem failed_refresh_blocks_reads this (w w' : World) this' e :
  refreshActions this w = (Throw e, this', w') ->
  actions this' = actions this /\
  getNodes this' = Throw not_initialized /\
  getActions this' = Throw not_initialized /\
  forall connectedAddress (w2 : World),
    getWhitelistRequests this' connectedAddress w2
    = (Throw not_initialized, w2).
Proof.
  unfold refreshActions. intros Hr.
  destruct (initialize_cases
              {| actions := actions this; isInitialized := false |} w)
    as [[Hinit _]|(_ & w1 & [(e' & _ & Hi)|(response & _ & Hi)])];
    [discriminate| |]; rewrite Hi in Hr; [|discriminate].
  injection Hr as <- <- <-. repeat split.
Qed.

(** X10: what [refreshActions] leaves when it resolves does not depend on
    the engine it was called on: it is the engine [initialize] makes of a
    new one, so no action fetched earlier survives a refresh. *)
Theorem refresh_starts_afresh this (w w' : World) this' :
  refreshActions this w = (Ok tt, this', w') ->
  initialize new_ThorBondEngine w = (Ok tt, this', w') /\
  forall other, refreshActions other w = (Ok tt, this', w').
Proof.
  unfold refreshActions, initialize. simpl.
  destruct (get_actions _ _ w) as [[response|e] w1]; [|discriminate].
  intros [= <- <-]. split; reflexivity.
Qed.

End Lifecycle.

Lemma initialize_fetches_once_witness :
  initialize scenario_engine silent = (Ok tt, scenario_engine, silent).
Proof.
  apply (proj1 (initialize_fetches_once new_ThorBondEngine one_feed silent
                  scenario_engine)).
  vm_compute. reflexivity.
Defined.

Lemma failed_refresh_blocks_reads_witness :
  exists this',
    fst (refreshActions scenario_engine silent) = (Throw network_error, this')
    /\ actions this' = actions scenario_engine
    /\ getNodes this' = Throw not_initialized.
Proof.
  destruct (refreshActions scenario_engine silent) as [[r this'] w'] eqn:Hr.
  assert (Hthrow : r = Throw network_error)
    by (vm_compute in Hr; now injection Hr).
  subst r. exists this'. split; [reflexivity|].
  destruct (failed_refresh_blocks_reads scenario_engine silent w' this'
              network_error Hr) as (Hacts & Hnodes & _).
  split; assumption.
Defined.

Lemma refresh_starts_afresh_witness :
  refreshActions relisted_engine one_feed = (Ok tt, scenario_engine, silent).
Proof.
  assert (Hr : refreshActions orphan_engine one_feed
               = (Ok tt, scenario_engine, silent))
    by (vm_compute; reflexivity).
  apply (proj2 (refresh_starts_afresh orphan_engine one_feed silent
                  scenario_engine Hr)).
Defined.

(** *** Why reconciliation fails, and when it returns *)

Section Outcomes.
Context {World : Type} `{Network World}.

(** X11: [getWhitelistRequests] fails for three reasons only. With
    'ThorBondEngine not initialized' on an engine that is not initialized,
    before any request is made; with 'Node not found' only if the feed
    holds a request whose node is not in the registry; with 'Failed to
    retrieve bond info' only if the node-state service rejected the query
    for a request the viewer is the user or the operator of. It never
    fails with 'Invalid THORChain address', nor with the error of the
    service itself. *)
Theorem reconciliation_fails_for_three_reasons this connectedAddress
    (w w' : World) e :
  getWhitelistRequests this connectedAddress w = (Throw e, w') ->
  (e = not_initialized /\ isInitialized this = false /\ w' = w) \/
  exists nodes,
    getNodes this = Ok nodes /\
    ((e = node_not_found /\ orphan nodes (actions this)) \/
     (e = bond_info_failed /\
      exists c w0 e',
        c ∈ candidates nodes (actions this) /\
        viewer_sees connectedAddress c = true /\
        get_node (query_url c) w0 = (Throw e', w'))).
Proof.
  unfold getWhitelistRequests.
  destruct (isInitialized this) eqn:Hinit; simpl.
  - intros Hfor. right.
    exists (fst (fold_left getNodes_step (actions this) ([], ∅))).
    assert (Hnodes : getNodes this
                     = Ok (fst (fold_left getNodes_step (actions this)
                                  ([], ∅))))
      by now apply getNodes_Ok.
    split; [exact Hnodes|]. eapply for_of_throws_why; eauto.
  - intros [= <- <-]. now left.
Qed.

(** X12: when the node-state service answers the queries for the requests
    the viewer is the user or the operator of, [getWhitelistRequests] on
    an initialized engine returns exactly when every request of the feed
    names a node of the registry; one request for an unlisted node, of any
    user, fails the call for every viewer. *)
Theorem reconciliation_returns_without_orphans this connectedAddress
    (w : World) nodes :
  getNodes this = Ok nodes ->
  (forall c (w0 : World),
     c ∈ candidates nodes (actions this) ->
     viewer_sees connectedAddress c = true ->
     exists response w1, get_node (query_url c) w0 = (Ok response, w1)) ->
  (exists result w',
     getWhitelistRequests this connectedAddress w = (Ok result, w')) <->
  ~ orphan nodes (actions this).
Proof.
  intros Hnodes Hanswers.
  assert (Hinit : isInitialized this = true)
    by now apply getNodes_Ok in Hnodes.
  unfold getWhitelistRequests. rewrite Hinit. simpl. split.
  - intros (result & w' & Hfor) (action & request & Ha & Hrq & Hres).
    destruct (for_of_orphan this connectedAddress (actions this)
                {| Requests.operator := []; Requests.user := [] |} w
                nodes action request Hinit Hnodes Ha Hrq Hres)
      as (e & w1 & Hthrow).
    congruence.
  - intros Hno.
    destruct (for_of _ (actions this) _ w) as [[result|e] w'] eqn:Hfor;
      [eauto|].
    destruct (for_of_throws_why _ _ _ _ _ _ _ _ Hnodes Hfor)
      as [[_ Ho]|[_ (c & w0 & e' & Hc & Hv & Hg)]].
    + contradiction.
    + destruct (Hanswers c w0 Hc Hv) as (response & w1 & Hok). congruence.
Qed.

(** *** Where the entries of the outputs come from *)

Lemma outputs_from_candidates this connectedAddress (w w' : World) result
    nodes r :
  getNodes this = Ok nodes ->
  getWhitelistRequests this connectedAddress w = (Ok result, w') ->
  r ∈ Requests.user result \/ r ∈ Requests.operator result ->
  exists c,
    c ∈ candidates nodes (actions this) /\
    viewer_sees connectedAddress c = true /\
    unlabelled r = entry_of c.
Proof.
  intros Hnodes. unfold getWhitelistRequests.
  assert (Hinit : isInitialized this = true)
    by now apply getNodes_Ok in Hnodes.
  rewrite Hinit. simpl. intros Hfor.
  destruct (for_of_outputs _ _ _ _ _ _ _ _ Hnodes Hfor) as [Hu Ho].
  simpl in Hu, Ho. unfold viewer_sees.
  intros [Hr|Hr].
  - assert (Hin : unlabelled r ∈ map unlabelled (Requests.user result))
      by (apply list_elem_of_fmap; eauto).
    rewrite Hu in Hin. apply list_elem_of_fmap in Hin as (c & Hc & Hin).
    apply list_elem_of_In, filter_In in Hin as [Hin Hview].
    apply list_elem_of_In in Hin. exists c. now rewrite Hview.
  - assert (Hin : unlabelled r ∈ map unlabelled (Requests.operator result))
      by (apply list_elem_of_fmap; eauto).
    rewrite Ho in Hin. apply list_elem_of_fmap in Hin as (c & Hc & Hin).
    apply list_elem_of_In, filter_In in Hin as [Hin Hview].
    apply list_elem_of_In in Hin. exists c.
    now rewrite Hview, orb_true_r.
Qed.

(** X13: every entry of the two outputs of [getWhitelistRequests] can be
    traced to the feed: its wallet and its node address start with
    [thor1], its amount is above 0, the viewer is its wallet or the
    operator of its node, some action of the feed carries the request for
    this node, wallet and amount and gives it its date, and its node is
    the Node of the first action of the feed that lists the address. *)
Theorem outputs_are_traced_to_the_feed this connectedAddress (w w' : World)
    result :
  getWhitelistRequests this connectedAddress w = (Ok result, w') ->
  forall r, r ∈ Requests.user result \/ r ∈ Requests.operator result ->
    startsWith (WhitelistRequest.walletAddress r) "thor1" = true /\
    startsWith (Node.address (WhitelistRequest.node r)) "thor1" = true /\
    gt (WhitelistRequest.intendedBondAmount r) pos_zero = true /\
    (WhitelistRequest.walletAddress r = connectedAddress \/
     Node.operator (WhitelistRequest.node r) = connectedAddress) /\
    (exists action,
       action ∈ actions this /\
       request_of action =
         Some {| WhitelistRequestParams.nodeAddress :=
                   Node.address (WhitelistRequest.node r);
                 WhitelistRequestParams.userAddress :=
                   WhitelistRequest.walletAddress r;
                 WhitelistRequestParams.amount :=
                   WhitelistRequest.intendedBondAmount r |} /\
       WhitelistRequest.createdAt r = date_of action) /\
    (exists listing listingMemo,
       first_to_list (actions this) listing listingMemo /\
       WhitelistRequest.node r = node_of_listing listingMemo listing).
Proof.
  intros Hget r Hr.
  destruct (getNodes this) as [nodes|e] eqn:Hnodes.
  2:{ unfold getWhitelistRequests, getNodes in *.
      destruct (isInitialized this); simpl in *; discriminate. }
  destruct (outputs_from_candidates _ _ _ _ _ _ _ Hnodes Hget Hr)
    as ([[action request] node] & Hc & Hview & Heq).
  apply candidates_elem in Hc as (Ha & Hrq & Hres). simpl in Ha, Hrq, Hres.
  unfold unlabelled, entry_of in Heq. simpl in Heq.
  injection Heq as Hnode Hwallet Hamount Hdate.
  rewrite Hnode, Hwallet, Hamount, Hdate.
  pose proof (find_eqb_address _ _ _ Hres) as Haddr.
  destruct (request_prefixes _ _ Hrq) as [Hn Hu].
  assert (Hpos : gt (WhitelistRequestParams.amount request) pos_zero = true).
  { unfold request_of in Hrq.
    destruct (truthy (memo_of action)) as [memo|]; [|discriminate].
    apply parseWhitelistMemo_Some in Hrq
      as (n & u & a & _ & _ & _ & Hnan & Hle & ->).
    simpl. now apply positive_amount. }
  repeat split.
  - exact Hu.
  - now rewrite Haddr.
  - exact Hpos.
  - unfold viewer_sees, viewer_is_user, viewer_is_operator in Hview.
    simpl in Hview. apply orb_true_iff in Hview as [Hv|Hv];
      apply String.eqb_eq in Hv; auto.
  - exists action. split; [assumption|]. split; [|reflexivity].
    rewrite Hrq, Haddr. now destruct request.
  - apply (getNodes_from_first_listing this nodes node Hnodes).
    unfold resolve in Hres. apply find_some in Hres as [Hin _].
    now apply list_elem_of_In.
Qed.

End Outcomes.

(** *** The queries reconciliation makes *)

Section Queries.
Context {World : Type} `{Network World}.

Lemma getBondInfoForUser_requested nodeAddress userAddress
    (w : Logged World) :
  startsWith nodeAddress "thor1" = true ->
  startsWith userAddress "thor1" = true ->
  requested (snd (getBondInfoForUser nodeAddress userAddress w))
  = (requested w ++ [(THORNODE_API_URL ++ "/" ++ nodeAddress)%string])%list.
Proof.
  intros Hn Hu. unfold getBondInfoForUser. rewrite Hn, Hu. simpl.
  destruct (get_node _ (inner w)) as [[response|e] w1]; [|reflexivity].
  now destruct (find _ _).
Qed.

Lemma for_of_requested this connectedAddress nodes actions requests
    (w w' : Logged World) result :
  getNodes this = Ok nodes ->
  for_of (getWhitelistRequests_body this connectedAddress) actions requests w
  = (Ok result, w') ->
  requested w' =
    (requested w ++
     map query_url (List.filter (viewer_sees connectedAddress)
                      (candidates nodes actions)))%list.
Proof.
  intros Hnodes. revert requests w.
  induction actions as [|a l IH]; cbn [for_of]; intros requests w.
  - intros [= _ <-]. simpl. now rewrite app_nil_r.
  - rewrite candidates_cons.
    destruct (request_of a) as [request|] eqn:Hrq.
    2:{ rewrite body_skip by assumption. apply IH. }
    rewrite (body_request _ _ _ _ _ _ _ Hrq Hnodes).
    destruct (resolve nodes request) as [node|] eqn:Hres; [|discriminate].
    cbv zeta. simpl.
    unfold viewer_sees at 1, viewer_is_user at 1, viewer_is_operator at 1.
    simpl.
    destruct (_ || _) eqn:Hview; [|apply IH].
    destruct (request_prefixes _ _ Hrq) as [Hn Hu].
    rewrite <- (find_eqb_address _ _ _ Hres) in Hn.
    pose proof (getBondInfoForUser_requested _ _ w Hn Hu) as Hlog.
    destruct (getBondInfoForUser _ _ w) as [[bondInfo|e] w1];
      [|discriminate].
    intros Hfor. apply IH in Hfor. rewrite Hfor. simpl in Hlog.
    rewrite Hlog, <- app_assoc. reflexivity.
Qed.

(** X14: a call of [getWhitelistRequests] that returns has asked the
    node-state service once for each request of the feed the viewer is the
    user or the operator of, in feed order, at the address of the node of
    the request, and has asked for nothing else: not for the requests of
    others, and not twice for a request the viewer is both user and
    operator of. *)
Theorem reconciliation_asks_once_per_visible_request this connectedAddress
    (w w' : Logged World) result :
  getWhitelistRequests this connectedAddress w = (Ok result, w') ->
  exists nodes,
    getNodes this = Ok nodes /\
    requested w' =
      (requested w ++
       map query_url (List.filter (viewer_sees connectedAddress)
                        (candidates nodes (actions this))))%list.
Proof.
  unfold getWhitelistRequests.
  destruct (isInitialized this) eqn:Hinit; simpl; [|discriminate].
  intros Hfor.
  assert (Hnodes : getNodes this
                   = Ok (fst (fold_left getNodes_step (actions this)
                                ([], ∅))))
    by now apply getNodes_Ok.
  eexists. split; [exact Hnodes|].
  eapply for_of_requested; eauto.
Qed.

End Queries.

(** *** From the encoders to the views *)

Lemma truthy_memo memo fields :
  split ":" memo = "TB" :: fields -> truthy (Some memo) = Some memo.
Proof. destruct memo; [discriminate|reflexivity]. Qed.

Section EndToEnd.
Context {World : Type} `{Network World}.

(** X15: a listing that [createListing] accepted, for addresses without a
    colon, reaches the registry once the indexer reports the send that
    carries its memo: if no earlier action of the response lists the same
    node address, [initialize] on a new engine resolves and [getNodes]
    then holds a Node with the operator, the address and the minimum bond
    of the listing, its capacity and fee with [+0] for [-0], and the date
    of the send. *)
Theorem sent_listing_reaches_the_registry params memo (w w' : World)
    response before sent after :
  createListing params = Ok memo ->
  no_colon (ListingParams.nodeAddress params) = true ->
  no_colon (ListingParams.operatorAddress params) = true ->
  is_number (ListingParams.minRune params) = true ->
  is_number (ListingParams.maxRune params) = true ->
  is_number (ListingParams.feePercentage params) = true ->
  get_actions (MIDGARD_API_URL ++ "/actions") feed_query w
  = (Ok response, w') ->
  ActionsResponse.actions (ActionsResponse.data response)
  = Some (before ++ sent :: after)%list ->
  memo_of (transformMidgardAction sent) = Some memo ->
  (forall b listingMemo,
     b ∈ before ->
     listing_of (transformMidgardAction b) = Some listingMemo ->
     ListingMemo.nodeAddress listingMemo
     <> ListingParams.nodeAddress params) ->
  exists this' nodes,
    initialize new_ThorBondEngine w = (Ok tt, this', w') /\
    getNodes this' = Ok nodes /\
    {| Node.operator := ListingParams.operatorAddress params;
       Node.address := ListingParams.nodeAddress params;
       Node.bondingCapacity := unsigned_zero (ListingParams.maxRune params);
       Node.minimumBond := ListingParams.minRune params;
       Node.feePercentage :=
         unsigned_zero (ListingParams.feePercentage params);
       Node.createdAt :=
         new_Date (div (parseInt (MidgardAction.date sent))
                     (of_Z 1000000)) |} ∈ nodes.
Proof.
  intros Hmemo Hcn Hco Vmin Vmax Vfee Hget Hfeed Hsent Hfirst.
  pose proof (createListing_decodes params memo Vmin Vmax Vfee Hmemo
                Hcn Hco) as Hdec.
  destruct (initialize_cases new_ThorBondEngine w)
    as [[Hinit _]|(_ & w1 & [(e & Hget' & _)|(response' & Hget' & Hi)])];
    [discriminate|congruence|].
  rewrite Hget in Hget'. injection Hget' as <- <-.
  rewrite Hfeed in Hi. unfold default, id in Hi.
  rewrite map_app in Hi. simpl in Hi.
  eexists _, _. split; [exact Hi|]. split; [reflexivity|].
  simpl.
  match goal with
  | |- ?node ∈ _ =>
      change node with
        (node_of_listing
           {| ListingMemo.nodeAddress := ListingParams.nodeAddress params;
              ListingMemo.operatorAddress :=
                ListingParams.operatorAddress params;
              ListingMemo.minRune := ListingParams.minRune params;
              ListingMemo.maxRune :=
                unsigned_zero (ListingParams.maxRune params);
              ListingMemo.feePercentage :=
                unsigned_zero (ListingParams.feePercentage params) |}
           (transformMidgardAction sent))
  end.
  eapply (getNodes_first_listing
            {| actions := (map transformMidgardAction before
                           ++ transformMidgardAction sent
                              :: map transformMidgardAction after)%list;
               isInitialized := true |}).
  - reflexivity.
  - reflexivity.
  - unfold listing_of. rewrite Hsent.
    apply parseListingMemo_Some in Hdec as Hfields.
    destruct Hfields as (p1 & p2 & p3 & p4 & p5 & Hsplit & _).
    now rewrite (truthy_memo _ _ Hsplit).
  - intros b lm Hb Hlm. apply list_elem_of_fmap in Hb as (b0 & -> & Hb0).
    simpl. eapply Hfirst; eauto.
Qed.

(** X16: a request that [createWhitelistRequest] accepted, for addresses
    without a colon and an amount that is a number, is shown by every call
    of [getWhitelistRequests] that returns on a feed with the action that
    carries its memo: the registry has a Node for its node address, the
    user output of the user holds its entry, and so does the operator
    output of the operator of the Node, with its wallet, its amount and
    the date of the action. *)
Theorem sent_request_reaches_both_views params memo this connectedAddress
    (w w' : World) result action :
  createWhitelistRequest params = Ok memo ->
  no_colon (WhitelistRequestParams.nodeAddress params) = true ->
  no_colon (WhitelistRequestParams.userAddress params) = true ->
  is_number (WhitelistRequestParams.amount params) = true ->
  isNaN (WhitelistRequestParams.amount params) = false ->
  action ∈ actions this ->
  memo_of action = Some memo ->
  getWhitelistRequests this connectedAddress w = (Ok result, w') ->
  exists nodes node,
    getNodes this = Ok nodes /\
    resolve nodes params = Some node /\
    (connectedAddress = WhitelistRequestParams.userAddress params ->
     (node, WhitelistRequestParams.userAddress params,
      WhitelistRequestParams.amount params, date_of action)
     ∈ map unlabelled (Requests.user result)) /\
    (connectedAddress = Node.operator node ->
     (node, WhitelistRequestParams.userAddress params,
      WhitelistRequestParams.amount params, date_of action)
     ∈ map unlabelled (Requests.operator result)).
Proof.
  intros Hmemo Hcn Hcu Vamount Hnan Hin Hsent Hget.
  pose proof (createWhitelistRequest_decodes params memo Vamount Hmemo
                Hcn Hcu) as Hdec.
  rewrite Hnan in Hdec.
  assert (Hrq : request_of action = Some params).
  { unfold request_of. rewrite Hsent.
    apply parseWhitelistMemo_Some in Hdec as Hfields.
    destruct Hfields as (n & u & a & Hsplit & _).
    now rewrite (truthy_memo _ _ Hsplit). }
  unfold getWhitelistRequests in Hget.
  destruct (isInitialized this) eqn:Hinit; simpl in Hget; [|discriminate].
  assert (Hnodes : getNodes this
                   = Ok (fst (fold_left getNodes_step (actions this)
                                ([], ∅))))
    by now apply getNodes_Ok.
  set (nodes := fst (fold_left getNodes_step (actions this) ([], ∅))) in *.
  exists nodes.
  destruct (resolve nodes params) as [node|] eqn:Hres.
  2:{ destruct (for_of_orphan this connectedAddress (actions this)
                  {| Requests.operator := []; Requests.user := [] |} w
                  nodes action params Hinit Hnodes Hin Hrq Hres)
        as (e & w1 & Hthrow).
      congruence. }
  exists node. split; [exact Hnodes|]. split; [reflexivity|].
  destruct (for_of_outputs _ _ _ _ _ _ _ _ Hnodes Hget) as [Hu Ho].
  simpl in Hu, Ho.
  assert (Hc : (action, params, node) ∈ candidates nodes (actions this))
    by (apply candidates_elem; auto).
  split; intros ->.
  - rewrite Hu. apply list_elem_of_fmap. exists (action, params, node).
    split; [reflexivity|].
    apply list_elem_of_In, filter_In. split; [now apply list_elem_of_In|].
    apply String.eqb_refl.
  - rewrite Ho. apply list_elem_of_fmap. exists (action, params, node).
    split; [reflexivity|].
    apply list_elem_of_In, filter_In. split; [now apply list_elem_of_In|].
    apply String.eqb_refl.
Qed.

End EndToEnd.

(** *** The oracle and the outsider *)

Section Oracle.
Context {World : Type} `{Network World}.

(** X17: [getBondInfoForUser] fails in two ways only: with 'Invalid
    THORChain address', before any request, when an address lacks the
    [thor1] prefix; with 'Failed to retrieve bond info', in place of the
    error of the service, when the request was rejected. What it returns
    has a bond of [+0] whenever it is not a bond provider, so that the
    status made of it is [bonded] exactly when its bond is above 0, and
    [pending] exactly when it is not a bond provider. *)
Theorem bond_info_outcomes nodeAddress userAddress (w : World) :
  (startsWith nodeAddress "thor1" && startsWith userAddress "thor1" = false ->
   getBondInfoForUser nodeAddress userAddress w
   = (Throw (Error "Invalid THORChain address"), w)) /\
  (forall e w',
     getBondInfoForUser nodeAddress userAddress w = (Throw e, w') ->
     (e = Error "Invalid THORChain address" /\ w' = w) \/
     (e = bond_info_failed /\
      exists e', get_node (THORNODE_API_URL ++ "/" ++ nodeAddress) w
                 = (Throw e', w'))) /\
  (forall bondInfo w',
     getBondInfoForUser nodeAddress userAddress w = (Ok bondInfo, w') ->
     (BondInfo.isBondProvider bondInfo = false ->
      BondInfo.bond bondInfo = pos_zero) /\
     (status_of bondInfo = bonded <->
      gt (BondInfo.bond bondInfo) pos_zero = true) /\
     (status_of bondInfo = pending <->
      BondInfo.isBondProvider bondInfo = false)).
Proof.
  destruct (startsWith nodeAddress "thor1") eqn:Hn;
    [destruct (startsWith userAddress "thor1") eqn:Hu|].
  - destruct (getBondInfoForUser_cases nodeAddress userAddress w Hn Hu)
      as [(e' & w1 & Hget & ->)|(response & w1 & _ & ->)].
    + split; [discriminate|]. split; [|discriminate].
      intros e w' [= <- <-]. right. eauto.
    + split; [discriminate|]. split; [discriminate|].
      intros bondInfo w' [= <- <-].
      destruct (find _ _) as [provider|]; unfold status_of; simpl.
      * split; [discriminate|].
        destruct (gt (Number (BondProvider.bond provider)) pos_zero);
          split; split; congruence.
      * split; [reflexivity|]. split; split; discriminate || reflexivity.
  - unfold getBondInfoForUser. rewrite Hn, Hu. simpl.
    split; [reflexivity|]. split; [|discriminate].
    intros e w' [= <- <-]. now left.
  - unfold getBondInfoForUser. rewrite Hn. simpl.
    split; [reflexivity|]. split; [|discriminate].
    intros e w' [= <- <-]. now left.
Qed.

Lemma for_of_outsider this connectedAddress nodes actions requests
    (w : World) :
  getNodes this = Ok nodes ->
  (forall c, c ∈ candidates nodes actions ->
     viewer_sees connectedAddress c = false) ->
  (orphan nodes actions /\
   for_of (getWhitelistRequests_body this connectedAddress) actions
     requests w = (Throw node_not_found, w)) \/
  (~ orphan nodes actions /\
   for_of (getWhitelistRequests_body this connectedAddress) actions
     requests w = (Ok requests, w)).
Proof.
  intros Hnodes.
  induction actions as [|a l IH]; cbn [for_of]; intros Hout.
  - right. split; [|reflexivity].
    intros (action & request & Ha & _). now apply elem_of_nil in Ha.
  - assert (Hout' : forall c, c ∈ candidates nodes l ->
                      viewer_sees connectedAddress c = false)
      by (intros c Hc; now apply Hout, candidates_later).
    specialize (IH Hout').
    destruct (request_of a) as [request|] eqn:Hrq.
    2:{ rewrite body_skip by assumption.
        destruct IH as [[Ho ->]|[Hno ->]]; [left|right];
          (split; [|reflexivity]).
        - now apply orphan_later.
        - rewrite orphan_cons. intros [(request & Hrq' & _)|Ho];
            [congruence|contradiction]. }
    rewrite (body_request _ _ _ _ _ _ _ Hrq Hnodes).
    destruct (resolve nodes request) as [node|] eqn:Hres.
    2:{ left. split; [|reflexivity]. apply orphan_cons. left. eauto. }
    cbv zeta.
    assert (Hc : (a, request, node) ∈ candidates nodes (a :: l)).
    { apply candidates_elem. simpl.
      split; [apply elem_of_cons; now left|auto]. }
    apply Hout in Hc. unfold viewer_sees, viewer_is_user,
      viewer_is_operator in Hc. simpl in Hc. rewrite Hc.
    destruct IH as [[Ho ->]|[Hno ->]]; [left|right];
      (split; [|reflexivity]).
    + now apply orphan_later.
    + rewrite orphan_cons. intros [(request' & Hrq' & Hres')|Ho];
        [congruence|contradiction].
Qed.

(** X18: for a viewer who is neither the user nor the operator of any
    request of the feed, [getWhitelistRequests] makes no request at all:
    it returns two empty lists, or, if the feed holds a request for a node
    that is not in the registry, fails with 'Node not found'. *)
Theorem outsider_sees_nothing_and_asks_nothing this connectedAddress
    (w : World) nodes :
  getNodes this = Ok nodes ->
  (forall c, c ∈ candidates nodes (actions this) ->
     viewer_sees connectedAddress c = false) ->
  (orphan nodes (actions this) /\
   getWhitelistRequests this connectedAddress w
   = (Throw node_not_found, w)) \/
  (~ orphan nodes (actions this) /\
   getWhitelistRequests this connectedAddress w
   = (Ok {| Requests.operator := []; Requests.user := [] |}, w)).
Proof.
  intros Hnodes Hout.
  assert (Hinit : isInitialized this = true)
    by now apply getNodes_Ok in Hnodes.
  unfold getWhitelistRequests. rewrite Hinit. simpl.
  now apply for_of_outsider with (nodes := nodes).
Qed.

End Oracle.

(** *** The further properties at work on the scenario *)

Lemma scenario_nodes :
  getNodes scenario_engine = Ok [node_of_listing
    {| ListingMemo.nodeAddress := "thor1node";
       ListingMemo.operatorAddress := "thor1op";
       ListingMemo.minRune := of_Z 100;
       ListingMemo.maxRune := of_Z 10000;
       ListingMemo.feePercentage := of_Z 5 |} first_listing].
Proof. vm_compute. reflexivity. Qed.

Lemma reconciliation_fails_for_three_reasons_witness :
  exists nodes,
    getNodes orphan_engine = Ok nodes /\
    orphan nodes (actions orphan_engine).
Proof.
  destruct (getWhitelistRequests orphan_engine "thor1user" scenario_world)
    as [[result|e] w'] eqn:Hget; [vm_compute in Hget; discriminate|].
  assert (He : e = node_not_found) by (vm_compute in Hget; now injection Hget).
  destruct (reconciliation_fails_for_three_reasons orphan_engine "thor1user"
              scenario_world w' e Hget)
    as [(_ & Hinit & _)|(nodes & Hnodes & [[_ Ho]|[He' _]])].
  - discriminate Hinit.
  - exists nodes. split; assumption.
  - rewrite He in He'. discriminate He'.
Defined.

Lemma reconciliation_returns_without_orphans_witness :
  exists result w',
    getWhitelistRequests scenario_engine "thor1user" scenario_world
    = (Ok result, w').
Proof.
  assert (Hanswers : forall c (w0 : Steady),
            c ∈ candidates
                  [node_of_listing
                     {| ListingMemo.nodeAddress := "thor1node";
                        ListingMemo.operatorAddress := "thor1op";
                        ListingMemo.minRune := of_Z 100;
                        ListingMemo.maxRune := of_Z 10000;
                        ListingMemo.feePercentage := of_Z 5 |}
                     first_listing]
                  (actions scenario_engine) ->
            viewer_sees "thor1user" c = true ->
            exists response w1,
              get_node (query_url c) w0 = (Ok response, w1)).
  { intros c w0 _ _. exists (steady_node w0), w0. reflexivity. }
  apply (proj2 (reconciliation_returns_without_orphans scenario_engine
                  "thor1user" scenario_world _ scenario_nodes Hanswers)).
  intros (action & request & Ha & Hrq & Hres). simpl in Ha.
  apply elem_of_cons in Ha as [->|Ha]; [vm_compute in Hrq; discriminate|].
  apply list_elem_of_singleton in Ha. subst action.
  vm_compute in Hrq. injection Hrq as <-.
  vm_compute in Hres. discriminate.
Defined.

Lemma outputs_are_traced_to_the_feed_witness :
  exists result w',
    getWhitelistRequests scenario_engine "thor1user" scenario_world
    = (Ok result, w') /\
    forall r, r ∈ Requests.user result ->
      gt (WhitelistRequest.intendedBondAmount r) pos_zero = true /\
      exists listing listingMemo,
        first_to_list (actions scenario_engine) listing listingMemo /\
        WhitelistRequest.node r = node_of_listing listingMemo listing.
Proof.
  destruct (getWhitelistRequests scenario_engine "thor1user" scenario_world)
    as [[result|e] w'] eqn:Hget; [|vm_compute in Hget; discriminate].
  exists result, w'. split; [reflexivity|]. intros r Hr.
  destruct (outputs_are_traced_to_the_feed scenario_engine "thor1user"
              scenario_world w' result Hget r (or_introl Hr))
    as (_ & _ & Hpos & _ & _ & Hnode).
  split; assumption.
Defined.

Lemma reconciliation_asks_once_per_visible_request_witness :
  exists result w',
    getWhitelistRequests scenario_engine "thor1user" logged_scenario
    = (Ok result, w') /\
    requested w'
    = ["https://thornode.ninerealms.com/thorchain/node/thor1node"].
Proof.
  destruct (getWhitelistRequests scenario_engine "thor1user" logged_scenario)
    as [[result|e] w'] eqn:Hget; [|vm_compute in Hget; discriminate].
  exists result, w'. split; [reflexivity|].
  destruct (reconciliation_asks_once_per_visible_request scenario_engine
              "thor1user" logged_scenario w' result Hget)
    as (nodes & Hnodes & ->).
  rewrite scenario_nodes in Hnodes. injection Hnodes as <-.
  vm_compute. reflexivity.
Defined.

Lemma sent_listing_reaches_the_registry_witness :
  exists this' nodes,
    initialize new_ThorBondEngine scenario_world
    = (Ok tt, this', scenario_world) /\
    getNodes this' = Ok nodes /\
    {| Node.operator := "thor1op";
       Node.address := "thor1node";
       Node.bondingCapacity := of_Z 10000;
       Node.minimumBond := of_Z 100;
       Node.feePercentage := of_Z 5;
       Node.createdAt := new_Date (of_Z 1700000000000) |} ∈ nodes.
Proof.
  assert (Hmemo : createListing scenario_listing
                  = Ok "TB:thor1node:thor1op:100:10000:5")
    by (vm_compute; reflexivity).
  assert (Hfirst : forall b listingMemo,
            b ∈ @nil MidgardAction.t ->
            listing_of (transformMidgardAction b) = Some listingMemo ->
            ListingMemo.nodeAddress listingMemo
            <> ListingParams.nodeAddress scenario_listing).
  { intros b lm Hb. now apply elem_of_nil in Hb. }
  assert (Hget : get_actions (MIDGARD_API_URL ++ "/actions") feed_query
                   scenario_world = (Ok scenario_feed, scenario_world))
    by reflexivity.
  destruct (sent_listing_reaches_the_registry scenario_listing
              "TB:thor1node:thor1op:100:10000:5" scenario_world
              scenario_world scenario_feed []
              (midgard_send "TB:thor1node:thor1op:100:10000:5"
                 "1700000000000000000")
              [midgard_send "TB:thor1node:thor1user:500"
                 "1700000000000000002"]
              Hmemo eq_refl eq_refl eq_refl eq_refl eq_refl Hget eq_refl
              eq_refl Hfirst)
    as (this' & nodes & Hi & Hnodes & Hin).
  exists this', nodes. split; [exact Hi|]. split; [exact Hnodes|].
  vm_compute in Hin |- *. exact Hin.
Defined.

Lemma sent_request_reaches_both_views_witness :
  exists result w' node,
    getWhitelistRequests scenario_engine "thor1user" scenario_world
    = (Ok result, w') /\
    (node, "thor1user", of_Z 500, date_of known_request)
    ∈ map unlabelled (Requests.user result).
Proof.
  destruct (getWhitelistRequests scenario_engine "thor1user" scenario_world)
    as [[result|e] w'] eqn:Hget; [|vm_compute in Hget; discriminate].
  assert (Hmemo : createWhitelistRequest scenario_request
                  = Ok "TB:thor1node:thor1user:500")
    by (vm_compute; reflexivity).
  assert (Hin : known_request ∈ actions scenario_engine).
  { change (known_request ∈ [first_listing; known_request]).
    apply elem_of_cons. right. apply elem_of_cons. now left. }
  destruct (sent_request_reaches_both_views scenario_request
              "TB:thor1node:thor1user:500" scenario_engine "thor1user"
              scenario_world w' result known_request
              Hmemo eq_refl eq_refl eq_refl eq_refl Hin eq_refl Hget)
    as (nodes & node & _ & _ & Huser & _).
  exists result, w', node. split; [reflexivity|].
  now apply Huser.
Defined.

Lemma bond_info_outcomes_witness :
  getBondInfoForUser "node" "thor1user" silent
  = (Throw (Error "Invalid THORChain address"), silent).
Proof.
  apply (proj1 (bond_info_outcomes "node" "thor1user" silent)).
  reflexivity.
Defined.

Lemma outsider_sees_nothing_and_asks_nothing_witness :
  getWhitelistRequests scenario_engine "thor1nobody" silent
  = (Ok {| Requests.operator := []; Requests.user := [] |}, silent).
Proof.
  destruct (outsider_sees_nothing_and_asks_nothing scenario_engine
              "thor1nobody" silent _ scenario_nodes)
    as [[_ Hget]|[_ Hget]].
  - intros c Hc. apply candidates_elem in Hc as (Ha & Hrq & Hres).
    destruct c as [[action request] node]. simpl in *.
    apply elem_of_cons in Ha as [->|Ha]; [vm_compute in Hrq; discriminate|].
    apply list_elem_of_singleton in Ha. subst action.
    vm_compute in Hrq. injection Hrq as <-.
    vm_compute in Hres. injection Hres as <-.
    vm_compute. reflexivity.
  - vm_compute in Hget. discriminate Hget.
  - exact Hget.
Defined.
